(** * video_subtitle_pipeline.py: a shallow embedding and its properties

    The script downloads a video, extracts its audio, runs speech
    recognition and writes SRT caption files in several languages.

    Definitions:
    - [PyStr]: Python [str] values as lists of code points, with the
      operations the script uses ([strip], [replace], integer formatting,
      comparison);
    - [Float64]: Python [float] (IEEE binary64) with the arithmetic of
      CPython's [//] and [%], its [int()] conversion and its [.3f]
      formatting, all in exact integer arithmetic;
    - [timestamp], then the stages of the script in a state-and-exception
      monad over a file system and a trace of events; the external tools
      and engines are the fields of the class [Collaborators], the
      settings those of [Config];
    - the caption format and the other notions of the specification.

    Properties: rounding and floor division on floats, decimal numerals
    and string order, the formatter, file names, the stage gate, the
    caption writers, the translation fan-out, recognition failure, and
    all of them on sample data; then the events, the files and the
    failures of whole runs of [main].

    Console output ([print], [tqdm]) is not part of the model. *)

From Stdlib Require Import ZArith Lia List String Ascii Bool.
From stdpp Require Import gmap.
Import ListNotations.

Local Open Scope Z_scope.

(** ** Python strings *)

Module PyStr.

(** A Python [str] is a sequence of Unicode code points. *)
Abbreviation pystr := (list N).

(** A literal of the script (ASCII in every use below). *)
Definition py (s : string) : pystr :=
  List.map N_of_ascii (list_ascii_of_string s).

(** [str.isspace] on one code point (CPython's [_PyUnicode_IsWhitespace]);
    this is the set [str.strip()] removes. *)
Definition isspace (c : N) : bool :=
  ((9 <=? c) && (c <=? 13) || (28 <=? c) && (c <=? 32)
   || (c =? 133) || (c =? 160) || (c =? 5760)
   || (8192 <=? c) && (c <=? 8202)
   || (c =? 8232) || (c =? 8233) || (c =? 8239) || (c =? 8287)
   || (c =? 12288))%N.

Fixpoint lstrip (s : pystr) : pystr :=
  match s with
  | c :: s' => if isspace c then lstrip s' else s
  | [] => []
  end.

Definition rstrip (s : pystr) : pystr := rev (lstrip (rev s)).

(** [s.strip()] *)
Definition strip (s : pystr) : pystr := rstrip (lstrip s).

(** [s.replace(old, new)] for one-character [old] and [new]. *)
Definition replace_char (old new : N) (s : pystr) : pystr :=
  List.map (fun c => if (c =? old)%N then new else c) s.

(** [s <= t] on [str]: lexicographic by code point. *)
Fixpoint str_le (s t : pystr) : bool :=
  match s, t with
  | [], _ => true
  | _ :: _, [] => false
  | a :: s', b :: t' => (a <? b)%N || ((a =? b)%N && str_le s' t')
  end.

(** Decimal digits. *)
Definition digit_char (d : Z) : N := (48 + Z.to_N d)%N.

Definition is_digit (c : N) : bool := ((48 <=? c) && (c <=? 57))%N.

(** The [w] low decimal digits of [n], most significant first. *)
Fixpoint fixed_digits (w : nat) (n : Z) : pystr :=
  match w with
  | O => []
  | S w' => fixed_digits w' (n / 10) ++ [digit_char (n mod 10)]
  end.

Fixpoint ndigits_aux (fuel : nat) (n : Z) : nat :=
  match fuel with
  | O => O
  | S f => if n <=? 0 then O else S (ndigits_aux f (n / 10))
  end.

(** Number of decimal digits of [n] ([0] for [n <= 0]). *)
Definition ndigits (n : Z) : nat := ndigits_aux (S (Z.to_nat (Z.log2 n))) n.

(** The decimal numeral of [n >= 0], left-padded with zeros to at least
    [w] characters. *)
Definition zero_padded (w : nat) (n : Z) : pystr :=
  fixed_digits (Nat.max w (ndigits n)) n.

(** [format(z, "0w")] on an [int]: the sign, when there is one, counts in
    the width and comes before the padding. *)
Definition format_int (w : nat) (z : Z) : pystr :=
  if z <? 0 then py "-" ++ zero_padded (Nat.max 1 (w - 1)) (- z)
  else zero_padded (Nat.max 1 w) z.

(** [str(z)] on an [int]. *)
Definition str_of_int (z : Z) : pystr := format_int 1 z.

End PyStr.
Import PyStr.

(** ** Exceptions *)

Inductive exn : Type :=
| KeyError (key : pystr)
| TypeError
| AttributeError
| ValueError
| OverflowError
| ZeroDivisionError
| OSError (path : pystr)
| CalledProcessError (argv : list pystr)
| EngineError (code : Z).

(** [OSError path] stands for the class with its subclasses: it is what
    [open] raises on a path it cannot open, and what [subprocess.run]
    raises ([FileNotFoundError], for one) on a program it cannot start. *)

(** The outcome of an expression that may raise. *)
Inductive result (A : Type) : Type :=
| Ok (a : A)
| Raise (e : exn).
Arguments Ok {A} a.
Arguments Raise {A} e.

#[global] Instance result_ret : MRet result := fun _ a => Ok a.

#[global] Instance result_bind : MBind result := fun _ _ k r =>
  match r with
  | Ok a => k a
  | Raise e => Raise e
  end.

(** ** Python floats *)

Module Float64.

(** Every finite binary64 number is an integer multiple of [2^-1074], the
    smallest subnormal.  A finite float is modelled by that integer (its
    number of units), so that all arithmetic is exact arithmetic on [Z]
    followed, where IEEE 754 rounds, by an explicit rounding to 53
    significant bits.  [Fin k] is a binary64 when [is_double k] holds;
    the operations are defined, and most properties proved, for every
    [k].  Signed zeros are identified: [timestamp] cannot tell them
    apart ([int(-0.0)] is [0], and a zero remainder takes the sign of
    the divisor). *)
Inductive float : Type :=
| Fin (k : Z)
| Inf (neg : bool)
| NaN.

(** [1.0] in units of [2^-1074]. *)
Definition one : Z := 2 ^ 1074.

(** The float of an integer literal of the script ([3600], [60]). *)
Definition of_int (z : Z) : float := Fin (z * one).

(** The float [n / 2^e] (for writing down dyadic inputs). *)
Definition dyadic (n e : Z) : float := Fin (n * 2 ^ (1074 - e)).

(** Nearest integer to [n / d], ties to even ([0 < d]). *)
Definition round_half_even (n d : Z) : Z :=
  let q := n / d in
  match (2 * (n mod d)) ?= d with
  | Lt => q
  | Gt => q + 1
  | Eq => if Z.even q then q else q + 1
  end.

(** Number of bits of [|z|]. *)
Definition bits (z : Z) : Z := if z =? 0 then 0 else Z.log2 (Z.abs z) + 1.

(** The binary exponent of the last place of a binary64 of magnitude
    [q] units: 53 significant bits, and never below one unit. *)
Definition ulp_shift (q : Z) : Z := Z.max 0 (bits q - 53).

(** [2^1024], in units: the first magnitude that is no longer finite. *)
Definition overflow_threshold : Z := 2 ^ 2098.

(** The largest finite binary64, [(2^53 - 1) * 2^971], in units. *)
Definition max_finite : Z := (2 ^ 53 - 1) * 2 ^ 2045.

(** [2^1023], in units: half the finite range. *)
Definition half_range : Z := 2 ^ 2097.

(** Round-to-nearest-even of the exact value [n / d] units ([0 < d]) to a
    binary64, overflowing to infinity. *)
Definition round64 (n d : Z) : float :=
  let shift := ulp_shift (Z.abs n / d) in
  let k := round_half_even n (d * 2 ^ shift) * 2 ^ shift in
  if overflow_threshold <=? Z.abs k then Inf (k <? 0) else Fin k.

(** [k] units is a binary64 value. *)
Definition is_double (k : Z) : bool :=
  (Z.abs k <? overflow_threshold) && (k mod 2 ^ ulp_shift k =? 0).

Definition fadd (x y : float) : float :=
  match x, y with
  | NaN, _ | _, NaN => NaN
  | Fin a, Fin b => round64 (a + b) 1
  | Inf s, Inf t => if Bool.eqb s t then Inf s else NaN
  | Inf s, Fin _ => Inf s
  | Fin _, Inf t => Inf t
  end.

Definition fneg (x : float) : float :=
  match x with
  | Fin a => Fin (- a)
  | Inf s => Inf (negb s)
  | NaN => NaN
  end.

Definition fsub (x y : float) : float := fadd x (fneg y).

(** C's [/] on doubles. *)
Definition fdiv (x y : float) : float :=
  match x, y with
  | NaN, _ | _, NaN => NaN
  | Fin a, Fin b =>
      if b =? 0 then (if a =? 0 then NaN else Inf (a <? 0))
      else round64 (Z.sgn b * a * one) (Z.abs b)
  | Fin _, Inf _ => Fin 0
  | Inf s, Fin b => Inf (xorb s (b <? 0))
  | Inf _, Inf _ => NaN
  end.

(** C's [fmod]: exact, with the sign of [x]. *)
Definition fmod (x y : float) : float :=
  match x, y with
  | Fin a, Fin b => if b =? 0 then NaN else Fin (Z.rem a b)
  | Fin a, Inf _ => Fin a
  | _, _ => NaN
  end.

Definition floor (x : float) : float :=
  match x with
  | Fin a => Fin (a / one * one)
  | _ => x
  end.

(** [x < y], false on NaN. *)
Definition flt (x y : float) : bool :=
  match x, y with
  | NaN, _ | _, NaN => false
  | Fin a, Fin b => a <? b
  | Inf s, Inf t => s && negb t
  | Inf s, Fin _ => s
  | Fin _, Inf t => negb t
  end.

(** C truth value of a double: [x != 0.0]. *)
Definition nonzero (x : float) : bool :=
  match x with
  | Fin a => negb (a =? 0)
  | _ => true
  end.

(** "Snap quotient to nearest integral value" in CPython's
    [_float_div_mod]. *)
Definition snap_quotient (div : float) : float :=
  if nonzero div then
    let fl := floor div in
    if flt (Fin (one / 2)) (fsub div fl) then fadd fl (Fin one) else fl
  else Fin 0.

(** CPython [_float_div_mod]: the pair [(vx // wx, vx % wx)] for [wx != 0]. *)
Definition float_div_mod (vx wx : float) : float * float :=
  let mod0 := fmod vx wx in
  let div0 := fdiv (fsub vx mod0) wx in
  let '(md, div) :=
    if nonzero mod0 then
      if negb (Bool.eqb (flt wx (Fin 0)) (flt mod0 (Fin 0)))
      then (fadd mod0 wx, fsub div0 (Fin one))
      else (mod0, div0)
    else (Fin 0, div0) in
  (snap_quotient div, md).

(** [vx // wx] *)
Definition floordiv (vx wx : float) : result float :=
  if nonzero wx then Ok (fst (float_div_mod vx wx)) else Raise ZeroDivisionError.

(** [vx % wx] *)
Definition rem (vx wx : float) : result float :=
  if nonzero wx then Ok (snd (float_div_mod vx wx)) else Raise ZeroDivisionError.

(** [int(x)]: truncation toward zero. *)
Definition to_int (x : float) : result Z :=
  match x with
  | Fin a => Ok (Z.quot a one)
  | Inf _ => Raise OverflowError
  | NaN => Raise ValueError
  end.

(** The magnitude [a >= 0] with three decimals, correctly rounded, the
    integer part zero-padded to [w] characters. *)
Definition fixed3 (w : nat) (a : Z) : pystr :=
  let n := round_half_even (1000 * a) one in
  zero_padded (Nat.max 1 w) (n / 1000) ++ py "." ++ fixed_digits 3 (n mod 1000).

(** [format(x, "06.3f")] *)
Definition format_06_3f (x : float) : pystr :=
  match x with
  | Fin a => if a <? 0 then py "-" ++ fixed3 1 (- a) else fixed3 2 a
  | Inf s => if s then py "-00inf" else py "000inf"
  | NaN => py "000nan"
  end.

End Float64.
Import Float64.

(** ** The timestamp formatter *)

(** [timestamp(sec)] *)
Definition timestamp (sec : float) : result pystr :=
  q ← floordiv sec (of_int 3600);
  h ← to_int q;
  r ← rem sec (of_int 3600);
  qm ← floordiv r (of_int 60);
  m ← to_int qm;
  s ← rem sec (of_int 60);
  Ok (replace_char 46 44
        (format_int 2 h ++ py ":" ++ format_int 2 m ++ py ":" ++ format_06_3f s)).

(** ** Segments *)

(** The values the script reads out of a Whisper segment: numbers of
    seconds and texts.  (Whisper's dictionaries also carry integers and
    token lists under keys the script never reads.) *)
Inductive pyval : Type :=
| PyFloat (f : float)
| PyStr (s : pystr).

(** A segment is a [dict] from field names to values. *)
Abbreviation segment := (gmap pystr pyval).

(** [seg[key]] *)
Definition getitem (seg : segment) (key : pystr) : result pyval :=
  match seg !! key with
  | Some v => Ok v
  | None => Raise (KeyError key)
  end.

(** [seg.get(key, default)] *)
Definition dict_get (seg : segment) (key : pystr) (default : pyval) : pyval :=
  match seg !! key with
  | Some v => v
  | None => default
  end.

(** [timestamp(v)] on a dictionary value: a [str] has no [//] with [int]. *)
Definition timestamp_val (v : pyval) : result pystr :=
  match v with
  | PyFloat f => timestamp f
  | PyStr _ => Raise TypeError
  end.

(** [v.strip()]: a [float] has no such attribute. *)
Definition strip_val (v : pyval) : result pystr :=
  match v with
  | PyStr s => Ok (strip s)
  | PyFloat _ => Raise AttributeError
  end.

Definition nl : pystr := [10%N].

(** The f-string [f"{timestamp(seg['start'])} --> {timestamp(seg['end'])}"] *)
Definition time_range (seg : segment) : result pystr :=
  a ← getitem seg (py "start");
  ta ← timestamp_val a;
  b ← getitem seg (py "end");
  tb ← timestamp_val b;
  Ok (ta ++ py " --> " ++ tb).

(** ** The world of the script *)

(** What the script does to its surroundings, in order. *)
Inductive event : Type :=
| EvRun (argv : list pystr)
| EvTranscribe (model audio : pystr)
| EvTranslate (text src dst : pystr)
| EvOpen (path : pystr)
| EvRemove (path : pystr).

(** The files (path to contents) and the events so far, oldest first. *)
Record world : Type := World {
  fs : gmap pystr pystr;
  trace : list event
}.

(** The external collaborators: the tools of [subprocess.run] (a tool
    either cannot be started, which is [None], or runs, may change any
    file and returns an exit status), Whisper ([load_model] then
    [transcribe], reading the audio file), the Argos translation
    function, and whether [open(path, "w")] succeeds. *)
Class Collaborators : Type := {
  subprocess_run :
    list pystr -> gmap pystr pystr -> option (gmap pystr pystr * Z);
  whisper_transcribe :
    pystr -> pystr -> pystr -> pystr -> gmap pystr pystr -> result (list segment);
  argtr_translate : pystr -> pystr -> pystr -> result pystr;
  can_open : gmap pystr pystr -> pystr -> bool
}.

(** The USER SETTINGS block.  [SAVE_LANGS] keeps the order of the
    dictionary literal, which is the order of [SAVE_LANGS.items()]. *)
Class Config : Type := {
  PROJECT_NAME : pystr;
  M3U8_URL : pystr;
  FFMPEG : pystr;
  MODEL : pystr;
  SAVE_AUDIO : bool;
  SAVE_ZH_SUB : bool;
  SAVE_EN_SUB : bool;
  SAVE_LANGS : list (pystr * bool)
}.

(** The settings as the repository ships them. *)
Definition shipped_config : Config := {|
  PROJECT_NAME := py "my_video";
  M3U8_URL := py "https://example.com/path/to/video/playlist.m3u8";
  FFMPEG := py "/opt/homebrew/bin/ffmpeg";
  MODEL := py "large-v3";
  SAVE_AUDIO := true;
  SAVE_ZH_SUB := true;
  SAVE_EN_SUB := true;
  SAVE_LANGS := [(py "ru", true); (py "fr", false); (py "es", false); (py "de", false)]
|}.

(** A computation of the script: it changes the world and returns or raises. *)
Definition M (A : Type) : Type := world -> world * result A.

#[global] Instance M_ret : MRet M := fun _ a w => (w, Ok a).

#[global] Instance M_bind : MBind M := fun _ _ k m w =>
  match m w with
  | (w', Ok a) => k a w'
  | (w', Raise e) => (w', Raise e)
  end.

(** An expression without effects, evaluated inside a computation. *)
Definition lift {A} (r : result A) : M A := fun w => (w, r).

Definition log (ev : event) : M unit :=
  fun w => (World (fs w) (trace w ++ [ev]), Ok tt).

(** [for i, x in enumerate(l, start): body] *)
Fixpoint for_enumerate {A} (start : Z) (l : list A) (body : Z -> A -> M unit)
  : M unit :=
  match l with
  | [] => mret tt
  | x :: l' => body start x ;; for_enumerate (start + 1) l' body
  end.

(** [for x in l: body] *)
Fixpoint for_each {A} (l : list A) (body : A -> M unit) : M unit :=
  match l with
  | [] => mret tt
  | x :: l' => body x ;; for_each l' body
  end.

Section Pipeline.
Context `{Collaborators} `{Config}.

(** *** AUTO-GENERATED FILE NAMES *)
Definition VIDEO_NAME : pystr := PROJECT_NAME ++ py ".mp4".
Definition AUDIO_NAME : pystr := PROJECT_NAME ++ py "_audio.wav".
Definition ZH_SUB : pystr := PROJECT_NAME ++ py "_zh.srt".
Definition EN_SUB : pystr := PROJECT_NAME ++ py "_en.srt".
Definition RU_SUB : pystr := PROJECT_NAME ++ py "_ru.srt".
Definition FR_SUB : pystr := PROJECT_NAME ++ py "_fr.srt".
Definition ES_SUB : pystr := PROJECT_NAME ++ py "_es.srt".
Definition DE_SUB : pystr := PROJECT_NAME ++ py "_de.srt".

(** *** Primitive effects *)

(** [os.path.exists(path)] *)
Definition path_exists (path : pystr) : M bool :=
  fun w => (w, Ok (bool_decide (is_Some (fs w !! path)))).

(** [subprocess.run(argv, check=True)]: [OSError] when the program,
    the first word of [argv], cannot be started, and nothing has happened
    then; [CalledProcessError] when it has run and exited with a status
    other than 0. *)
Definition run_checked (argv : list pystr) : M unit :=
  fun w =>
    match subprocess_run argv (fs w) with
    | None => (w, Raise (OSError (List.hd [] argv)))
    | Some (fs', status) =>
        let w' := World fs' (trace w ++ [EvRun argv]) in
        if status =? 0 then (w', Ok tt) else (w', Raise (CalledProcessError argv))
    end.

(** [open(path, "w")]: the file is created or truncated. *)
Definition open_w (path : pystr) : M unit :=
  fun w =>
    if can_open (fs w) path
    then (World (<[path := []]> (fs w)) (trace w ++ [EvOpen path]), Ok tt)
    else (w, Raise (OSError path)).

(** [f.write(data)] on the file opened at [path]. *)
Definition write (path data : pystr) : M unit :=
  fun w =>
    (World (<[path := default [] (fs w !! path) ++ data]> (fs w)) (trace w), Ok tt).

(** [os.remove(path)] *)
Definition remove (path : pystr) : M unit :=
  fun w => (World (delete path (fs w)) (trace w ++ [EvRemove path]), Ok tt).

(** [argtr.translate(text, src, dst)] *)
Definition translate (text src dst : pystr) : M pystr :=
  log (EvTranslate text src dst) ;; lift (argtr_translate text src dst).

(** [whisper.load_model(model).transcribe(audio, task=..., language=...)["segments"]] *)
Definition transcribe (model audio task language : pystr) : M (list segment) :=
  fun w =>
    (World (fs w) (trace w ++ [EvTranscribe model audio]),
     whisper_transcribe model audio task language (fs w)).

(** *** CORE FUNCTIONS *)

Definition download_video : M unit :=
  present ← path_exists VIDEO_NAME;
  if (present : bool) then mret tt
  else run_checked [py "yt-dlp"; M3U8_URL; py "-o"; VIDEO_NAME;
                    py "--no-check-certificate"].

Definition extract_audio : M unit :=
  present ← path_exists AUDIO_NAME;
  if (present : bool) then mret tt
  else run_checked [FFMPEG; py "-i"; VIDEO_NAME; py "-ac"; py "1"; py "-ar";
                    py "16000"; py "-vn"; py "-y"; AUDIO_NAME].

Definition recognize_and_translate_en : M (list segment) :=
  transcribe MODEL AUDIO_NAME (py "translate") (py "zh").

(** [save_subtitles(segments, filename, text_key, lang_label)]; the label
    only goes to the console. *)
Definition save_subtitles (segments : list segment) (filename text_key : pystr)
  : M unit :=
  open_w filename ;;
  for_enumerate 1 segments (fun i seg =>
    write filename (str_of_int i ++ nl) ;;
    range ← lift (time_range seg);
    write filename (range ++ nl) ;;
    text ← lift (v ← getitem seg text_key; strip_val v);
    write filename (text ++ nl ++ nl)).

(** The loop of [translate_and_save], with [out_blocks] as accumulator. *)
Fixpoint translate_blocks (i : Z) (segments : list segment) (src_lang dst_lang : pystr)
    (out_blocks : list pystr) : M (list pystr) :=
  match segments with
  | [] => mret out_blocks
  | seg :: rest =>
      en_text ← lift (v ← getitem seg (py "text"); strip_val v);
      translated ← translate en_text src_lang dst_lang;
      range ← lift (time_range seg);
      translate_blocks (i + 1) rest src_lang dst_lang
        (out_blocks ++ [str_of_int (i + 1) ++ nl ++ range ++ nl ++ translated ++ nl ++ nl])
  end.

(** [translate_and_save(segments, src_lang, dst_lang, filename, lang_label)] *)
Definition translate_and_save (segments : list segment)
    (src_lang dst_lang filename : pystr) : M unit :=
  out_blocks ← translate_blocks 0 segments src_lang dst_lang [];
  open_w filename ;;
  for_each out_blocks (write filename).

(** Step 2 of [main]: the Chinese captions, from [original_text] when a
    segment has it. *)
Definition main_save_zh (segments : list segment) : M unit :=
  open_w ZH_SUB ;;
  for_enumerate 1 segments (fun i seg =>
    write ZH_SUB (str_of_int i ++ nl) ;;
    range ← lift (time_range seg);
    write ZH_SUB (range ++ nl) ;;
    zh_text ← lift (strip_val (dict_get seg (py "original_text")
                                 (dict_get seg (py "text") (PyStr []))));
    write ZH_SUB (zh_text ++ nl ++ nl)).

(** [lang_map] of [main]: the file of each language code. *)
Definition lang_map : list (pystr * pystr) :=
  [(py "ru", RU_SUB); (py "fr", FR_SUB); (py "es", ES_SUB); (py "de", DE_SUB)].

Definition lang_map_getitem (code : pystr) : result pystr :=
  match List.find (fun kv => bool_decide (fst kv = code)) lang_map with
  | Some kv => Ok (snd kv)
  | None => Raise (KeyError code)
  end.

(** Step 4 of [main]: the loop over [SAVE_LANGS.items()]. *)
Definition main_translate_all (segments : list segment) : M unit :=
  for_each SAVE_LANGS (fun '(code, enabled) =>
    if (enabled : bool) then
      filename ← lift (lang_map_getitem code);
      translate_and_save segments (py "en") code filename
    else mret tt).

Definition main : M unit :=
  download_video ;;
  (if SAVE_AUDIO then extract_audio else mret tt) ;;
  segments ← recognize_and_translate_en;
  (if SAVE_ZH_SUB then main_save_zh segments else mret tt) ;;
  (if SAVE_EN_SUB then save_subtitles segments EN_SUB (py "text") else mret tt) ;;
  main_translate_all segments ;;
  if negb SAVE_AUDIO then
    present ← path_exists AUDIO_NAME;
    if (present : bool) then remove AUDIO_NAME else mret tt
  else mret tt.

(** The two stages behind the stage gate, and the artifact each checks. *)
Inductive gated_stage : Type := Download | ExtractAudio.

Definition artifact (st : gated_stage) : pystr :=
  match st with Download => VIDEO_NAME | ExtractAudio => AUDIO_NAME end.

Definition run_stage (st : gated_stage) : M unit :=
  match st with Download => download_video | ExtractAudio => extract_audio end.

(** The stages of [main] that come before recognition. *)
Definition main_fetch : M unit :=
  download_video ;; (if SAVE_AUDIO then extract_audio else mret tt).

(** The body shared by the two caption loops ([save_subtitles] and step 2
    of [main]); they differ in how the text is read. *)
Definition caption_body (filename : pystr) (get_text : segment -> result pystr)
    (i : Z) (seg : segment) : M unit :=
  write filename (str_of_int i ++ nl) ;;
  range ← lift (time_range seg);
  write filename (range ++ nl) ;;
  text ← lift (get_text seg);
  write filename (text ++ nl ++ nl).

End Pipeline.

(** A test double for the collaborators: the tools do nothing and
    succeed, recognition is out of order, translation echoes its input
    and rejects the empty text, every path can be opened. *)
Definition mock : Collaborators := {|
  subprocess_run := fun _ files => Some (files, 0);
  whisper_transcribe := fun _ _ _ _ _ => Raise (EngineError 1);
  argtr_translate := fun text _ _ =>
    match text with [] => Raise (EngineError 2) | _ => Ok text end;
  can_open := fun _ _ => true
|}.

(** A sample time: 3661.25 s, in units. *)
Definition sample_time : Z := 14645 * 2 ^ 1072.

(** Sample data: an empty world, a world that already has the video, and
    segments as Whisper returns them (texts with a leading space). *)
Definition empty_world : world := World ∅ [].

Definition video_world : world := World {[py "my_video.mp4" := py "(video)"]} [].

Definition hello_segment : segment :=
  {[py "start" := PyFloat (of_int 0); py "end" := PyFloat (dyadic 3 1);
    py "text" := PyStr (py " Hello world ")]}.

Definition blank_segment : segment :=
  {[py "start" := PyFloat (dyadic 3 1); py "end" := PyFloat (of_int 3);
    py "text" := PyStr (py "  ")]}.

Definition hello_row : pystr * pystr * pystr :=
  (py "00:00:00,000", py "00:00:01,500", py "Hello world").

(** The two segments of the caption file shown in the specification
    (3.4 is the float [7656119366529843 / 2^51]), and a recognizer that
    returns them. *)
Definition spec_segments : list segment :=
  [ {[py "start" := PyFloat (dyadic 5 2);
      py "end" := PyFloat (dyadic 7656119366529843 51);
      py "text" := PyStr (py " Hello world")]};
    {[py "start" := PyFloat (dyadic 7656119366529843 51);
      py "end" := PyFloat (of_int 5);
      py "text" := PyStr (py " Next line")]} ].

(** The file a tool writes: the argument after [-o], else the last one. *)
Fixpoint output_arg (argv : list pystr) : pystr :=
  match argv with
  | [] => []
  | [a] => a
  | a :: (b :: _) as rest => if bool_decide (a = py "-o") then b else output_arg rest
  end.

Definition mock_recognizing : Collaborators := {|
  subprocess_run := fun argv files =>
    Some (<[output_arg argv := py "(media)"]> files, 0);
  whisper_transcribe := fun _ audio _ _ files =>
    match files !! audio with
    | Some _ => Ok spec_segments
    | None => Raise (EngineError 1)
    end;
  argtr_translate := fun text _ dst => Ok (dst ++ py ":" ++ text);
  can_open := fun _ _ => true
|}.

(** ** The caption format, as the specification words it *)

(** The decimal numeral of an integer, as one writes it by hand: the
    digits by repeated division by ten, the last digit first found,
    digit [d] being the code point [48 + d]; a minus sign (45) before
    the numeral of [- n] when [n] is negative.  No zero is put in front. *)
Fixpoint numeral_digits (fuel : nat) (n : Z) (acc : pystr) : pystr :=
  match fuel with
  | O => acc
  | S fuel' =>
      let acc' := (48 + Z.to_N (n mod 10))%N :: acc in
      if n <? 10 then acc' else numeral_digits fuel' (n / 10) acc'
  end.

Definition numeral (n : Z) : pystr :=
  if n <? 0 then 45%N :: numeral_digits (S (Z.to_nat (Z.log2 (- n)))) (- n) []
  else numeral_digits (S (Z.to_nat (Z.log2 n))) n [].

(** One block: index line, time line, text line, blank line.  The
    characters are given by their code points: a line ends with a line
    feed (10); the arrow is a space (32), two hyphens (45), a
    greater-than sign (62) and a space. *)
Definition srt_block (i : Z) (row : pystr * pystr * pystr) : pystr :=
  let '(t_start, t_end, text) := row in
  numeral i ++ [10%N] ++ t_start ++ [32; 45; 45; 62; 32]%N ++ t_end ++ [10%N]
  ++ text ++ [10; 10]%N.

(** The blocks of rows numbered from [i]. *)
Fixpoint srt_blocks (i : Z) (rows : list (pystr * pystr * pystr)) : list pystr :=
  match rows with
  | [] => []
  | row :: rows' => srt_block i row :: srt_blocks (i + 1) rows'
  end.

(** A whole caption file: the blocks, numbered from 1, one after the other. *)
Definition srt_file (rows : list (pystr * pystr * pystr)) : pystr :=
  concat (srt_blocks 1 rows).

(** The formatted start and end of a segment. *)
Definition seg_times (seg : segment) (t_start t_end : pystr) : Prop :=
  exists a b,
    seg !! py "start" = Some (PyFloat a) /\ timestamp a = Ok t_start /\
    seg !! py "end" = Some (PyFloat b) /\ timestamp b = Ok t_end.

(** [row] is what the writer is to emit for [seg] when [key] selects the
    text: the two formatted times and the trimmed text under [key]. *)
Definition seg_row (key : pystr) (seg : segment) (row : pystr * pystr * pystr) : Prop :=
  seg_times seg row.1.1 row.1.2 /\
  exists text, seg !! key = Some (PyStr text) /\ row.2 = strip text.

(** What step 2 of [main] is to emit as text, in the words of the
    specification: the original text; when the segment has none, the
    primary text; when it has neither, nothing. *)
Inductive native_text (seg : segment) : pystr -> Prop :=
| native_original text :
    seg !! py "original_text" = Some (PyStr text) -> native_text seg (strip text)
| native_primary text :
    seg !! py "original_text" = None -> seg !! py "text" = Some (PyStr text) ->
    native_text seg (strip text)
| native_empty :
    seg !! py "original_text" = None -> seg !! py "text" = None ->
    native_text seg [].

Definition is_translate (ev : event) : Prop :=
  match ev with EvTranslate _ _ _ => True | _ => False end.

(** The call the fan-out makes for a segment of text [text]. *)
Definition call_of (src dst text : pystr) : event :=
  EvTranslate (strip text) src dst.

Section Engine.
Context `{Collaborators}.

(** What the fan-out hands to the engine for a segment, and what it gets. *)
Definition translated_row (src dst : pystr) (seg : segment)
    (row : pystr * pystr * pystr) (text : pystr) : Prop :=
  seg_times seg row.1.1 row.1.2 /\
  seg !! py "text" = Some (PyStr text) /\
  argtr_translate (strip text) src dst = Ok row.2.

(** A segment on which the engine raises. *)
Definition engine_fails_on (src dst : pystr) (seg : segment) : Prop :=
  exists text e, seg !! py "text" = Some (PyStr text) /\
                 argtr_translate (strip text) src dst = Raise e.

(** A call the engine answers. *)
Definition call_succeeds (c : pystr * pystr * pystr) : Prop :=
  exists t, argtr_translate c.1.1 c.1.2 c.2 = Ok t.

End Engine.

(** The text [HH:MM:SS,mmm] of [h] hours, [m] minutes and [r]
    milliseconds, the hours with at least two digits. *)
Definition clock (h m r : Z) : pystr :=
  zero_padded 2 h ++ py ":" ++ fixed_digits 2 m ++ py ":"
  ++ fixed_digits 2 (r / 1000) ++ py "," ++ fixed_digits 3 (r mod 1000).

(** The longest prefix of digits, and the rest. *)
Fixpoint span_digits (s : pystr) : pystr * pystr :=
  match s with
  | c :: s' =>
      if is_digit c then let '(ds, rest) := span_digits s' in (c :: ds, rest)
      else ([], s)
  | [] => ([], [])
  end.

(** The regular expression [^\d{2,}:\d{2}:\d{2},\d{3}$]. *)
Definition matches_timestamp_pattern (s : pystr) : bool :=
  let '(hours, rest) := span_digits s in
  (2 <=? length hours)%nat &&
  match rest with
  | [c1; m1; m2; c2; s1; s2; c3; f1; f2; f3] =>
      (c1 =? 58)%N && is_digit m1 && is_digit m2 && (c2 =? 58)%N
      && is_digit s1 && is_digit s2 && (c3 =? 44)%N
      && is_digit f1 && is_digit f2 && is_digit f3
  | _ => false
  end.

Definition digit_value (c : N) : option Z :=
  if is_digit c then Some (Z.of_N c - 48) else None.

(** The milliseconds field of a timestamp: its last three characters,
    read as a decimal number. *)
Definition millis_field (s : pystr) : option Z :=
  match rev s with
  | c3 :: c2 :: c1 :: _ =>
      d1 ← digit_value c1; d2 ← digit_value c2; d3 ← digit_value c3;
      Some (100 * d1 + 10 * d2 + d3)
  | _ => None
  end.

(** [t] seconds truncated to milliseconds, modulo one second: what the
    specification expects in the milliseconds field ([k] is [t] in units). *)
Definition truncated_millis (k : Z) : Z := (1000 * k / one) mod 1000.

(** What [.3f] puts there: the seconds within the minute, in
    milliseconds, rounded to nearest, ties to even. *)
Definition rounded_millis (k : Z) : Z :=
  round_half_even (1000 * (k mod (60 * one))) one.

(** The file names "of the form [<project>_<kind>.<ext>]". *)
Definition has_form (project name ext : pystr) : Prop :=
  exists kind, name = project ++ py "_" ++ kind ++ py "." ++ ext.

(** The paths opened for writing in a trace. *)
Definition opened (t : list event) : list pystr :=
  omap (fun ev => match ev with EvOpen p => Some p | _ => None end) t.

(** The calls to the translation engine in a trace. *)
Definition engine_calls (t : list event) : list (pystr * pystr * pystr) :=
  omap (fun ev => match ev with EvTranslate x s d => Some (x, s, d) | _ => None end) t.

(** The tools started in a trace. *)
Definition tool_runs (t : list event) : list (list pystr) :=
  omap (fun ev => match ev with EvRun argv => Some argv | _ => None end) t.

(** ** Runs of the script *)

(** Every run of [m] appends events to the trace, and [Q] relates the
    outcome to the events appended. *)
Definition traces {A} (m : M A) (Q : result A -> list event -> Prop) : Prop :=
  forall w, exists evs, trace (m w).1 = trace w ++ evs /\ Q (m w).2 evs.

(** [m] appends only events that satisfy [P]. *)
Definition quiet {A} (P : event -> Prop) (m : M A) : Prop :=
  traces m (fun _ evs => Forall P evs).

Definition returned {A} (r : result A) : Prop := exists a, r = Ok a.

(** Under the projection [proj] of traces (the files opened, the engine
    calls), a run of [m] shows a prefix of [xs], and all of [xs] when
    it returns. *)
Definition yields {A B} (proj : list event -> list B) (m : M A) (xs : list B) : Prop :=
  traces m (fun r evs => proj evs `prefix_of` xs /\ (returned r -> proj evs = xs)).

(** [m] leaves every file outside [files] as it is. *)
Definition preserves {A} (files : list pystr) (m : M A) : Prop :=
  forall w p, p ∉ files -> fs (m w).1 !! p = fs w !! p.

(** When [m] returns, the world it leaves satisfies [R]. *)
Definition ensures {A} (m : M A) (R : world -> Prop) : Prop :=
  forall w, returned (m w).2 -> R (m w).1.

Definition is_removal (ev : event) : Prop :=
  match ev with EvRemove _ => True | _ => False end.

Definition open_of (ev : event) : option pystr :=
  match ev with EvOpen p => Some p | _ => None end.

Definition call_of_event (ev : event) : option (pystr * pystr * pystr) :=
  match ev with EvTranslate x s d => Some (x, s, d) | _ => None end.

(** The text [translate_and_save] hands to the engine for a segment. *)
Definition seg_text (seg : segment) : pystr :=
  match (v ← getitem seg (py "text"); strip_val v) with
  | Ok text => text
  | Raise _ => []
  end.

(** The engine calls of one fan-out over [segments]. *)
Definition fan_out_calls (src dst : pystr) (segments : list segment)
  : list (pystr * pystr * pystr) :=
  List.map (fun seg => (seg_text seg, src, dst)) segments.

Section Plan.
Context `{Collaborators} `{Config}.

(** The command of each gated stage. *)
Definition download_argv : list pystr :=
  [py "yt-dlp"; M3U8_URL; py "-o"; VIDEO_NAME; py "--no-check-certificate"].

Definition extract_argv : list pystr :=
  [FFMPEG; py "-i"; VIDEO_NAME; py "-ac"; py "1"; py "-ar"; py "16000";
   py "-vn"; py "-y"; AUDIO_NAME].

Definition stage_argv (st : gated_stage) : list pystr :=
  match st with Download => download_argv | ExtractAudio => extract_argv end.

(** The program each gated stage starts. *)
Definition stage_program (st : gated_stage) : pystr :=
  match st with Download => py "yt-dlp" | ExtractAudio => FFMPEG end.

(** The commands [main] may start, in order. *)
Definition fetch_plan : list (list pystr) :=
  download_argv :: (if SAVE_AUDIO then [extract_argv] else []).

(** An entry of [SAVE_LANGS] that step 4 of [main] acts on: the code is
    enabled and [lang_map] has a file for it. *)
Definition language_job (item : pystr * bool) : option (pystr * pystr) :=
  if item.2 then
    match lang_map_getitem item.1 with
    | Ok filename => Some (item.1, filename)
    | Raise _ => None
    end
  else None.

Definition enabled_languages : list (pystr * pystr) := omap language_job SAVE_LANGS.

(** The caption files of a complete run, in the order they are opened. *)
Definition expected_outputs : list pystr :=
  (if SAVE_ZH_SUB then [ZH_SUB] else []) ++ (if SAVE_EN_SUB then [EN_SUB] else [])
  ++ List.map snd enabled_languages.

(** The engine calls of a complete run of step 4. *)
Definition expected_calls (segments : list segment) : list (pystr * pystr * pystr) :=
  concat (List.map (fun job => fan_out_calls (py "en") job.1 segments) enabled_languages).

(** The body of the loop of step 4 of [main]. *)
Definition language_step (segments : list segment) (item : pystr * bool) : M unit :=
  let '(code, enabled) := item in
  if (enabled : bool) then
    filename ← lift (lang_map_getitem code);
    translate_and_save segments (py "en") code filename
  else mret tt.

(** Step 5 of [main]. *)
Definition cleanup : M unit :=
  if negb SAVE_AUDIO then
    present ← path_exists AUDIO_NAME;
    if (present : bool) then remove AUDIO_NAME else mret tt
  else mret tt.

(** The part of [main] after recognition: steps 2 to 5. *)
Definition main_write (segments : list segment) : M unit :=
  (if SAVE_ZH_SUB then main_save_zh segments else mret tt) ;;
  (if SAVE_EN_SUB then save_subtitles segments EN_SUB (py "text") else mret tt) ;;
  main_translate_all segments ;;
  cleanup.

(** The events of steps 2 to 5: openings of files, calls from English
    to an enabled language, and the removal of the audio file when
    [SAVE_AUDIO] is off. *)
Definition late_event (ev : event) : Prop :=
  match ev with
  | EvOpen _ => True
  | EvTranslate _ src dst => src = py "en" /\ (dst, true) ∈ SAVE_LANGS
  | EvRemove path => path = AUDIO_NAME /\ SAVE_AUDIO = false
  | _ => False
  end.

(** The end of a run's events that a removal may take: nothing, or the
    removal of the audio file, by a run with [SAVE_AUDIO] off whose
    outcome is to return. *)
Definition last_removal (r : result unit) (last : list event) : Prop :=
  last = [] \/
  (last = [EvRemove AUDIO_NAME] /\ SAVE_AUDIO = false /\ r = Ok tt).

End Plan.

(** More sample data: the rows of [spec_segments] and their translation
    by [mock_recognizing]; a segment without text; collaborators that
    cannot open any file; tools that fail and leave their output file
    behind; tools that cannot be started; settings that enable a
    language [lang_map] does not have. *)
Definition spec_rows : list (pystr * pystr * pystr) :=
  [(py "00:00:01,250", py "00:00:03,400", py "Hello world");
   (py "00:00:03,400", py "00:00:05,000", py "Next line")].

Definition spec_rows_in (code : pystr) : list (pystr * pystr * pystr) :=
  List.map (fun row => (row.1.1, row.1.2, code ++ py ":" ++ row.2)) spec_rows.

Definition untexted_segment : segment :=
  {[py "start" := PyFloat (of_int 0); py "end" := PyFloat (dyadic 3 1)]}.

Definition mock_readonly : Collaborators := {|
  subprocess_run := fun _ files => Some (files, 0);
  whisper_transcribe := fun _ _ _ _ _ => Raise (EngineError 1);
  argtr_translate := fun text _ _ => Ok text;
  can_open := fun _ _ => false
|}.

Definition mock_failing_tools : Collaborators := {|
  subprocess_run := fun argv files =>
    Some (<[output_arg argv := py "(partial)"]> files, 1);
  whisper_transcribe := fun _ _ _ _ _ => Raise (EngineError 1);
  argtr_translate := fun text _ _ => Ok text;
  can_open := fun _ _ => true
|}.

Definition mock_missing_tools : Collaborators := {|
  subprocess_run := fun _ _ => None;
  whisper_transcribe := fun _ _ _ _ _ => Raise (EngineError 1);
  argtr_translate := fun text _ _ => Ok text;
  can_open := fun _ _ => true
|}.

Definition config_with_italian : Config := {|
  PROJECT_NAME := py "my_video";
  M3U8_URL := py "https://example.com/path/to/video/playlist.m3u8";
  FFMPEG := py "/opt/homebrew/bin/ffmpeg";
  MODEL := py "large-v3";
  SAVE_AUDIO := false;
  SAVE_ZH_SUB := true;
  SAVE_EN_SUB := true;
  SAVE_LANGS := [(py "ru", true); (py "it", true)]
|}.

(** * Properties *)

#[global] Arguments py : simpl never.
#[global] Arguments strip : simpl never.
#[global] Arguments str_of_int : simpl never.
#[global] Arguments timestamp : simpl never.
#[global] Arguments nl : simpl never.

(** ** Rounding to the nearest integer *)

Lemma round_half_even_cases (n d : Z) :
  round_half_even n d = n / d \/ round_half_even n d = n / d + 1.
Proof.
  unfold round_half_even. destruct (2 * (n mod d) ?= d); [|auto..].
  destruct (Z.even (n / d)); auto.
Qed.

Lemma round_half_even_lower (n d c : Z) :
  0 < d -> c * d <= n -> c <= round_half_even n d.
Proof.
  intros Hd Hc. assert (c <= n / d) by (apply Z.div_le_lower_bound; lia).
  destruct (round_half_even_cases n d); lia.
Qed.

Lemma round_half_even_upper (n d c : Z) :
  0 < d -> n <= c * d -> round_half_even n d <= c.
Proof.
  intros Hd Hc. pose proof (Z.div_mod n d ltac:(lia)) as E.
  pose proof (Z.mod_pos_bound n d Hd) as B.
  assert (n / d <= c) by (apply Z.div_le_upper_bound; lia).
  unfold round_half_even.
  destruct (Z.eq_dec (n / d) c) as [Eq|Ne].
  - assert (n mod d = 0) by nia.
    replace (2 * (n mod d) ?= d) with Lt; [lia|].
    symmetry. apply Z.compare_lt_iff. lia.
  - destruct (2 * (n mod d) ?= d); [|lia..]. destruct (Z.even (n / d)); lia.
Qed.

Lemma round_half_even_exact (c d : Z) : 0 < d -> round_half_even (c * d) d = c.
Proof.
  intros Hd. apply Z.le_antisymm.
  - apply round_half_even_upper; lia.
  - apply round_half_even_lower; lia.
Qed.

(** The result is within half a unit of the exact quotient. *)
Lemma round_half_even_near (n d : Z) :
  0 < d ->
  (2 * round_half_even n d - 1) * d <= 2 * n <= (2 * round_half_even n d + 1) * d.
Proof.
  intros Hd. pose proof (Z.div_mod n d ltac:(lia)) as E.
  pose proof (Z.mod_pos_bound n d Hd) as B.
  unfold round_half_even.
  set (q := n / d) in *. set (r := n mod d) in *. clearbody q r. subst n.
  destruct (Z.compare_spec (2 * r) d); try destruct (Z.even q); nia.
Qed.

Lemma round_half_even_mono (n1 n2 d : Z) :
  0 < d -> n1 <= n2 -> round_half_even n1 d <= round_half_even n2 d.
Proof.
  intros Hd Hn.
  destruct (Z.eq_dec n1 n2) as [->|Ne]; [lia|].
  assert (n1 / d <= n2 / d) by (apply Z.div_le_mono; lia).
  destruct (Z.eq_dec (n1 / d) (n2 / d)) as [Eq|Nq].
  - pose proof (Z.div_mod n1 d ltac:(lia)). pose proof (Z.div_mod n2 d ltac:(lia)).
    assert (n1 mod d < n2 mod d) by nia.
    unfold round_half_even. rewrite Eq.
    destruct (Z.compare_spec (2 * (n1 mod d)) d),
      (Z.compare_spec (2 * (n2 mod d)) d);
      try destruct (Z.even (n2 / d)); lia.
  - destruct (round_half_even_cases n1 d), (round_half_even_cases n2 d); lia.
Qed.

Lemma round_half_even_opp (n d : Z) :
  0 < d -> round_half_even (- n) d = - round_half_even n d.
Proof.
  intros Hd. pose proof (Z.div_mod n d ltac:(lia)) as E.
  pose proof (Z.mod_pos_bound n d Hd) as B.
  destruct (Z.eq_dec (n mod d) 0) as [Z0|NZ].
  - replace n with (n / d * d) at 1 2 by lia.
    replace (- (n / d * d)) with (- (n / d) * d) by lia.
    now rewrite !round_half_even_exact.
  - assert (Eq : (- n) / d = - (n / d) - 1).
    { symmetry. apply (Z.div_unique _ _ _ (d - n mod d)); lia. }
    assert (Er : (- n) mod d = d - n mod d).
    { symmetry. apply (Z.mod_unique _ _ (- (n / d) - 1)); lia. }
    unfold round_half_even. rewrite Eq, Er.
    assert (Ev : Z.even (- (n / d) - 1) = negb (Z.even (n / d))).
    { replace (- (n / d) - 1) with (- (n / d + 1)) by lia.
      rewrite Z.even_opp, Z.even_add. now destruct (Z.even (n / d)). }
    rewrite Ev.
    destruct (Z.compare_spec (2 * (n mod d)) d),
      (Z.compare_spec (2 * (d - n mod d)) d);
      try lia; destruct (Z.even (n / d)); cbn; lia.
Qed.

(** ** Rounding to binary64 *)

Lemma one_pos : 0 < one.
Proof. reflexivity. Qed.

Lemma bits_abs (z : Z) : bits (Z.abs z) = bits z.
Proof.
  unfold bits. rewrite Z.abs_idemp.
  destruct (Z.eqb_spec z 0) as [->|Hz]; [reflexivity|].
  destruct (Z.eqb_spec (Z.abs z) 0); [lia|reflexivity].
Qed.

Lemma bits_nonneg (z : Z) : 0 <= bits z.
Proof.
  unfold bits. destruct (z =? 0); [lia|]. pose proof (Z.log2_nonneg (Z.abs z)). lia.
Qed.

Lemma bits_upper (z : Z) : 0 <= z -> z < 2 ^ bits z.
Proof.
  intros Hz. unfold bits. destruct (Z.eqb_spec z 0) as [->|Hn]; [reflexivity|].
  rewrite Z.abs_eq by lia. apply Z.log2_spec. lia.
Qed.

Lemma bits_lower (z : Z) : 0 < z -> 2 ^ (bits z - 1) <= z.
Proof.
  intros Hz. unfold bits. destruct (Z.eqb_spec z 0); [lia|].
  rewrite Z.abs_eq by lia. replace (Z.log2 z + 1 - 1) with (Z.log2 z) by lia.
  apply Z.log2_spec. lia.
Qed.

Lemma bits_mono (a b : Z) : 0 <= a <= b -> bits a <= bits b.
Proof.
  intros H. unfold bits.
  destruct (Z.eqb_spec a 0) as [->|Ha], (Z.eqb_spec b 0) as [->|Hb]; try lia.
  - pose proof (Z.log2_nonneg (Z.abs b)). lia.
  - rewrite !Z.abs_eq by lia. pose proof (Z.log2_le_mono a b). lia.
Qed.

Lemma ulp_shift_nonneg (q : Z) : 0 <= ulp_shift q.
Proof. unfold ulp_shift. lia. Qed.

Lemma ulp_shift_mono (a b : Z) : 0 <= a <= b -> ulp_shift a <= ulp_shift b.
Proof. intros H. unfold ulp_shift. pose proof (bits_mono a b H). lia. Qed.

Lemma ulp_shift_abs (z : Z) : ulp_shift (Z.abs z) = ulp_shift z.
Proof. unfold ulp_shift. now rewrite bits_abs. Qed.

Lemma pow2_pos (s : Z) : 0 <= s -> 0 < 2 ^ s.
Proof. intros. apply Z.pow_pos_nonneg; lia. Qed.

Lemma pow2_divide (s t : Z) : 0 <= s <= t -> (2 ^ s | 2 ^ t).
Proof.
  intros H. exists (2 ^ (t - s)). rewrite <- Z.pow_add_r by lia. f_equal. lia.
Qed.

(** A binary64 is a multiple of every power of two up to its last place. *)
Lemma is_double_multiple (b s : Z) :
  is_double b = true -> 0 <= s <= ulp_shift b -> exists c, b = c * 2 ^ s.
Proof.
  unfold is_double. intros [_ Hm]%andb_prop Hs. apply Z.eqb_eq in Hm.
  apply Z.mod_divide in Hm; [|pose proof (pow2_pos (ulp_shift b)); lia].
  destruct (Z.divide_trans _ _ _ (pow2_divide s (ulp_shift b) Hs) Hm) as [c E].
  now exists c.
Qed.

Lemma is_double_range (b : Z) : is_double b = true -> Z.abs b < overflow_threshold.
Proof. unfold is_double. intros [Hr _]%andb_prop. now apply Z.ltb_lt. Qed.

(** Rounding a non-negative value does not pass a binary64 above it. *)
Lemma round64_le (n d b : Z) :
  0 < d -> 0 <= n <= b * d -> is_double b = true ->
  exists k, round64 n d = Fin k /\ 0 <= k <= b.
Proof.
  intros Hd Hn Hb. unfold round64. rewrite (Z.abs_eq n) by lia.
  assert (Hb0 : 0 <= b) by nia.
  assert (Hq : 0 <= n / d <= b).
  { split; [apply Z.div_pos; lia | apply Z.div_le_upper_bound; lia]. }
  set (s := ulp_shift (n / d)).
  assert (Hs : 0 <= s <= ulp_shift b)
    by (split; [apply ulp_shift_nonneg | apply ulp_shift_mono, Hq]).
  destruct (is_double_multiple b s Hb Hs) as [c Ec].
  pose proof (pow2_pos s (proj1 Hs)) as Hp.
  assert (Hm : 0 <= round_half_even n (d * 2 ^ s) <= c).
  { split; [apply round_half_even_lower | apply round_half_even_upper]; nia. }
  set (m := round_half_even n (d * 2 ^ s)) in *.
  assert (Hk : 0 <= m * 2 ^ s <= b) by nia.
  pose proof (is_double_range b Hb) as Hr.
  destruct (Z.leb_spec overflow_threshold (Z.abs (m * 2 ^ s))); [lia|].
  eauto.
Qed.

(** Rounding a binary64 gives it back. *)
Lemma round64_exact (k d : Z) :
  0 < d -> is_double k = true -> round64 (k * d) d = Fin k.
Proof.
  intros Hd Hk. unfold round64.
  rewrite (Z.abs_mul k d), (Z.abs_eq d), Z.div_mul, ulp_shift_abs by lia.
  destruct (is_double_multiple k (ulp_shift k) Hk) as [c Ec];
    [pose proof (ulp_shift_nonneg k); lia|].
  pose proof (pow2_pos _ (ulp_shift_nonneg k)) as Hp.
  replace (k * d) with (c * (d * 2 ^ ulp_shift k)) by (rewrite Ec at 2; ring).
  rewrite round_half_even_exact, <- Ec by lia.
  pose proof (is_double_range k Hk).
  destruct (Z.leb_spec overflow_threshold (Z.abs k)); [lia|reflexivity].
Qed.

(** Rounding a non-negative value does not pass a binary64 below it. *)
Lemma round64_ge (n d lo k : Z) :
  0 < d -> 0 <= lo -> lo * d <= n -> is_double lo = true ->
  round64 n d = Fin k -> lo <= k.
Proof.
  intros Hd Hlo Hn Hdb. unfold round64.
  assert (Hn0 : 0 <= n) by nia. rewrite (Z.abs_eq n) by lia.
  assert (Hq : 0 <= lo <= n / d)
    by (split; [lia | apply Z.div_le_lower_bound; lia]).
  set (s := ulp_shift (n / d)).
  pose proof (ulp_shift_nonneg (n / d)) as Hs0. fold s in Hs0.
  pose proof (ulp_shift_mono lo (n / d) Hq) as Hs. fold s in Hs.
  pose proof (pow2_pos s Hs0) as Hp.
  destruct (overflow_threshold <=? _); [discriminate|]. intros [= <-].
  destruct (Z.eq_dec s (ulp_shift lo)) as [Es|Ns].
  - destruct (is_double_multiple lo s Hdb) as [c Ec]; [lia|].
    assert (c <= round_half_even n (d * 2 ^ s))
      by (apply round_half_even_lower; nia).
    nia.
  - assert (Hbits : bits lo < bits (n / d))
      by (unfold s, ulp_shift in Hs, Ns, Hs0; lia).
    assert (Hs53 : s = bits (n / d) - 53)
      by (unfold s, ulp_shift in *; lia).
    assert (Hq0 : 0 < n / d).
    { destruct (Z.eq_dec (n / d) 0) as [E0|]; [|lia].
      rewrite E0 in Hbits. pose proof (bits_nonneg lo). cbn in Hbits. lia. }
    pose proof (bits_lower (n / d) Hq0) as Hl.
    replace (bits (n / d) - 1) with (52 + s) in Hl by lia.
    rewrite Z.pow_add_r in Hl by lia.
    assert (2 ^ 52 <= round_half_even n (d * 2 ^ s)).
    { apply round_half_even_lower; [nia|].
      pose proof (Z.mul_div_le n d Hd). nia. }
    pose proof (bits_upper lo Hlo) as Hu.
    assert (2 ^ bits lo <= 2 ^ (bits (n / d) - 1))
      by (apply Z.pow_le_mono_r; lia).
    replace (bits (n / d) - 1) with (52 + s) in * by lia.
    rewrite Z.pow_add_r in * by lia. nia.
Qed.

Lemma round64_opp (n d : Z) : 0 < d -> round64 (- n) d = fneg (round64 n d).
Proof.
  intros Hd. unfold round64. rewrite Z.abs_opp.
  set (s := ulp_shift (Z.abs n / d)).
  pose proof (pow2_pos s (ulp_shift_nonneg _)) as Hp.
  rewrite round_half_even_opp by lia.
  set (m := round_half_even n (d * 2 ^ s)).
  replace (- m * 2 ^ s) with (- (m * 2 ^ s)) by ring. rewrite Z.abs_opp.
  destruct (Z.leb_spec overflow_threshold (Z.abs (m * 2 ^ s))) as [Ho|Ho].
  - cbn. f_equal. assert (0 < overflow_threshold) by reflexivity.
    destruct (Z.ltb_spec (- (m * 2 ^ s)) 0), (Z.ltb_spec (m * 2 ^ s) 0);
      cbn; try reflexivity; lia.
  - reflexivity.
Qed.

(** Rounding keeps a value between the binary64 numbers around it. *)
Lemma round64_between (n d lo hi : Z) :
  0 < d -> 0 <= lo -> lo * d <= n <= hi * d ->
  is_double lo = true -> is_double hi = true ->
  exists k, round64 n d = Fin k /\ lo <= k <= hi.
Proof.
  intros Hd Hlo Hn Dlo Dhi.
  destruct (round64_le n d hi Hd) as (k & E & Hk); [nia|exact Dhi|].
  exists k. split; [exact E|]. split; [|lia].
  eapply round64_ge; eauto; lia.
Qed.

Lemma round64_between_neg (n d lo hi : Z) :
  0 < d -> 0 <= lo -> - hi * d <= n <= - lo * d ->
  is_double lo = true -> is_double hi = true ->
  exists k, round64 n d = Fin k /\ - hi <= k <= - lo.
Proof.
  intros Hd Hlo Hn Dlo Dhi.
  destruct (round64_between (- n) d lo hi) as (k & E & Hk); [lia..|assumption|assumption|].
  exists (- k). split; [|lia].
  replace n with (- - n) by lia. now rewrite round64_opp, E.
Qed.

(** The integers of magnitude below [2^53] are binary64 numbers. *)
Lemma is_double_int (c : Z) : Z.abs c < 2 ^ 53 -> is_double (c * one) = true.
Proof.
  intros Hc. unfold is_double. apply andb_true_intro. split.
  - apply Z.ltb_lt. rewrite Z.abs_mul, (Z.abs_eq one) by (pose proof one_pos; lia).
    assert (2 ^ 53 * one <= overflow_threshold) by (vm_compute; discriminate).
    pose proof one_pos. nia.
  - apply Z.eqb_eq. apply Z.mod_divide;
      [pose proof (pow2_pos _ (ulp_shift_nonneg (c * one))); lia|].
    apply Z.divide_mul_r. unfold one. apply pow2_divide.
    split; [apply ulp_shift_nonneg|]. unfold ulp_shift, bits.
    destruct (Z.eqb_spec (c * 2 ^ 1074) 0) as [|Hn]; [lia|].
    assert (Hc0 : 0 < Z.abs c) by (destruct (Z.eq_dec c 0); [subst; lia | lia]).
    rewrite Z.abs_mul, (Z.abs_eq (2 ^ 1074)) by (apply Z.pow_nonneg; lia).
    rewrite Z.log2_mul_pow2 by lia.
    assert (Z.log2 (Z.abs c) < 53) by (apply Z.log2_lt_pow2; lia). lia.
Qed.

(** ** Floor division and remainder *)

Lemma is_double_max_finite : is_double max_finite = true.
Proof. vm_compute. reflexivity. Qed.

Lemma is_double_half_range : is_double half_range = true.
Proof. vm_compute. reflexivity. Qed.

Lemma is_double_one : is_double one = true.
Proof. vm_compute. reflexivity. Qed.

Lemma is_double_zero : is_double 0 = true.
Proof. vm_compute. reflexivity. Qed.

Lemma range_facts :
  2 * half_range <= overflow_threshold /\ max_finite < 2 * half_range /\
  half_range + 2 * one <= max_finite /\ 2 ^ 53 * one <= half_range /\
  0 < one / 2 < one /\ 2 * (one / 2) = one.
Proof. vm_compute. repeat split; discriminate. Qed.

Lemma fadd_fin (a b : Z) : fadd (Fin a) (Fin b) = round64 (a + b) 1.
Proof. reflexivity. Qed.

Lemma fsub_fin (a b : Z) : fsub (Fin a) (Fin b) = round64 (a - b) 1.
Proof. reflexivity. Qed.

Lemma fdiv_fin_pos (a b : Z) : 0 < b -> fdiv (Fin a) (Fin b) = round64 (a * one) b.
Proof.
  intros Hb. unfold fdiv. destruct (Z.eqb_spec b 0); [lia|].
  rewrite Z.sgn_pos, Z.abs_eq by lia. f_equal. lia.
Qed.

Lemma round64_int_exact (k : Z) : is_double k = true -> round64 k 1 = Fin k.
Proof.
  intros Hk. rewrite <- (Z.mul_1_r k) at 1. apply round64_exact; [lia|exact Hk].
Qed.

(** Snapping a non-negative quotient. *)
Lemma snap_quotient_nonneg (d0 : Z) :
  0 <= d0 <= half_range ->
  exists q, snap_quotient (Fin d0) = Fin q /\ 0 <= q /\
            (d0 mod one = 0 -> q = d0).
Proof.
  intros Hd. pose proof one_pos as H1. pose proof range_facts as (R1 & R2 & R3 & R4 & R5 & R6).
  unfold snap_quotient, nonzero. destruct (Z.eqb_spec d0 0) as [->|Hn]; cbn [negb].
  - exists 0. repeat split; lia.
  - cbn [floor]. rewrite fsub_fin, fadd_fin.
    pose proof (Z.div_mod d0 one ltac:(lia)) as E.
    pose proof (Z.mod_pos_bound d0 one H1) as B.
    assert (Hf : 0 <= d0 / one * one <= d0).
    { pose proof (Z.div_pos d0 one ltac:(lia) H1).
      pose proof (Z.mul_div_le d0 one H1). split; [apply Z.mul_nonneg_nonneg|]; lia. }
    destruct (round64_le (d0 - d0 / one * one) 1 one) as (y & Ey & Hy);
      [lia|nia|apply is_double_one|].
    rewrite Ey. cbn [flt].
    destruct (round64_le (d0 / one * one + one) 1 max_finite) as (z & Ez & Hz);
      [lia|lia|apply is_double_max_finite|].
    rewrite Ez.
    destruct (Z.ltb_spec (one / 2) y) as [Hlt|Hge].
    + exists z. split; [reflexivity|]. split; [lia|]. intros Hm.
      replace (d0 - d0 / one * one) with 0 in Ey by lia.
      rewrite (round64_int_exact 0 is_double_zero) in Ey. injection Ey as <-. lia.
    + exists (d0 / one * one). split; [reflexivity|]. split; [lia|]. lia.
Qed.

(** [divmod] of a non-negative float by an integer constant. *)
Lemma float_div_mod_nonneg (a w : Z) :
  0 <= a <= max_finite -> 2 <= w < 2 ^ 53 ->
  exists q,
    float_div_mod (Fin a) (of_int w) = (Fin q, Fin (a mod (w * one))) /\
    0 <= q /\
    (w * (a / (w * one)) < 2 ^ 53 -> q = a / (w * one) * one).
Proof.
  intros Ha Hw. pose proof one_pos as H1.
  pose proof range_facts as (R1 & R2 & R3 & R4 & R5 & R6).
  assert (HW : 0 < w * one) by nia.
  unfold float_div_mod, of_int, fmod.
  destruct (Z.eqb_spec (w * one) 0); [lia|].
  rewrite Z.rem_mod_nonneg by lia.
  pose proof (Z.div_mod a (w * one) ltac:(lia)) as E.
  pose proof (Z.mod_pos_bound a (w * one) HW) as B.
  assert (HQ : 0 <= a / (w * one)) by (apply Z.div_pos; lia).
  set (Q := a / (w * one)) in *. set (r := a mod (w * one)) in *.
  (* vx - mod *)
  rewrite fsub_fin.
  destruct (round64_le (a - r) 1 max_finite) as (x & Ex & Hx);
    [lia|lia|apply is_double_max_finite|].
  assert (Hx' : w * Q < 2 ^ 53 -> x = w * Q * one).
  { intros HQs. rewrite round64_int_exact in Ex.
    - injection Ex as <-. lia.
    - replace (a - r) with (w * Q * one) by lia. apply is_double_int. lia. }
  rewrite Ex.
  (* / wx *)
  rewrite fdiv_fin_pos by lia.
  destruct (round64_le (x * one) (w * one) half_range) as (d0 & Ed & Hd);
    [lia|nia|apply is_double_half_range|].
  assert (Hd' : w * Q < 2 ^ 53 -> d0 = Q * one).
  { intros HQs. rewrite (Hx' HQs) in Ed.
    replace (w * Q * one * one) with (Q * one * (w * one)) in Ed by ring.
    rewrite round64_exact in Ed; [congruence|lia|apply is_double_int; nia]. }
  rewrite Ed.
  (* sign of the remainder *)
  assert (Hmd : (if nonzero (Fin r)
                 then if negb (Bool.eqb (flt (Fin (w * one)) (Fin 0)) (flt (Fin r) (Fin 0)))
                      then (fadd (Fin r) (Fin (w * one)), fsub (Fin d0) (Fin one))
                      else (Fin r, Fin d0)
                 else (Fin 0, Fin d0)) = (Fin r, Fin d0)).
  { cbn [nonzero flt]. destruct (Z.eqb_spec r 0) as [->|]; [reflexivity|]. cbn [negb].
    destruct (Z.ltb_spec (w * one) 0), (Z.ltb_spec r 0); try lia. reflexivity. }
  rewrite Hmd.
  destruct (snap_quotient_nonneg d0) as (q & Eq & Hq & Hq'); [lia|].
  rewrite Eq. exists q. split; [reflexivity|]. split; [exact Hq|].
  intros HQs. rewrite <- (Hd' HQs). apply Hq'. rewrite (Hd' HQs).
  apply Z.mod_mul. lia.
Qed.

(** Snapping a quotient at or below [-1.0]. *)
Lemma snap_quotient_neg (d1 : Z) :
  - max_finite <= d1 <= - one ->
  exists q, snap_quotient (Fin d1) = Fin q /\ q <= - one.
Proof.
  intros Hd. pose proof one_pos as H1.
  pose proof range_facts as (R1 & R2 & R3 & R4 & R5 & R6).
  unfold snap_quotient, nonzero. destruct (Z.eqb_spec d1 0) as [|Hn]; [lia|]. cbn [negb].
  cbn [floor]. rewrite fsub_fin, fadd_fin.
  pose proof (Z.div_mod d1 one ltac:(lia)) as E.
  pose proof (Z.mod_pos_bound d1 one H1) as B.
  assert (Ef : d1 / one * one = d1 - d1 mod one) by lia.
  destruct (round64_le (d1 - d1 / one * one) 1 one) as (y & Ey & Hy);
    [lia|lia|apply is_double_one|].
  rewrite Ey. cbn [flt].
  destruct (Z.ltb_spec (one / 2) y) as [Hlt|Hge].
  - assert (Hm : d1 mod one <> 0).
    { intros Hm. replace (d1 - d1 / one * one) with 0 in Ey by lia.
      rewrite (round64_int_exact 0 is_double_zero) in Ey. injection Ey as <-. lia. }
    assert (Hq : d1 / one <= -2).
    { assert (d1 <> - one).
      { intros ->. apply Hm, Z.mod_divide; [lia|]. exists (-1). lia. }
      assert (d1 / one < -1); [|lia]. apply Z.div_lt_upper_bound; lia. }
    destruct (round64_between_neg (d1 / one * one + one) 1 one max_finite)
      as (z & Ez & Hz);
      [lia|lia|nia|apply is_double_one|apply is_double_max_finite|].
    rewrite Ez. exists z. split; [reflexivity|lia].
  - exists (d1 / one * one). split; [reflexivity|lia].
Qed.

(** [divmod] of a negative float by an integer constant: the quotient is
    at most [-1.0], the remainder lies between [0] and the divisor
    (which it can reach, by rounding). *)
Lemma float_div_mod_neg (a w : Z) :
  - max_finite <= a < 0 -> 2 <= w < 2 ^ 53 ->
  exists q md,
    float_div_mod (Fin a) (of_int w) = (Fin q, Fin md) /\
    q <= - one /\ 0 <= md <= w * one.
Proof.
  intros Ha Hw. pose proof one_pos as H1.
  pose proof range_facts as (R1 & R2 & R3 & R4 & R5 & R6).
  assert (HW : 0 < w * one) by nia.
  assert (DW : is_double (w * one) = true) by (apply is_double_int; lia).
  unfold float_div_mod, of_int, fmod.
  destruct (Z.eqb_spec (w * one) 0); [lia|].
  pose proof (Z.quot_rem' a (w * one)) as E.
  pose proof (Z.rem_bound_pos_neg a (w * one) HW ltac:(lia)) as B.
  pose proof (Z.mul_quot_ge a (w * one) ltac:(lia) ltac:(lia)) as Hquot.
  set (r0 := Z.rem a (w * one)) in *.
  rewrite fsub_fin.
  destruct (Z.eq_dec r0 0) as [Hr|Hr].
  - (* an exact multiple of the divisor *)
    assert (Ha' : a <= - (w * one)).
    { assert (a ÷ (w * one) <= -1); [|nia].
      destruct (Z.eq_dec (a ÷ (w * one)) 0) as [E0|]; [rewrite E0 in E; lia|].
      assert (a ÷ (w * one) <= 0); [|lia].
      apply Z.quot_le_upper_bound; lia. }
    destruct (round64_between_neg (a - r0) 1 (w * one) max_finite) as (x & Ex & Hx);
      [lia|lia|lia|exact DW|apply is_double_max_finite|].
    rewrite Ex, fdiv_fin_pos by lia.
    assert (Hx1 : x * one <= - one * (w * one)) by nia.
    assert (Hx2 : - half_range * (w * one) <= x * one).
    { assert (0 <= half_range * w + x) by nia. nia. }
    destruct (round64_between_neg (x * one) (w * one) one half_range)
      as (d0 & Ed & Hd);
      [lia|lia|lia|apply is_double_one|apply is_double_half_range|].
    rewrite Ed. rewrite Hr. cbn [nonzero Z.eqb negb].
    destruct (snap_quotient_neg d0) as (q & Eq & Hq); [lia|].
    rewrite Eq. exists q, 0. split; [reflexivity|]. lia.
  - destruct (round64_between_neg (a - r0) 1 0 max_finite) as (x & Ex & Hx);
      [lia|lia|lia|apply is_double_zero|apply is_double_max_finite|].
    rewrite Ex, fdiv_fin_pos by lia.
    assert (Hx1 : x * one <= - 0 * (w * one)) by nia.
    assert (Hx2 : - half_range * (w * one) <= x * one).
    { assert (0 <= half_range * w + x) by nia. nia. }
    destruct (round64_between_neg (x * one) (w * one) 0 half_range)
      as (d0 & Ed & Hd);
      [lia|lia|lia|apply is_double_zero|apply is_double_half_range|].
    rewrite Ed. cbn [nonzero flt].
    destruct (Z.eqb_spec r0 0); [lia|]. cbn [negb].
    destruct (Z.ltb_spec (w * one) 0); [lia|].
    destruct (Z.ltb_spec r0 0); [|lia]. cbn [Bool.eqb negb].
    rewrite fadd_fin, fsub_fin.
    destruct (round64_le (r0 + w * one) 1 (w * one)) as (md & Em & Hm);
      [lia|lia|exact DW|].
    destruct (round64_between_neg (d0 - one) 1 one max_finite) as (d1 & E1 & Hd1);
      [lia|lia|lia|apply is_double_one|apply is_double_max_finite|].
    rewrite Em, E1.
    destruct (snap_quotient_neg d1) as (q & Eq & Hq); [lia|].
    rewrite Eq. exists q, md. split; [reflexivity|]. lia.
Qed.

(** ** Decimal numerals *)

Lemma digit_char_is_digit (n : Z) : is_digit (digit_char (n mod 10)) = true.
Proof.
  pose proof (Z.mod_pos_bound n 10 ltac:(lia)). unfold is_digit, digit_char.
  apply andb_true_intro. split; apply N.leb_le; lia.
Qed.

Lemma digit_value_digit_char (n : Z) :
  digit_value (digit_char (n mod 10)) = Some (n mod 10).
Proof.
  unfold digit_value. rewrite digit_char_is_digit.
  pose proof (Z.mod_pos_bound n 10 ltac:(lia)). unfold digit_char. f_equal. lia.
Qed.

Lemma digit_char_inj (a b : Z) :
  digit_char (a mod 10) = digit_char (b mod 10) -> a mod 10 = b mod 10.
Proof.
  pose proof (Z.mod_pos_bound a 10 ltac:(lia)).
  pose proof (Z.mod_pos_bound b 10 ltac:(lia)). unfold digit_char. lia.
Qed.

Lemma fixed_digits_length (w : nat) (n : Z) : length (fixed_digits w n) = w.
Proof.
  revert n. induction w as [|w IH]; intros n; cbn; [reflexivity|].
  rewrite length_app, IH. cbn. lia.
Qed.

Lemma fixed_digits_digits (w : nat) (n : Z) :
  Forall (fun c => is_digit c = true) (fixed_digits w n).
Proof.
  revert n. induction w as [|w IH]; intros n; cbn; [constructor|].
  apply Forall_app. split; [apply IH|]. repeat constructor. apply digit_char_is_digit.
Qed.

Lemma replace_char_app (old new : N) (s t : pystr) :
  replace_char old new (s ++ t) = replace_char old new s ++ replace_char old new t.
Proof. apply List.map_app. Qed.

Lemma replace_char_digits (s : pystr) :
  Forall (fun c => is_digit c = true) s -> replace_char 46 44 s = s.
Proof.
  unfold replace_char.
  induction 1 as [|c s Hc _ IH]; [reflexivity|]. cbn [List.map]. rewrite IH. f_equal.
  unfold is_digit in Hc. apply andb_prop in Hc as [H1 H2].
  apply N.leb_le in H1, H2. destruct (N.eqb_spec c 46); [lia|reflexivity].
Qed.

Lemma ndigits_aux_spec (fuel : nat) (n : Z) :
  0 < n < 2 ^ Z.of_nat fuel ->
  10 ^ (Z.of_nat (ndigits_aux fuel n) - 1) <= n < 10 ^ Z.of_nat (ndigits_aux fuel n).
Proof.
  revert n. induction fuel as [|fuel IH]; intros n Hn.
  - cbn in Hn. lia.
  - cbn [ndigits_aux]. destruct (Z.leb_spec n 0); [lia|].
    rewrite Nat2Z.inj_succ in *. rewrite Z.pow_succ_r in Hn by lia.
    destruct (Z.eq_dec (n / 10) 0) as [E0|N0].
    + assert (n < 10) by (apply Z.div_small_iff in E0; lia).
      rewrite E0. replace (ndigits_aux fuel 0) with O by (destruct fuel; reflexivity).
      cbn. lia.
    + pose proof (Z.div_pos n 10 ltac:(lia) ltac:(lia)).
      assert (n / 10 < 2 ^ Z.of_nat fuel)
        by (apply Z.div_lt_upper_bound; lia).
      specialize (IH (n / 10) ltac:(lia)).
      set (d := ndigits_aux fuel (n / 10)) in *.
      assert (0 < Z.of_nat d).
      { destruct d; [|lia]. cbn in IH. lia. }
      replace (Z.succ (Z.of_nat d) - 1) with (Z.succ (Z.of_nat d - 1)) by lia.
      rewrite !Z.pow_succ_r by lia.
      pose proof (Z.div_mod n 10 ltac:(lia)). pose proof (Z.mod_pos_bound n 10 ltac:(lia)).
      lia.
Qed.

Lemma ndigits_spec (n : Z) :
  0 < n -> 10 ^ (Z.of_nat (ndigits n) - 1) <= n < 10 ^ Z.of_nat (ndigits n).
Proof.
  intros Hn. apply ndigits_aux_spec. split; [exact Hn|].
  rewrite Nat2Z.inj_succ, Z2Nat.id by apply Z.log2_nonneg.
  apply Z.log2_spec, Hn.
Qed.

Lemma ndigits_zero (n : Z) : n <= 0 -> ndigits n = O.
Proof. intros Hn. unfold ndigits. cbn. destruct (Z.leb_spec n 0); [reflexivity|lia]. Qed.

Lemma ndigits_le (n : Z) (w : nat) : n < 10 ^ Z.of_nat w -> (ndigits n <= w)%nat.
Proof.
  intros Hn. destruct (Z.leb_spec n 0) as [H0|H0]; [rewrite ndigits_zero; lia|].
  pose proof (ndigits_spec n H0) as [Hl _].
  assert (Z.of_nat (ndigits n) - 1 < Z.of_nat w); [|lia].
  apply (Z.pow_lt_mono_r_iff 10); lia.
Qed.

Lemma ndigits_mono (a b : Z) : a <= b -> (ndigits a <= ndigits b)%nat.
Proof.
  intros Hab. destruct (Z.leb_spec a 0) as [H0|H0]; [rewrite ndigits_zero; lia|].
  apply ndigits_le. pose proof (ndigits_spec b ltac:(lia)). lia.
Qed.

Lemma zero_padded_length (w : nat) (n : Z) :
  length (zero_padded w n) = Nat.max w (ndigits n).
Proof. apply fixed_digits_length. Qed.

Lemma zero_padded_fixed (w : nat) (n : Z) :
  n < 10 ^ Z.of_nat w -> zero_padded w n = fixed_digits w n.
Proof.
  intros Hn. unfold zero_padded. pose proof (ndigits_le n w Hn). f_equal. lia.
Qed.

Lemma zero_padded_bound (w : nat) (n : Z) :
  n < 10 ^ Z.of_nat (Nat.max w (ndigits n)).
Proof.
  destruct (Z.leb_spec n 0) as [H0|H0].
  - assert (0 < 10 ^ Z.of_nat (Nat.max w (ndigits n))) by (apply Z.pow_pos_nonneg; lia).
    lia.
  - pose proof (ndigits_spec n H0) as [_ Hu].
    eapply Z.lt_le_trans; [exact Hu|]. apply Z.pow_le_mono_r; lia.
Qed.

(** ** The numeral of an index *)

Lemma ndigits_step (n : Z) : 0 < n -> ndigits n = S (ndigits (n / 10)).
Proof.
  intros Hn. pose proof (ndigits_spec n Hn) as [Hl Hu].
  pose proof (Z.div_mod n 10 ltac:(lia)) as D.
  pose proof (Z.mod_pos_bound n 10 ltac:(lia)) as B.
  assert (Hup : (ndigits n <= S (ndigits (n / 10)))%nat).
  { apply ndigits_le. rewrite Nat2Z.inj_succ, Z.pow_succ_r by lia.
    pose proof (zero_padded_bound 0 (n / 10)) as Hb. cbn [Nat.max] in Hb.
    lia. }
  assert (Hlo : (S (ndigits (n / 10)) <= ndigits n)%nat); [|lia].
  destruct (Z.leb_spec (n / 10) 0) as [H0|H0].
  - rewrite (ndigits_zero _ H0).
    assert (ndigits n <> 0%nat) by (intros E; rewrite E in Hu; cbn in Hu; lia). lia.
  - pose proof (ndigits_spec (n / 10) H0) as [Hl' Hu'].
    assert (Hd : ndigits (n / 10) <> 0%nat)
      by (intros E; rewrite E in Hu'; cbn in Hu'; lia).
    clear Hu'.
    assert (Z.of_nat (ndigits (n / 10)) < Z.of_nat (ndigits n)); [|lia].
    apply (Z.pow_lt_mono_r_iff 10); [lia|lia|].
    replace (Z.of_nat (ndigits (n / 10))) with (Z.succ (Z.of_nat (ndigits (n / 10)) - 1))
      by lia.
    rewrite Z.pow_succ_r by lia.
    assert (H10 : 10 * (n / 10) <= n) by lia.
    revert Hl' Hu H10.
    generalize (10 ^ (Z.of_nat (ndigits (n / 10)) - 1)) (10 ^ Z.of_nat (ndigits n))
      (n / 10).
    intros; lia.
Qed.

Lemma numeral_digits_step (fuel : nat) (n : Z) (acc : pystr) :
  numeral_digits (S fuel) n acc
  = if n <? 10 then (48 + Z.to_N (n mod 10))%N :: acc
    else numeral_digits fuel (n / 10) ((48 + Z.to_N (n mod 10))%N :: acc).
Proof. reflexivity. Qed.

Lemma numeral_digits_padded (fuel : nat) :
  forall n acc, 0 <= n < 10 ^ Z.of_nat (S fuel) ->
  numeral_digits (S fuel) n acc = zero_padded 1 n ++ acc.
Proof.
  induction fuel as [|fuel IH]; intros n acc Hn;
    rewrite numeral_digits_step; destruct (Z.ltb_spec n 10) as [Hs|Hb];
    try (rewrite zero_padded_fixed by (change (10 ^ Z.of_nat 1) with 10; lia);
         reflexivity).
  rewrite Nat2Z.inj_succ, Z.pow_succ_r in Hn by lia.
  rewrite IH by (split; [apply Z.div_pos; lia|apply Z.div_lt_upper_bound; lia]).
  unfold zero_padded. rewrite (ndigits_step n) by lia.
  assert (ndigits (n / 10) <> 0%nat).
  { assert (0 < n / 10) by (apply Z.div_str_pos; lia).
    pose proof (ndigits_spec (n / 10) ltac:(lia)) as [_ Hu].
    intros E; rewrite E in Hu; cbn in Hu; lia. }
  replace (Nat.max 1 (S (ndigits (n / 10)))) with (S (ndigits (n / 10))) by lia.
  replace (Nat.max 1 (ndigits (n / 10))) with (ndigits (n / 10)) by lia.
  cbn [fixed_digits]. rewrite <- app_assoc. reflexivity.
Qed.

Lemma log2_fuel (n : Z) : 0 <= n -> n < 10 ^ Z.of_nat (S (Z.to_nat (Z.log2 n))).
Proof.
  intros Hn. rewrite Nat2Z.inj_succ, Z2Nat.id by apply Z.log2_nonneg.
  destruct (Z.eq_dec n 0) as [->|Hz]; [reflexivity|].
  pose proof (Z.log2_spec n ltac:(lia)) as [_ Hu].
  pose proof (Z.log2_nonneg n).
  assert (2 ^ Z.succ (Z.log2 n) <= 10 ^ Z.succ (Z.log2 n))
    by (apply Z.pow_le_mono_l; lia).
  lia.
Qed.

(** [str] writes an integer as one does by hand. *)
Lemma str_of_int_numeral (z : Z) : str_of_int z = numeral z.
Proof.
  unfold str_of_int, format_int, numeral. destruct (Z.ltb_spec z 0) as [Hneg|Hpos].
  - rewrite numeral_digits_padded by (split; [lia|apply log2_fuel; lia]).
    now rewrite app_nil_r.
  - rewrite numeral_digits_padded by (split; [lia|apply log2_fuel; lia]).
    now rewrite app_nil_r.
Qed.

(** ** Comparing strings *)

Lemma str_le_app_same (x u v : pystr) : str_le (x ++ u) (x ++ v) = str_le u v.
Proof.
  induction x as [|c x IH]; [reflexivity|]. cbn. rewrite N.ltb_irrefl, N.eqb_refl.
  exact IH.
Qed.

Lemma str_le_app_lt (x y u v : pystr) :
  length x = length y -> str_le x y = true -> x <> y ->
  str_le (x ++ u) (y ++ v) = true.
Proof.
  revert y. induction x as [|a x IH]; intros [|b y] Hl Hle Hne;
    try discriminate; [contradiction|].
  cbn in *. destruct (N.ltb_spec a b); [reflexivity|]. cbn in *.
  destruct (N.eqb_spec a b) as [->|]; [|discriminate]. cbn in *.
  apply IH; [lia|exact Hle|congruence].
Qed.

(** Numerals of one width compare as the numbers they denote. *)
Lemma fixed_digits_order (w : nat) (a b : Z) :
  0 <= a <= b -> b < 10 ^ Z.of_nat w ->
  str_le (fixed_digits w a) (fixed_digits w b) = true /\
  (fixed_digits w a = fixed_digits w b -> a = b).
Proof.
  revert a b. induction w as [|w IH]; intros a b Hab Hb.
  - cbn in *. split; [reflexivity|]. lia.
  - rewrite Nat2Z.inj_succ, Z.pow_succ_r in Hb by lia. cbn [fixed_digits].
    assert (Hq : 0 <= a / 10 <= b / 10).
    { split; [apply Z.div_pos; lia | apply Z.div_le_mono; lia]. }
    assert (Hqb : b / 10 < 10 ^ Z.of_nat w) by (apply Z.div_lt_upper_bound; lia).
    destruct (IH _ _ Hq Hqb) as [Hle Hinj].
    pose proof (Z.div_mod a 10 ltac:(lia)) as Ea.
    pose proof (Z.div_mod b 10 ltac:(lia)) as Eb.
    pose proof (Z.mod_pos_bound a 10 ltac:(lia)) as Ba.
    pose proof (Z.mod_pos_bound b 10 ltac:(lia)) as Bb.
    split.
    + destruct (Z.eq_dec (a / 10) (b / 10)) as [Eq|Nq].
      * rewrite Eq, str_le_app_same. cbn. unfold digit_char.
        destruct (N.ltb_spec (48 + Z.to_N (a mod 10)) (48 + Z.to_N (b mod 10)));
          [reflexivity|].
        destruct (N.eqb_spec (48 + Z.to_N (a mod 10)) (48 + Z.to_N (b mod 10)));
          [reflexivity|lia].
      * apply str_le_app_lt; [now rewrite !fixed_digits_length|exact Hle|].
        intros E. apply Nq, Hinj, E.
    + intros E. apply app_inj_tail in E as [E1 E2].
      apply Hinj in E1. apply digit_char_inj in E2. lia.
Qed.

(** A leading field of fixed width decides the comparison, unless it is
    the same on both sides. *)
Lemma str_le_field (w : nat) (a b : Z) (u v : pystr) :
  0 <= a <= b -> b < 10 ^ Z.of_nat w ->
  (a = b -> str_le u v = true) ->
  str_le (fixed_digits w a ++ u) (fixed_digits w b ++ v) = true.
Proof.
  intros Hab Hb Huv. destruct (fixed_digits_order w a b Hab Hb) as [Hle Hinj].
  destruct (Z.eq_dec a b) as [->|Ne].
  - rewrite str_le_app_same. now apply Huv.
  - apply str_le_app_lt; [now rewrite !fixed_digits_length|exact Hle|].
    intros E. apply Ne, Hinj, E.
Qed.

(** ** The pattern of a timestamp *)

Lemma span_digits_app (ds rest : pystr) (c : N) :
  Forall (fun c => is_digit c = true) ds -> is_digit c = false ->
  span_digits (ds ++ c :: rest) = (ds, c :: rest).
Proof.
  intros Hds Hc. induction Hds as [|d ds Hd _ IH]; cbn.
  - now rewrite Hc.
  - now rewrite Hd, IH.
Qed.

Lemma clock_shape (h m r : Z) :
  clock h m r
  = zero_padded 2 h
    ++ 58%N :: [digit_char (m / 10 mod 10); digit_char (m mod 10); 58%N;
                digit_char (r / 1000 / 10 mod 10); digit_char (r / 1000 mod 10);
                44%N;
                digit_char (r mod 1000 / 10 / 10 mod 10);
                digit_char (r mod 1000 / 10 mod 10);
                digit_char (r mod 1000 mod 10)].
Proof. reflexivity. Qed.

Lemma clock_matches (h m r : Z) : matches_timestamp_pattern (clock h m r) = true.
Proof.
  rewrite clock_shape. unfold matches_timestamp_pattern.
  rewrite span_digits_app; [|apply fixed_digits_digits|reflexivity].
  rewrite zero_padded_length, !digit_char_is_digit.
  replace (2 <=? Nat.max 2 (ndigits h))%nat with true
    by (symmetry; apply Nat.leb_le; lia).
  reflexivity.
Qed.

Lemma clock_millis (h m r : Z) : millis_field (clock h m r) = Some (r mod 1000).
Proof.
  rewrite clock_shape. unfold millis_field.
  rewrite rev_app_distr. cbn [rev app].
  rewrite !digit_value_digit_char. cbn [mbind option_bind]. f_equal.
  pose proof (Z.mod_pos_bound r 1000 ltac:(lia)) as B.
  set (x := r mod 1000) in *.
  pose proof (Z.div_mod x 10 ltac:(lia)). pose proof (Z.mod_pos_bound x 10 ltac:(lia)).
  pose proof (Z.div_mod (x / 10) 10 ltac:(lia)).
  pose proof (Z.mod_pos_bound (x / 10) 10 ltac:(lia)).
  assert (x / 10 / 10 < 10) by (repeat apply Z.div_lt_upper_bound; lia).
  assert (0 <= x / 10 / 10) by (repeat apply Z.div_pos; lia).
  rewrite (Z.mod_small (x / 10 / 10) 10) by lia. lia.
Qed.

(** Every binary64 lies within the finite range. *)
Lemma is_double_le_max (k : Z) :
  is_double k = true -> - max_finite <= k <= max_finite.
Proof.
  intros Hk. pose proof (is_double_range k Hk) as Hr.
  pose proof range_facts as (R1 & R2 & R3 & R4 & R5 & R6).
  assert (Z.abs k <= max_finite); [|lia].
  destruct (Z_le_gt_dec (bits k) 2097) as [Hb|Hb].
  - pose proof (bits_upper (Z.abs k) (Z.abs_nonneg k)) as Hu. rewrite bits_abs in Hu.
    assert (2 ^ bits k <= 2 ^ 2097) by (apply Z.pow_le_mono_r; lia).
    unfold half_range in *. lia.
  - assert (Hk0 : 0 < Z.abs k).
    { destruct (Z.eq_dec k 0) as [->|]; [cbn in Hb; lia|lia]. }
    pose proof (bits_lower (Z.abs k) Hk0) as Hl. rewrite bits_abs in Hl.
    assert (bits k = 2098).
    { destruct (Z.eq_dec (bits k) 2098); [assumption|].
      assert (2 ^ 2098 <= 2 ^ (bits k - 1)) by (apply Z.pow_le_mono_r; lia).
      unfold overflow_threshold in Hr. lia. }
    destruct (is_double_multiple k 2045 Hk) as [c Ec];
      [unfold ulp_shift; lia|].
    unfold overflow_threshold, max_finite in *.
    assert (E98 : 2 ^ 2098 = 2 ^ 53 * 2 ^ 2045) by (rewrite <- Z.pow_add_r; [reflexivity|lia..]).
    assert (0 < 2 ^ 2045) by (apply pow2_pos; lia).
    rewrite Ec, Z.abs_mul, (Z.abs_eq (2 ^ 2045)), E98 in * by lia.
    assert (Z.abs c < 2 ^ 53) by nia. nia.
Qed.

Lemma nonzero_of_int (w : Z) : w <> 0 -> nonzero (of_int w) = true.
Proof.
  intros Hw. unfold nonzero, of_int. pose proof one_pos.
  destruct (Z.eqb_spec (w * one) 0); [nia|reflexivity].
Qed.

Lemma format_int_nonneg (h : Z) : 0 <= h -> format_int 2 h = zero_padded 2 h.
Proof. intros Hh. unfold format_int. destruct (Z.ltb_spec h 0); [lia|reflexivity]. Qed.

Lemma rounded_millis_range (k : Z) : 0 <= rounded_millis k <= 60000.
Proof.
  pose proof one_pos. pose proof (Z.mod_pos_bound k (60 * one) ltac:(lia)).
  unfold rounded_millis.
  split; [apply round_half_even_lower | apply round_half_even_upper]; lia.
Qed.

Lemma format_seconds (k : Z) :
  replace_char 46 44 (format_06_3f (Fin (k mod (60 * one))))
  = fixed_digits 2 (rounded_millis k / 1000) ++ py ","
    ++ fixed_digits 3 (rounded_millis k mod 1000).
Proof.
  pose proof one_pos. pose proof (Z.mod_pos_bound k (60 * one) ltac:(lia)) as B.
  pose proof (rounded_millis_range k) as R.
  unfold format_06_3f. destruct (Z.ltb_spec (k mod (60 * one)) 0); [lia|].
  unfold fixed3. fold (rounded_millis k).
  rewrite zero_padded_fixed
    by (change (10 ^ Z.of_nat (Nat.max 1 2)) with 100;
        apply Z.div_lt_upper_bound; lia).
  rewrite !replace_char_app.
  rewrite (replace_char_digits (fixed_digits _ (rounded_millis k / 1000)))
    by apply fixed_digits_digits.
  rewrite (replace_char_digits (fixed_digits 3 _)) by apply fixed_digits_digits.
  reflexivity.
Qed.

(** The formatter on a non-negative float: the three fields. *)
Lemma timestamp_clock (k : Z) :
  0 <= k <= max_finite ->
  exists h,
    0 <= h /\ (k < 2 ^ 53 * one -> h = k / (3600 * one)) /\
    timestamp (Fin k)
    = Ok (clock h (k mod (3600 * one) / (60 * one)) (rounded_millis k)).
Proof.
  intros Hk. pose proof one_pos as H1.
  pose proof range_facts as (R1 & R2 & R3 & R4 & R5 & R6).
  destruct (float_div_mod_nonneg k 3600 Hk ltac:(lia)) as (q & E1 & Hq & Hq').
  pose proof (Z.mod_pos_bound k (3600 * one) ltac:(lia)) as B1.
  set (r := k mod (3600 * one)) in *.
  destruct (float_div_mod_nonneg r 60 ltac:(lia) ltac:(lia)) as (qm & E2 & _ & Hqm).
  destruct (float_div_mod_nonneg k 60 Hk ltac:(lia)) as (q3 & E3 & _ & _).
  assert (Hm : 0 <= r / (60 * one) < 60).
  { split; [apply Z.div_pos; lia | apply Z.div_lt_upper_bound; lia]. }
  specialize (Hqm ltac:(lia)). subst qm.
  exists (Z.quot q one). split; [apply Z.quot_pos; lia|]. split.
  - intros Hs. rewrite Hq'.
    + apply Z.quot_mul. lia.
    + pose proof (Z.mul_div_le k (3600 * one) ltac:(lia)). nia.
  - unfold timestamp, floordiv, rem. rewrite !nonzero_of_int by lia.
    rewrite E1. cbn [fst snd mbind result_bind to_int].
    rewrite ?nonzero_of_int by lia. rewrite E2.
    cbn [fst snd mbind result_bind to_int].
    rewrite ?nonzero_of_int by lia. rewrite E3.
    cbn [fst snd mbind result_bind to_int].
    rewrite Z.quot_mul by lia. f_equal.
    rewrite !replace_char_app, format_seconds.
    rewrite !format_int_nonneg by first [apply Z.quot_pos; lia | lia].
    rewrite (zero_padded_fixed 2 (r / (60 * one))) by (cbn; lia).
    rewrite (replace_char_digits (zero_padded 2 _)) by apply fixed_digits_digits.
    rewrite (replace_char_digits (fixed_digits 2 _)) by apply fixed_digits_digits.
    reflexivity.
Qed.

Lemma clock_length (h m r : Z) :
  length (clock h m r) = (Nat.max 2 (ndigits h) + 10)%nat.
Proof.
  rewrite clock_shape, length_app, zero_padded_length. reflexivity.
Qed.

(** Clock texts of one length compare as the times they show. *)
Lemma clock_order (ha ma ra hb mb rb : Z) :
  0 <= ha <= hb -> 0 <= ma < 100 -> 0 <= mb < 100 ->
  0 <= ra <= 60000 -> 0 <= rb <= 60000 ->
  (ha = hb -> ma <= mb) -> (ha = hb -> ma = mb -> ra <= rb) ->
  length (clock ha ma ra) = length (clock hb mb rb) ->
  str_le (clock ha ma ra) (clock hb mb rb) = true.
Proof.
  intros Hh Hma Hmb Hra Hrb Hm Hr Hlen. rewrite !clock_length in Hlen.
  unfold clock, zero_padded.
  replace (Nat.max 2 (ndigits ha)) with (Nat.max 2 (ndigits hb)) by lia.
  apply str_le_field; [exact Hh|apply zero_padded_bound|]. intros Eh.
  rewrite str_le_app_same.
  apply str_le_field; [split; [lia|auto]|cbn; lia|]. intros Em.
  rewrite str_le_app_same. specialize (Hr Eh Em).
  apply str_le_field.
  - split; [apply Z.div_pos; lia | apply Z.div_le_mono; lia].
  - cbn. apply Z.div_lt_upper_bound; lia.
  - intros Eq. rewrite str_le_app_same.
    apply fixed_digits_order.
    + pose proof (Z.div_mod ra 1000 ltac:(lia)). pose proof (Z.div_mod rb 1000 ltac:(lia)).
      pose proof (Z.mod_pos_bound ra 1000 ltac:(lia)). lia.
    + cbn. apply Z.mod_pos_bound. lia.
Qed.

Lemma fields_order (a b : Z) :
  0 <= a <= b ->
  a / (3600 * one) <= b / (3600 * one) /\
  (a / (3600 * one) = b / (3600 * one) ->
   a mod (3600 * one) / (60 * one) <= b mod (3600 * one) / (60 * one) /\
   (a mod (3600 * one) / (60 * one) = b mod (3600 * one) / (60 * one) ->
    rounded_millis a <= rounded_millis b)).
Proof.
  intros Hab. pose proof one_pos as H1.
  pose proof (Z.div_mod a (3600 * one) ltac:(lia)) as Ea.
  pose proof (Z.div_mod b (3600 * one) ltac:(lia)) as Eb.
  split; [apply Z.div_le_mono; lia|]. intros Eh.
  assert (Hr : a mod (3600 * one) <= b mod (3600 * one)) by (rewrite Eh in Ea; lia).
  split; [apply Z.div_le_mono; lia|]. intros Em.
  unfold rounded_millis. apply round_half_even_mono; [lia|].
  assert (Es : forall k, k mod (60 * one) = (k mod (3600 * one)) mod (60 * one)).
  { intros k.
    replace (k mod (3600 * one))
      with (k + - (60 * (k / (3600 * one))) * (60 * one))
      by (rewrite (Z.mod_eq k (3600 * one)) by lia; ring).
    now rewrite Z.mod_add by lia. }
  rewrite (Es a), (Es b).
  pose proof (Z.div_mod (a mod (3600 * one)) (60 * one) ltac:(lia)).
  pose proof (Z.div_mod (b mod (3600 * one)) (60 * one) ltac:(lia)).
  rewrite Em in *. lia.
Qed.

(** C3 (as amended).  For non-negative finite [a <= b] the formatter
    returns texts that match [^\d{2,}:\d{2}:\d{2},\d{3}$].  Below 100
    hours the text of [a] is at most the text of [b] in string order.
    Below [2^53] seconds the text of [a] is no longer than the text of
    [b], and at most it in string order when they are equally long. *)
Theorem timestamp_pattern_monotone (a b : Z) :
  0 <= a <= b -> b <= max_finite ->
  exists sa sb,
    timestamp (Fin a) = Ok sa /\ timestamp (Fin b) = Ok sb /\
    matches_timestamp_pattern sa = true /\ matches_timestamp_pattern sb = true /\
    (b < 360000 * one -> str_le sa sb = true) /\
    (b < 2 ^ 53 * one ->
       (length sa <= length sb)%nat /\
       (length sa = length sb -> str_le sa sb = true)).
Proof.
  intros Hab Hb. pose proof one_pos as H1.
  destruct (timestamp_clock a ltac:(lia)) as (ha & Hha & Eha & Ea).
  destruct (timestamp_clock b ltac:(lia)) as (hb & Hhb & Ehb & Eb).
  exists (clock ha (a mod (3600 * one) / (60 * one)) (rounded_millis a)),
         (clock hb (b mod (3600 * one) / (60 * one)) (rounded_millis b)).
  split; [exact Ea|]. split; [exact Eb|].
  split; [apply clock_matches|]. split; [apply clock_matches|].
  assert (Hm : forall k, 0 <= k mod (3600 * one) / (60 * one) < 100).
  { intros k. pose proof (Z.mod_pos_bound k (3600 * one) ltac:(lia)).
    split; [apply Z.div_pos; lia | apply Z.div_lt_upper_bound; lia]. }
  destruct (fields_order a b Hab) as (Oh & O').
  assert (Hshort : b < 2 ^ 53 * one ->
            (length (clock ha (a mod (3600 * one) / (60 * one)) (rounded_millis a))
             <= length (clock hb (b mod (3600 * one) / (60 * one)) (rounded_millis b)))%nat
            /\ (length (clock ha (a mod (3600 * one) / (60 * one)) (rounded_millis a))
                = length (clock hb (b mod (3600 * one) / (60 * one)) (rounded_millis b))
                -> str_le (clock ha (a mod (3600 * one) / (60 * one)) (rounded_millis a))
                     (clock hb (b mod (3600 * one) / (60 * one)) (rounded_millis b))
                   = true)).
  { intros Hs. rewrite (Eha ltac:(lia)), (Ehb Hs) in *. split.
    - rewrite !clock_length. pose proof (ndigits_mono _ _ Oh). lia.
    - apply clock_order; try apply rounded_millis_range; try apply Hm.
      + lia.
      + intros E. apply O', E.
      + intros E Em. now apply O'. }
  split; [|exact Hshort].
  intros H100. assert (Hs : b < 2 ^ 53 * one) by lia.
  apply Hshort; [exact Hs|].
  rewrite !clock_length, (Eha ltac:(lia)), (Ehb Hs).
  assert (Hb100 : b / (3600 * one) < 100) by (apply Z.div_lt_upper_bound; lia).
  pose proof (ndigits_le (b / (3600 * one)) 2 Hb100).
  pose proof (ndigits_le (a / (3600 * one)) 2 ltac:(cbn; lia)). lia.
Qed.

(** C4 (as amended).  On a non-negative finite input the milliseconds
    field shows [R mod 1000], where [R] is the nearest integer, ties to
    even, to the seconds within the minute taken in milliseconds; [R]
    is within half a millisecond of that value.  The field is the
    truncated one when the input lies less than half a millisecond above
    a millisecond boundary. *)
Theorem timestamp_rounds_millis (k : Z) :
  0 <= k <= max_finite ->
  exists s,
    timestamp (Fin k) = Ok s /\
    millis_field s = Some (rounded_millis k mod 1000) /\
    (2 * rounded_millis k - 1) * one <= 2 * (1000 * (k mod (60 * one)))
      <= (2 * rounded_millis k + 1) * one /\
    (2 * ((1000 * k) mod one) < one -> millis_field s = Some (truncated_millis k)).
Proof.
  intros Hk. pose proof one_pos as H1.
  destruct (timestamp_clock k Hk) as (h & _ & _ & E).
  eexists. split; [exact E|]. split; [apply clock_millis|].
  split; [apply round_half_even_near, H1|].
  intros Hlow. rewrite clock_millis. f_equal.
  unfold rounded_millis, truncated_millis.
  pose proof (Z.div_mod k (60 * one) ltac:(lia)) as Ek.
  set (s := k mod (60 * one)) in *.
  assert (E1000 : 1000 * k = 1000 * s + 60000 * (k / (60 * one)) * one) by lia.
  assert (Emod : (1000 * k) mod one = (1000 * s) mod one)
    by (rewrite E1000; apply Z.mod_add; lia).
  assert (Ediv : 1000 * k / one = 1000 * s / one + 60000 * (k / (60 * one)))
    by (rewrite E1000; apply Z.div_add; lia).
  rewrite Ediv.
  replace (60000 * (k / (60 * one))) with (60 * (k / (60 * one)) * 1000) by ring.
  rewrite Z.mod_add by lia. f_equal.
  unfold round_half_even. rewrite <- Emod.
  destruct (Z.compare_spec (2 * ((1000 * k) mod one)) one); [lia|reflexivity|lia].
Qed.

(** The formatter on a negative float: the hours are negative. *)
Lemma timestamp_negative_fields (k : Z) :
  - max_finite <= k < 0 ->
  exists h m s,
    h < 0 /\
    timestamp (Fin k)
    = Ok (replace_char 46 44
            (format_int 2 h ++ py ":" ++ format_int 2 m ++ py ":"
             ++ format_06_3f (Fin s))).
Proof.
  intros Hk. pose proof one_pos as H1.
  pose proof range_facts as (R1 & R2 & R3 & R4 & R5 & R6).
  destruct (float_div_mod_neg k 3600 Hk ltac:(lia)) as (q & r & E1 & Hq & Hr).
  destruct (float_div_mod_nonneg r 60 ltac:(lia) ltac:(lia)) as (qm & E2 & _ & _).
  destruct (float_div_mod_neg k 60 Hk ltac:(lia)) as (q3 & s & E3 & _ & _).
  exists (Z.quot q one), (Z.quot qm one), s. split.
  { assert (Z.quot q one <= -1); [|lia]. apply Z.quot_le_upper_bound; lia. }
  unfold timestamp, floordiv, rem. rewrite !nonzero_of_int by lia.
  rewrite E1. cbn [fst snd mbind result_bind to_int].
  rewrite ?nonzero_of_int by lia. rewrite E2.
  cbn [fst snd mbind result_bind to_int].
  rewrite ?nonzero_of_int by lia. rewrite E3.
  reflexivity.
Qed.

(** C5 (as amended).  On a negative finite input the formatter does not
    fail: it returns a text, which starts with a minus sign. *)
Theorem timestamp_negative_returns (k : Z) :
  - max_finite <= k < 0 ->
  exists s, timestamp (Fin k) = Ok s /\ head s = Some 45%N.
Proof.
  intros Hk. destruct (timestamp_negative_fields k Hk) as (h & m & s & Hh & E).
  eexists. split; [exact E|].
  unfold format_int at 1. destruct (Z.ltb_spec h 0); [|lia]. reflexivity.
Qed.

(** The formatter returns on every finite float, whatever its sign. *)
Corollary timestamp_finite_returns (k : Z) :
  is_double k = true -> exists s, timestamp (Fin k) = Ok s.
Proof.
  intros Hd. pose proof (is_double_le_max k Hd) as Hr.
  destruct (Z_lt_le_dec k 0) as [Hneg|Hpos].
  - destruct (timestamp_negative_fields k ltac:(lia)) as (h & m & s & _ & E). eauto.
  - destruct (timestamp_clock k ltac:(lia)) as (h & _ & _ & E). eauto.
Qed.

(** ** The monad *)

Lemma bind_ok {A B} (m : M A) (k : A -> M B) w w' a :
  m w = (w', Ok a) -> (m ≫= k) w = k a w'.
Proof. intros E. unfold mbind, M_bind. now rewrite E. Qed.

Lemma bind_raise {A B} (m : M A) (k : A -> M B) w w' e :
  m w = (w', Raise e) -> (m ≫= k) w = (w', Raise e).
Proof. intros E. unfold mbind, M_bind. now rewrite E. Qed.

Lemma bind_ok_seq {B} (m1 m2 : M unit) (k : M B) w w1 :
  (m1 ;; m2) w = (w1, Ok tt) -> (m1 ;; m2 ;; k) w = k w1.
Proof.
  unfold mbind, M_bind. destruct (m1 w) as [wa [[]|e]]; [|discriminate].
  destruct (m2 wa) as [wb [[]|e]]; [|discriminate]. now intros [= ->].
Qed.

(** ** File names *)

Section Names.
Context `{Config}.

Lemma app_inv_head_pystr (a b c : pystr) : a ++ b = a ++ c -> b = c.
Proof. apply app_inv_head. Qed.

Lemma video_name_no_kind : ~ has_form PROJECT_NAME VIDEO_NAME (py "mp4").
Proof.
  intros [kind E]. unfold VIDEO_NAME in E.
  apply app_inv_head_pystr in E. discriminate E.
Qed.

(** C9 (as amended).  Whatever the project identifier: the video file is
    [<project>.mp4], with no kind suffix (so it is not of the form
    [<project>_<kind>.mp4]); the audio file is [<project>_audio.wav]; the
    caption file of each language code [zh], [en], [ru], [fr], [es], [de]
    is [<project>_<code>.srt], and [lang_map] pairs each code with the file
    carrying that code. *)
Theorem output_names :
  VIDEO_NAME = PROJECT_NAME ++ py ".mp4" /\
  ~ has_form PROJECT_NAME VIDEO_NAME (py "mp4") /\
  AUDIO_NAME = PROJECT_NAME ++ py "_" ++ py "audio" ++ py "." ++ py "wav" /\
  ZH_SUB = PROJECT_NAME ++ py "_" ++ py "zh" ++ py "." ++ py "srt" /\
  EN_SUB = PROJECT_NAME ++ py "_" ++ py "en" ++ py "." ++ py "srt" /\
  Forall (fun kv => kv.2 = PROJECT_NAME ++ py "_" ++ kv.1 ++ py "." ++ py "srt")
    lang_map /\
  has_form PROJECT_NAME AUDIO_NAME (py "wav") /\
  Forall (fun name => has_form PROJECT_NAME name (py "srt"))
    [ZH_SUB; EN_SUB; RU_SUB; FR_SUB; ES_SUB; DE_SUB].
Proof.
  split; [reflexivity|]. split; [apply video_name_no_kind|].
  split; [reflexivity|]. split; [reflexivity|]. split; [reflexivity|].
  split; [repeat constructor|].
  split; [exists (py "audio"); reflexivity|].
  repeat constructor;
    [exists (py "zh") | exists (py "en") | exists (py "ru")
    | exists (py "fr") | exists (py "es") | exists (py "de")]; reflexivity.
Qed.

End Names.

(** C9 (as stated) fails on the shipped settings: [my_video.mp4] is not
    [my_video_<kind>.mp4] for any kind. *)
Lemma video_name_counterexample :
  @VIDEO_NAME shipped_config = py "my_video.mp4" /\
  ~ has_form (@PROJECT_NAME shipped_config) (@VIDEO_NAME shipped_config) (py "mp4").
Proof.
  split; [reflexivity|]. intros [kind E]. vm_compute in E. discriminate E.
Qed.

(** ** The stage gate *)

Section Gate.
Context `{Collaborators} `{Config}.

Lemma path_exists_true (path : pystr) (w : world) :
  is_Some (fs w !! path) -> path_exists path w = (w, Ok true).
Proof.
  intros E. unfold path_exists. now rewrite bool_decide_eq_true_2.
Qed.

Lemma download_video_skips (w : world) :
  is_Some (fs w !! VIDEO_NAME) -> download_video w = (w, Ok tt).
Proof.
  intros E. unfold download_video.
  now rewrite (bind_ok _ _ _ _ _ (path_exists_true _ _ E)).
Qed.

Lemma extract_audio_skips (w : world) :
  is_Some (fs w !! AUDIO_NAME) -> extract_audio w = (w, Ok tt).
Proof.
  intros E. unfold extract_audio.
  now rewrite (bind_ok _ _ _ _ _ (path_exists_true _ _ E)).
Qed.

(** C7.  When the artifact of a gated stage (download, audio extraction)
    exists, the stage returns at once and the world is the one it was
    given: same files, same trace, so no tool was started.  Running the
    stage again, twice in a row, changes nothing either. *)
Theorem stage_gate_skips (st : gated_stage) (w : world) :
  is_Some (fs w !! artifact st) ->
  run_stage st w = (w, Ok tt) /\
  fs (run_stage st w).1 = fs w /\
  tool_runs (trace (run_stage st w).1) = tool_runs (trace w) /\
  (run_stage st ;; run_stage st) w = (w, Ok tt).
Proof.
  intros E.
  assert (D : run_stage st w = (w, Ok tt)).
  { destruct st; [apply download_video_skips | apply extract_audio_skips]; exact E. }
  rewrite D. repeat split. now rewrite (bind_ok _ _ _ _ _ D).
Qed.

(** A stage that ran, whatever it did, is skipped when run again in a
    world where its artifact is present. *)
Corollary stage_gate_second_run (st : gated_stage) (w0 w : world) (r : result unit) :
  run_stage st w0 = (w, r) -> is_Some (fs w !! artifact st) ->
  run_stage st w = (w, Ok tt).
Proof.
  intros _ E. destruct st; [apply download_video_skips | apply extract_audio_skips];
    exact E.
Qed.

End Gate.

(** ** The caption format *)

Lemma srt_blocks_length (rows : list (pystr * pystr * pystr)) (i : Z) :
  length (srt_blocks i rows) = length rows.
Proof.
  revert i. induction rows as [|r rows IH]; intros i; cbn;
    [reflexivity | now rewrite IH].
Qed.

Lemma srt_blocks_lookup (rows : list (pystr * pystr * pystr)) (i : Z) (n : nat)
    (row : pystr * pystr * pystr) :
  rows !! n = Some row ->
  srt_blocks i rows !! n = Some (srt_block (Z.of_nat n + i) row).
Proof.
  revert i n. induction rows as [|r rows IH]; intros i n E.
  - discriminate E.
  - destruct n as [|n].
    + injection E as ->. reflexivity.
    + change (srt_blocks (i + 1) rows !! n = Some (srt_block (Z.of_nat (S n) + i) row)).
      rewrite (IH (i + 1) n E). do 2 f_equal. lia.
Qed.

(** The block of the specification, in the words of the writers. *)
Lemma srt_block_written (i : Z) (t_start t_end text : pystr) :
  srt_block i (t_start, t_end, text)
  = str_of_int i ++ nl ++ t_start ++ py " --> " ++ t_end ++ nl ++ text ++ nl ++ nl.
Proof. unfold srt_block. rewrite str_of_int_numeral. reflexivity. Qed.

(** The blocks of a file around the block of row [n]. *)
Lemma srt_blocks_split (rows : list (pystr * pystr * pystr)) :
  forall (i : Z) (n : nat) (row : pystr * pystr * pystr),
  rows !! n = Some row ->
  srt_blocks i rows
  = srt_blocks i (take n rows)
    ++ srt_block (Z.of_nat n + i) row
       :: srt_blocks (Z.of_nat n + i + 1) (drop (S n) rows).
Proof.
  induction rows as [|r rows IH]; intros i n row E; [discriminate E|].
  destruct n as [|n].
  - injection E as ->. reflexivity.
  - cbn [take drop srt_blocks app]. rewrite (IH (i + 1) n row E).
    do 3 f_equal; [f_equal; lia|f_equal; lia].
Qed.

(** ** The caption writers *)

Section Writers.
Context `{Collaborators} `{Config}.

Lemma time_range_ok (seg : segment) (t_start t_end : pystr) :
  seg_times seg t_start t_end ->
  time_range seg = Ok (t_start ++ py " --> " ++ t_end).
Proof.
  intros (a & b & Ea & Ta & Eb & Tb). unfold time_range, getitem.
  rewrite Ea. cbn [mbind result_bind timestamp_val]. rewrite Ta.
  cbn [mbind result_bind]. rewrite Eb. cbn [mbind result_bind timestamp_val].
  rewrite Tb. reflexivity.
Qed.

Lemma world_eta (w : world) : World (fs w) (trace w) = w.
Proof. now destruct w. Qed.

Lemma caption_body_step (filename : pystr) (get_text : segment -> result pystr)
    (i : Z) (seg : segment) (ta tb text content : pystr) (w : world) :
  seg_times seg ta tb -> get_text seg = Ok text ->
  fs w !! filename = Some content ->
  caption_body filename get_text i seg w
  = (World (<[filename := content ++ srt_block i (ta, tb, text)]> (fs w)) (trace w),
     Ok tt).
Proof.
  intros Ht Hx E. unfold caption_body.
  rewrite (time_range_ok _ _ _ Ht), Hx.
  unfold mbind, M_bind, write, lift. cbn [fs trace].
  rewrite E. cbn [default]. rewrite !lookup_insert_eq. cbn [default].
  rewrite !insert_insert_eq. do 3 f_equal.
  rewrite srt_block_written. unfold id. now rewrite <- !app_assoc.
Qed.

(** A caption loop appends to the open file one block per segment, the
    numbers running from [i]. *)
Lemma caption_loop (filename : pystr) (get_text : segment -> result pystr)
    (R : segment -> pystr * pystr * pystr -> Prop) :
  (forall seg row, R seg row ->
     seg_times seg row.1.1 row.1.2 /\ get_text seg = Ok row.2) ->
  forall segments rows, Forall2 R segments rows ->
  forall i w content, fs w !! filename = Some content ->
  for_enumerate i segments (caption_body filename get_text) w
  = (World (<[filename := content ++ concat (srt_blocks i rows)]> (fs w)) (trace w),
     Ok tt).
Proof.
  intros HR segments rows F. induction F as [|seg row segments rows Hrow F IH];
    intros i w content E; cbn [for_enumerate srt_blocks concat].
  - rewrite app_nil_r, insert_id by exact E. now rewrite world_eta.
  - destruct (HR _ _ Hrow) as [Ht Hx]. destruct row as [[ta tb] text]. cbn in Ht, Hx.
    rewrite (bind_ok _ _ _ _ _ (caption_body_step _ _ i _ _ _ _ _ _ Ht Hx E)).
    rewrite IH with (content := content ++ srt_block i (ta, tb, text))
      by (cbn; apply lookup_insert_eq).
    cbn [fs trace]. now rewrite insert_insert_eq, <- app_assoc.
Qed.

Lemma open_then_loop (filename : pystr) (body : M unit) (content : pystr) (w : world) :
  can_open (fs w) filename = true ->
  (forall w1, fs w1 !! filename = Some [] ->
     body w1 = (World (<[filename := [] ++ content]> (fs w1)) (trace w1), Ok tt)) ->
  (open_w filename ;; body) w
  = (World (<[filename := content]> (fs w)) (trace w ++ [EvOpen filename]), Ok tt).
Proof.
  intros Hopen Hbody. unfold mbind, M_bind, open_w. rewrite Hopen.
  rewrite Hbody by (cbn; apply lookup_insert_eq). cbn.
  now rewrite insert_insert_eq.
Qed.

(** C1.  Given segments whose start and end the formatter renders and
    which all carry a text under the selected key, [save_subtitles]
    opens the file once and leaves in it exactly the caption file of the
    specification: one block per segment in input order, numbered 1, 2,
    ....  The block of segment [n] (counting from 0) stands after the
    blocks of the segments before it and reads: the numeral of [n + 1],
    a line feed; the formatted start, [ --> ], the formatted end, a line
    feed; the trimmed text, a line feed; a line feed of its own (the
    blank line, also after the last block). *)
Theorem save_subtitles_blocks (segments : list segment)
    (rows : list (pystr * pystr * pystr)) (filename text_key : pystr) (w : world) :
  Forall2 (seg_row text_key) segments rows ->
  can_open (fs w) filename = true ->
  save_subtitles segments filename text_key w
  = (World (<[filename := srt_file rows]> (fs w)) (trace w ++ [EvOpen filename]),
     Ok tt)
  /\ length rows = length segments
  /\ forall n t_start t_end text, rows !! n = Some (t_start, t_end, text) ->
       srt_file rows
       = concat (srt_blocks 1 (take n rows))
         ++ (numeral (Z.of_nat n + 1) ++ [10%N]
             ++ t_start ++ [32; 45; 45; 62; 32]%N ++ t_end ++ [10%N]
             ++ text ++ [10; 10]%N)
         ++ concat (srt_blocks (Z.of_nat n + 2) (drop (S n) rows)).
Proof.
  intros F Hopen. split; [|split].
  - unfold save_subtitles. apply open_then_loop; [exact Hopen|].
    intros w1 E1.
    apply (caption_loop filename _ (seg_row text_key)); [|exact F|exact E1].
    intros seg row [Ht (text & Ek & Er)]. split; [exact Ht|].
    unfold getitem. rewrite Ek. cbn. now rewrite Er.
  - symmetry. apply (Forall2_length _ _ _ F).
  - intros n t_start t_end text E. unfold srt_file.
    rewrite (srt_blocks_split rows 1 n _ E), concat_app. cbn [concat].
    replace (Z.of_nat n + 1 + 1) with (Z.of_nat n + 2) by lia. reflexivity.
Qed.

(** C2 (as amended).  The Chinese caption writer of [main] does not fail
    on a segment without [original_text]: it emits the trimmed primary
    text, and the empty string when that is missing too. *)
Theorem main_save_zh_fallback (segments : list segment)
    (rows : list (pystr * pystr * pystr)) (w : world) :
  Forall2 (fun seg row => seg_times seg row.1.1 row.1.2 /\ native_text seg row.2)
    segments rows ->
  can_open (fs w) ZH_SUB = true ->
  main_save_zh segments w
  = (World (<[ZH_SUB := srt_file rows]> (fs w)) (trace w ++ [EvOpen ZH_SUB]), Ok tt).
Proof.
  intros F Hopen. unfold main_save_zh. apply open_then_loop; [exact Hopen|].
  intros w1 E1.
  eapply (caption_loop ZH_SUB
            (fun seg => strip_val (dict_get seg (py "original_text")
                                     (dict_get seg (py "text") (PyStr [])))));
    [|exact F|exact E1].
  intros seg row [Ht Hn]. split; [exact Ht|]. unfold dict_get.
  destruct Hn as [text E|text E0 E|E0 E]; rewrite ?E0, ?E; reflexivity.
Qed.

(** [save_subtitles] has no fallback: on the first segment without the
    selected key it raises [KeyError], the file already opened and the
    blocks of the segments before it written. *)
Lemma save_subtitles_key_error (seg : segment) (segments : list segment)
    (filename text_key : pystr) (w : world) :
  seg !! text_key = None ->
  can_open (fs w) filename = true ->
  exists w', save_subtitles (seg :: segments) filename text_key w
             = (w', Raise (
                 match time_range seg with
                 | Ok _ => KeyError text_key
                 | Raise e => e
                 end)).
Proof.
  intros E Hopen. unfold save_subtitles, mbind, M_bind, open_w. rewrite Hopen.
  cbn. destruct (time_range seg); cbn; [|eauto].
  unfold getitem. rewrite E. cbn. eauto.
Qed.

End Writers.

(** ** The translation fan-out *)

Section FanOut.
Context `{Collaborators} `{Config}.

(** One turn of the loop of the fan-out. *)
Lemma translate_blocks_cons (i : Z) (seg : segment) (rest : list segment)
    (src dst : pystr) (acc : list pystr) (w : world) :
  translate_blocks i (seg :: rest) src dst acc w
  = match (v ← getitem seg (py "text"); strip_val v) with
    | Raise e => (w, Raise e)
    | Ok en_text =>
        let w1 := World (fs w) (trace w ++ [EvTranslate en_text src dst]) in
        match argtr_translate en_text src dst with
        | Raise e => (w1, Raise e)
        | Ok translated =>
            match time_range seg with
            | Raise e => (w1, Raise e)
            | Ok range =>
                translate_blocks (i + 1) rest src dst
                  (acc ++ [str_of_int (i + 1) ++ nl ++ range ++ nl
                           ++ translated ++ nl ++ nl]) w1
            end
        end
    end.
Proof.
  cbn [translate_blocks]. unfold mbind at 1, M_bind at 1, lift at 1.
  destruct (v ← getitem seg (py "text"); strip_val v) as [en_text|e]; [|reflexivity].
  unfold translate, log, lift, mbind, M_bind. cbn [fs trace].
  destruct (argtr_translate en_text src dst); [|reflexivity].
  destruct (time_range seg); reflexivity.
Qed.

Lemma translate_blocks_ok (src dst : pystr) (segments : list segment) :
  forall rows texts i acc w,
  Forall3 (translated_row src dst) segments rows texts ->
  translate_blocks i segments src dst acc w
  = (World (fs w) (trace w ++ List.map (call_of src dst) texts),
     Ok (acc ++ srt_blocks (i + 1) rows)).
Proof.
  induction segments as [|seg segments IH]; intros rows texts i acc w F;
    inversion F as [|? row text ? rows' texts' (Ht & Ek & Etr) F']; subst.
  - cbn. now rewrite !app_nil_r, world_eta.
  - rewrite translate_blocks_cons. unfold getitem. rewrite Ek.
    cbn [mbind result_bind strip_val]. rewrite Etr, (time_range_ok _ _ _ Ht).
    cbn zeta. rewrite (IH rows' texts') by exact F'. cbn [fs trace].
    destruct row as [[ta tb] tr]. unfold call_of.
    cbn [fst snd List.map srt_blocks]. rewrite srt_block_written, <- !app_assoc.
    reflexivity.
Qed.

Lemma writelines (filename : pystr) (blocks : list pystr) :
  forall w content, fs w !! filename = Some content ->
  for_each blocks (write filename) w
  = (World (<[filename := content ++ concat blocks]> (fs w)) (trace w), Ok tt).
Proof.
  induction blocks as [|b blocks IH]; intros w content E; cbn.
  - rewrite app_nil_r, insert_id by exact E. now rewrite world_eta.
  - unfold mbind, M_bind, write at 1. rewrite E. cbn.
    rewrite (IH _ (content ++ b)) by (cbn; apply lookup_insert_eq).
    cbn. now rewrite insert_insert_eq, <- app_assoc.
Qed.

Lemma engine_calls_fan_out (src dst filename : pystr) (texts : list pystr) :
  engine_calls (List.map (call_of src dst) texts ++ [EvOpen filename])
  = List.map (fun text => (strip text, src, dst)) texts.
Proof.
  unfold engine_calls. induction texts as [|text texts IH]; [reflexivity|].
  simpl. f_equal. exact IH.
Qed.

(** C6 (as amended).  When every segment has a text and formattable times
    and the engine translates each trimmed text, the fan-out calls the
    engine exactly once per segment, in order, on (the segment's text
    trimmed of surrounding whitespace, source code, target code); it
    opens the file afterwards, and the file holds one block per segment
    in the original order, with the segment's own start and end. *)
Theorem translate_and_save_calls (segments : list segment)
    (rows : list (pystr * pystr * pystr)) (texts : list pystr)
    (src dst filename : pystr) (w : world) :
  Forall3 (translated_row src dst) segments rows texts ->
  can_open (fs w) filename = true ->
  exists w' evs,
    translate_and_save segments src dst filename w = (w', Ok tt) /\
    fs w' = <[filename := srt_file rows]> (fs w) /\
    trace w' = trace w ++ evs ++ [EvOpen filename] /\
    evs = List.map (call_of src dst) texts /\
    engine_calls (evs ++ [EvOpen filename])
    = List.map (fun text => (strip text, src, dst)) texts /\
    length texts = length segments.
Proof.
  intros F Hopen. eexists _, _. split; [|split; [|split; [|split; [|split]]]].
  - unfold translate_and_save.
    rewrite (bind_ok _ _ _ _ _ (translate_blocks_ok src dst segments rows texts 0 [] w F)).
    apply open_then_loop; [exact Hopen|].
    intros w1 E1. apply writelines, E1.
  - reflexivity.
  - cbn. now rewrite <- app_assoc.
  - reflexivity.
  - apply engine_calls_fan_out.
  - symmetry. eapply eq_trans; [eapply Forall3_length_lr, F|reflexivity].
Qed.

(** The loop of the fan-out touches no file and logs nothing but engine
    calls; when it returns, it has called the engine once per segment and
    every call has succeeded. *)
Lemma translate_blocks_pure (src dst : pystr) (segments : list segment) :
  forall i acc w, exists evs r,
    translate_blocks i segments src dst acc w = (World (fs w) (trace w ++ evs), r) /\
    Forall is_translate evs /\
    (forall blocks, r = Ok blocks ->
       length evs = length segments /\
       Forall call_succeeds (engine_calls evs)).
Proof.
  induction segments as [|seg segments IH]; intros i acc w.
  - exists [], (Ok acc). cbn. rewrite app_nil_r, world_eta. repeat split; constructor.
  - rewrite translate_blocks_cons.
    destruct (v ← getitem seg (py "text"); strip_val v) as [text|e];
      [|exists [], (Raise e); rewrite app_nil_r, world_eta;
        split; [reflexivity|split; [constructor|discriminate]]].
    cbn zeta. destruct (argtr_translate text src dst) as [tr|e] eqn:Etr;
      [|exists [EvTranslate text src dst], (Raise e);
        split; [reflexivity|split; [repeat constructor|discriminate]]].
    destruct (time_range seg) as [range|e];
      [|exists [EvTranslate text src dst], (Raise e);
        split; [reflexivity|split; [repeat constructor|discriminate]]].
    match goal with |- context [translate_blocks ?i' _ _ _ ?acc' ?w'] =>
      destruct (IH i' acc' w') as (evs & r & E & Hev & Hok) end.
    exists (EvTranslate text src dst :: evs), r. cbn [fs trace] in E. rewrite E.
    rewrite <- app_assoc. split; [reflexivity|]. split; [now constructor|].
    intros blocks Hr. destruct (Hok _ Hr) as [Hlen Hall]. cbn.
    split; [now rewrite Hlen|]. constructor; [red; cbn; eauto | exact Hall].
Qed.

Lemma translate_blocks_fails (src dst : pystr) (segments : list segment) :
  Exists (engine_fails_on src dst) segments ->
  forall i acc w, exists w' e,
    translate_blocks i segments src dst acc w = (w', Raise e).
Proof.
  induction segments as [|seg segments IH]; intros Hex i acc w.
  - inversion Hex.
  - rewrite translate_blocks_cons.
    destruct (v ← getitem seg (py "text"); strip_val v) as [en_text|e] eqn:Eg;
      [|eauto].
    cbn zeta. destruct (argtr_translate en_text src dst) as [tr|e] eqn:Etr; [|eauto].
    destruct (time_range seg) as [range|e]; [|eauto].
    apply Exists_cons in Hex as [(text & e & Ek & Ef)|Hex].
    + unfold getitem in Eg. rewrite Ek in Eg. cbn in Eg. congruence.
    + apply IH, Hex.
Qed.

(** In every run of the fan-out the file is opened, if at all, after the
    last engine call, and then every segment has been translated. *)
Lemma translate_and_save_buffers (segments : list segment)
    (src dst filename : pystr) (w : world) :
  exists w' r evs tail,
    translate_and_save segments src dst filename w = (w', r) /\
    trace w' = trace w ++ evs ++ tail /\ Forall is_translate evs /\
    ((tail = [] /\ fs w' = fs w /\ exists e, r = Raise e) \/
     (tail = [EvOpen filename] /\ r = Ok tt /\ length evs = length segments /\
      Forall call_succeeds (engine_calls evs))).
Proof.
  destruct (translate_blocks_pure src dst segments 0 [] w) as (evs & r & E & Hev & Hok).
  unfold translate_and_save. destruct r as [blocks|e].
  - rewrite (bind_ok _ _ _ _ _ E). destruct (Hok _ eq_refl) as [Hlen Hall].
    destruct (can_open (fs w) filename) eqn:Hopen.
    + erewrite open_then_loop;
        [|exact Hopen|intros w1 E1; apply writelines, E1].
      eexists _, _, evs, [EvOpen filename]. split; [reflexivity|].
      cbn. rewrite <- app_assoc. split; [reflexivity|]. split; [exact Hev|].
      right. auto.
    + unfold mbind, M_bind, open_w. cbn. rewrite Hopen.
      eexists _, _, evs, []. split; [reflexivity|]. cbn. rewrite app_nil_r.
      split; [reflexivity|]. split; [exact Hev|]. left. eauto.
  - rewrite (bind_raise _ _ _ _ _ E).
    eexists _, _, evs, []. split; [reflexivity|]. cbn. rewrite app_nil_r.
    split; [reflexivity|]. split; [exact Hev|]. left. eauto.
Qed.

(** When the engine raises on some segment, so does the fan-out. *)
Lemma translate_and_save_fails (segments : list segment)
    (src dst filename : pystr) (w : world) :
  Exists (engine_fails_on src dst) segments ->
  exists w' e, translate_and_save segments src dst filename w = (w', Raise e).
Proof.
  intros Hex.
  destruct (translate_blocks_fails src dst segments Hex 0 [] w) as (w' & e & E).
  exists w', e. unfold translate_and_save. apply (bind_raise _ _ _ _ _ E).
Qed.

(** C10.  The fan-out translates first and opens the file last.  In
    every run its events are engine calls followed by at most one
    opening of the file; the file is opened only when the engine has
    been called once per segment and has answered every call; otherwise
    the fan-out raises and the files are what they were.  In particular,
    when the engine raises on some segment nothing is opened and no file
    changes. *)
Theorem translate_and_save_atomic (segments : list segment)
    (src dst filename : pystr) (w : world) :
  exists w' r evs tail,
    translate_and_save segments src dst filename w = (w', r) /\
    trace w' = trace w ++ evs ++ tail /\ Forall is_translate evs /\
    ((tail = [] /\ fs w' = fs w /\ exists e, r = Raise e) \/
     (tail = [EvOpen filename] /\ r = Ok tt /\ length evs = length segments /\
      Forall call_succeeds (engine_calls evs))) /\
    (Exists (engine_fails_on src dst) segments ->
     tail = [] /\ fs w' = fs w /\ exists e, r = Raise e).
Proof.
  destruct (translate_and_save_buffers segments src dst filename w)
    as (w' & r & evs & tail & E & Ht & Hev & Hcases).
  exists w', r, evs, tail. repeat (split; [assumption|]).
  intros Hex. destruct Hcases as [Hraise|(_ & Hok & _)]; [exact Hraise|].
  destruct (translate_and_save_fails segments src dst filename w Hex) as (w2 & e & E2).
  rewrite E in E2. congruence.
Qed.

End FanOut.

(** ** Recognition failure *)

Section Orchestrator.
Context `{Collaborators} `{Config}.

Lemma opened_app (t1 t2 : list event) : opened (t1 ++ t2) = opened t1 ++ opened t2.
Proof. apply omap_app. Qed.

Lemma run_checked_trace (argv : list pystr) (w w1 : world) (r : result unit) :
  run_checked argv w = (w1, r) -> opened (trace w1) = opened (trace w).
Proof.
  unfold run_checked.
  destruct (subprocess_run argv (fs w)) as [[fs' status]|];
    [|intros [= <- _]; reflexivity].
  destruct (status =? 0); intros [= <- _]; cbn;
    now rewrite opened_app, app_nil_r.
Qed.

Lemma run_stage_trace (st : gated_stage) (w w1 : world) (r : result unit) :
  run_stage st w = (w1, r) -> opened (trace w1) = opened (trace w).
Proof.
  destruct st; cbn; unfold download_video, extract_audio, path_exists,
    mbind, M_bind; cbn;
    (destruct (bool_decide _); [intros [= <- _]; reflexivity
                               | apply run_checked_trace]).
Qed.

Lemma main_fetch_trace (w w1 : world) (r : result unit) :
  main_fetch w = (w1, r) -> opened (trace w1) = opened (trace w).
Proof.
  unfold main_fetch, mbind, M_bind.
  destruct (download_video w) as [wd [[]|e]] eqn:D; [|intros [= <- _]];
    pose proof (run_stage_trace Download _ _ _ D) as Hd; [|exact Hd].
  destruct SAVE_AUDIO.
  - intros E. rewrite <- Hd. exact (run_stage_trace ExtractAudio _ _ _ E).
  - now intros [= <- _].
Qed.

Lemma main_after_fetch (w w1 : world) :
  main_fetch w = (w1, Ok tt) ->
  main w = (recognize_and_translate_en ≫= fun segments =>
              (if SAVE_ZH_SUB then main_save_zh segments else mret tt) ;;
              (if SAVE_EN_SUB then save_subtitles segments EN_SUB (py "text")
               else mret tt) ;;
              main_translate_all segments ;;
              if negb SAVE_AUDIO then
                present ← path_exists AUDIO_NAME;
                if (present : bool) then remove AUDIO_NAME else mret tt
              else mret tt) w1.
Proof. intros Ef. exact (bind_ok_seq _ _ _ _ _ Ef). Qed.

(** C8.  When recognition raises, in the world the download and
    extraction stages have left, [main] raises the same exception there
    and then: no file has been opened for writing since the start of the
    run, and the files are those the two stages left. *)
Theorem recognition_failure_writes_nothing (w w1 w2 : world) (e : exn) :
  main_fetch w = (w1, Ok tt) ->
  recognize_and_translate_en w1 = (w2, Raise e) ->
  main w = (w2, Raise e) /\
  fs w2 = fs w1 /\
  opened (trace w2) = opened (trace w).
Proof.
  intros Ef Er. split; [|split].
  - rewrite (main_after_fetch _ _ Ef). apply (bind_raise _ _ _ _ _ Er).
  - unfold recognize_and_translate_en, transcribe in Er. now injection Er as <- _.
  - rewrite <- (main_fetch_trace _ _ _ Ef).
    unfold recognize_and_translate_en, transcribe in Er. injection Er as <- _.
    cbn. now rewrite opened_app, app_nil_r.
Qed.

End Orchestrator.

(** ** The properties on sample data *)

Lemma hello_segment_row : seg_row (py "text") hello_segment hello_row.
Proof.
  split.
  - exists (of_int 0), (dyadic 3 1). repeat split; vm_compute; reflexivity.
  - exists (py " Hello world "). split; vm_compute; reflexivity.
Qed.

Lemma hello_segment_rows :
  Forall2 (seg_row (py "text")) [hello_segment] [hello_row].
Proof. constructor; [apply hello_segment_row | constructor]. Qed.

Lemma save_subtitles_blocks_witness :
  fs (@save_subtitles mock [hello_segment] (py "out.srt") (py "text") empty_world).1
    !! py "out.srt"
  = Some (py "1
00:00:00,000 --> 00:00:01,500
Hello world

").
Proof.
  rewrite (proj1 (@save_subtitles_blocks mock [hello_segment] [hello_row]
                    (py "out.srt") (py "text") empty_world
                    hello_segment_rows eq_refl)).
  cbn [fst fs]. rewrite lookup_insert_eq. vm_compute. reflexivity.
Defined.

(** C2 (as stated) fails for [save_subtitles]: asked for [original_text]
    on a segment that only has [text], it raises [KeyError]. *)
Lemma save_subtitles_no_fallback :
  exists w',
    @save_subtitles mock [hello_segment] (py "out.srt") (py "original_text")
      empty_world
    = (w', Raise (KeyError (py "original_text"))).
Proof. eexists. vm_compute. reflexivity. Qed.

Lemma main_save_zh_fallback_witness :
  fs (@main_save_zh mock shipped_config [hello_segment] empty_world).1
    !! py "my_video_zh.srt"
  = Some (srt_file [hello_row]).
Proof.
  rewrite (@main_save_zh_fallback mock shipped_config [hello_segment] [hello_row]
             empty_world).
  - apply lookup_insert_eq.
  - constructor; [|constructor]. split.
    + apply hello_segment_row.
    + apply (native_primary hello_segment (py " Hello world ")); vm_compute; reflexivity.
  - reflexivity.
Defined.

(** C6 (as stated) fails: for a segment whose text is [" Hello world "]
    the engine is called on ["Hello world"], not on the segment's text. *)
Lemma translate_and_save_trims :
  hello_segment !! py "text" = Some (PyStr (py " Hello world ")) /\
  engine_calls
    (trace (@translate_and_save mock [hello_segment] (py "en") (py "ru")
              (py "out.srt") empty_world).1)
  = [(py "Hello world", py "en", py "ru")] /\
  py "Hello world" <> py " Hello world ".
Proof. split; [|split]; vm_compute; [reflexivity|reflexivity|discriminate]. Qed.

Lemma translate_and_save_calls_witness :
  exists w' evs,
    @translate_and_save mock [hello_segment] (py "en") (py "ru") (py "out.srt")
      empty_world = (w', Ok tt) /\
    fs w' = <[py "out.srt" := srt_file [hello_row]]> (fs empty_world) /\
    trace w' = trace empty_world ++ evs ++ [EvOpen (py "out.srt")] /\
    evs = List.map (call_of (py "en") (py "ru")) [py " Hello world "] /\
    engine_calls (evs ++ [EvOpen (py "out.srt")])
    = List.map (fun text => (strip text, py "en", py "ru")) [py " Hello world "] /\
    length [py " Hello world "] = length [hello_segment].
Proof.
  apply (@translate_and_save_calls mock [hello_segment] [hello_row]
           [py " Hello world "] (py "en") (py "ru") (py "out.srt") empty_world).
  - constructor; [|constructor]. split; [apply hello_segment_row|].
    split; vm_compute; reflexivity.
  - reflexivity.
Defined.

Lemma blank_segment_fails :
  @engine_fails_on mock (py "en") (py "ru") blank_segment.
Proof. exists (py "  "), (EngineError 2). split; vm_compute; reflexivity. Qed.

Lemma translate_and_save_atomic_witness :
  exists w' e,
    @translate_and_save mock [hello_segment; blank_segment] (py "en") (py "ru")
      (py "out.srt") video_world = (w', Raise e) /\
    fs w' = fs video_world.
Proof.
  destruct (@translate_and_save_atomic mock [hello_segment; blank_segment]
              (py "en") (py "ru") (py "out.srt") video_world)
    as (w' & r & evs & tail & E & _ & _ & _ & Hfail).
  destruct Hfail as (_ & Hfs & e & ->).
  - apply Exists_cons_tl, Exists_cons_hd, blank_segment_fails.
  - exists w', e. split; [exact E | exact Hfs].
Defined.

Lemma stage_gate_skips_witness :
  @run_stage mock shipped_config Download video_world = (video_world, Ok tt) /\
  fs (@run_stage mock shipped_config Download video_world).1 = fs video_world /\
  tool_runs (trace (@run_stage mock shipped_config Download video_world).1)
  = tool_runs (trace video_world) /\
  (@run_stage mock shipped_config Download ;; @run_stage mock shipped_config Download)
    video_world = (video_world, Ok tt).
Proof.
  apply (@stage_gate_skips mock shipped_config Download video_world).
  exists (py "(video)"). vm_compute. reflexivity.
Defined.

Lemma recognition_failure_witness :
  let w1 := (@main_fetch mock shipped_config empty_world).1 in
  let w2 := (@recognize_and_translate_en mock shipped_config w1).1 in
  @main mock shipped_config empty_world = (w2, Raise (EngineError 1)) /\
  fs w2 = fs w1 /\
  opened (trace w2) = opened (trace empty_world).
Proof.
  intros w1 w2.
  apply (@recognition_failure_writes_nothing mock shipped_config
           empty_world w1 w2 (EngineError 1)); vm_compute; reflexivity.
Defined.

(** The caption file of the specification, written by [save_subtitles]. *)
Example save_subtitles_spec_file :
  fs (@save_subtitles mock spec_segments (py "out.srt") (py "text") empty_world).1
    !! py "out.srt"
  = Some (py "1
00:00:01,250 --> 00:00:03,400
Hello world

2
00:00:03,400 --> 00:00:05,000
Next line

").
Proof. vm_compute. reflexivity. Qed.

(** A whole run on the shipped settings: both tools run, then Whisper,
    then the three caption files are written, the Russian one after its
    two engine calls. *)
Example main_shipped_run :
  let w := (@main mock_recognizing shipped_config empty_world).1 in
  (@main mock_recognizing shipped_config empty_world).2 = Ok tt /\
  opened (trace w) = [py "my_video_zh.srt"; py "my_video_en.srt"; py "my_video_ru.srt"] /\
  engine_calls (trace w)
  = [(py "Hello world", py "en", py "ru"); (py "Next line", py "en", py "ru")] /\
  List.length (tool_runs (trace w)) = 2%nat /\
  fs w !! py "my_video.mp4" = Some (py "(media)") /\
  fs w !! py "my_video_audio.wav" = Some (py "(media)") /\
  fs w !! py "my_video_fr.srt" = None /\
  fs w !! py "my_video_ru.srt"
  = Some (py "1
00:00:01,250 --> 00:00:03,400
ru:Hello world

2
00:00:03,400 --> 00:00:05,000
ru:Next line

").
Proof. vm_compute. repeat split; reflexivity. Qed.

(** ** The formatter on sample inputs *)

Example timestamp_zero : timestamp (of_int 0) = Ok (py "00:00:00,000").
Proof. vm_compute. reflexivity. Qed.

Example timestamp_3661_25 :
  Fin sample_time = dyadic 14645 2 /\
  timestamp (Fin sample_time) = Ok (py "01:01:01,250") /\
  rounded_millis sample_time = 1250.
Proof. vm_compute. repeat split; reflexivity. Qed.

(** Rounding can carry into the seconds: 60 s - 2^-11 s shows as 60,000. *)
Example timestamp_sixty_seconds :
  timestamp (dyadic (60 * 2048 - 1) 11) = Ok (py "00:00:60,000").
Proof. vm_compute. reflexivity. Qed.

(** C3 (as stated) fails at 100 hours: the text of 99:59:59 is above the
    text of 100:00:00 in string order. *)
Lemma timestamp_order_breaks_at_100h :
  359999 * one <= 360000 * one /\
  is_double (359999 * one) = true /\ is_double (360000 * one) = true /\
  timestamp (of_int 359999) = Ok (py "99:59:59,000") /\
  timestamp (of_int 360000) = Ok (py "100:00:00,000") /\
  str_le (py "99:59:59,000") (py "100:00:00,000") = false.
Proof. vm_compute. repeat split; discriminate. Qed.

Lemma timestamp_pattern_monotone_witness :
  exists sa sb,
    timestamp (Fin 0) = Ok sa /\ timestamp (Fin sample_time) = Ok sb /\
    matches_timestamp_pattern sa = true /\ matches_timestamp_pattern sb = true /\
    str_le sa sb = true.
Proof.
  destruct (timestamp_pattern_monotone 0 sample_time)
    as (sa & sb & Ea & Eb & Ma & Mb & Hle & _);
    [vm_compute; split; discriminate | vm_compute; discriminate |].
  exists sa, sb.
  exact (conj Ea (conj Eb (conj Ma (conj Mb (Hle eq_refl))))).
Defined.

(** C4 (as stated) fails at 1/1024 s: the input is below 1 ms, the
    field shows 001. *)
Lemma timestamp_rounds_up_below_1ms :
  is_double (2 ^ 1064) = true /\
  timestamp (Fin (2 ^ 1064)) = Ok (py "00:00:00,001") /\
  millis_field (py "00:00:00,001") = Some 1 /\
  truncated_millis (2 ^ 1064) = 0.
Proof. vm_compute. repeat split; reflexivity. Qed.

Lemma timestamp_rounds_millis_witness :
  exists s,
    timestamp (Fin sample_time) = Ok s /\
    millis_field s = Some (rounded_millis sample_time mod 1000).
Proof.
  destruct (timestamp_rounds_millis sample_time) as (s & E & Hm & _);
    [vm_compute; split; discriminate|].
  exists s. exact (conj E Hm).
Defined.

(** On the infinities and NaN the formatter raises, from [int()]. *)
Example timestamp_not_finite :
  timestamp (Inf false) = Raise ValueError /\
  timestamp (Inf true) = Raise ValueError /\
  timestamp NaN = Raise ValueError.
Proof. vm_compute. repeat split; reflexivity. Qed.

(** C5 (as stated) fails at -1.0: the formatter returns a text. *)
Lemma timestamp_minus_one :
  is_double (- one) = true /\
  timestamp (of_int (-1)) = Ok (py "-1:59:59,000").
Proof. vm_compute. split; reflexivity. Qed.

Lemma timestamp_negative_returns_witness :
  exists s, timestamp (Fin (- one)) = Ok s /\ head s = Some 45%N.
Proof.
  apply (timestamp_negative_returns (- one)). vm_compute. split; [discriminate|reflexivity].
Defined.

(** * Further properties *)

(** ** The formatter: totality, nearest millisecond, width *)

Lemma round_half_even_add_even (c n d : Z) :
  0 < d -> Z.even c = true ->
  round_half_even (c * d + n) d = c + round_half_even n d.
Proof.
  intros Hd Hc. unfold round_half_even.
  replace (c * d + n) with (n + c * d) by lia.
  rewrite Z.div_add, Z.mod_add by lia.
  destruct (2 * (n mod d) ?= d); try lia.
  rewrite (Z.add_comm (n / d) c), Z.even_add, Hc.
  destruct (Z.even (n / d)); cbn; lia.
Qed.

Lemma round_half_even_reaches_even (c n d : Z) :
  0 < d -> Z.even c = true -> (2 * c - 1) * d <= 2 * n ->
  c <= round_half_even n d.
Proof.
  intros Hd Hc Hn. unfold round_half_even.
  pose proof (Z.div_mod n d ltac:(lia)) as E.
  pose proof (Z.mod_pos_bound n d Hd) as B.
  set (q := n / d) in *. set (rm := n mod d) in *.
  assert (H2 : (2 * c - 1) * d <= 2 * q * d + 2 * rm) by lia.
  destruct (Z.compare_spec (2 * rm) d) as [T|T|T].
  - assert (c <= q + 1) by nia.
    destruct (Z.even q) eqn:Eq; [|lia].
    destruct (Z.eq_dec c (q + 1)) as [->|]; [|lia].
    rewrite Z.even_add in Hc. rewrite Eq in Hc. discriminate.
  - nia.
  - nia.
Qed.

Lemma pow53_le_max : 2 ^ 53 * one <= max_finite.
Proof. pose proof range_facts. lia. Qed.

(** X1.  The formatter returns a text on every finite float, however
    large or small, and raises [ValueError] on the two infinities and on
    NaN. *)
Theorem timestamp_raises_iff_not_finite :
  (forall k, is_double k = true -> exists s, timestamp (Fin k) = Ok s) /\
  (forall negative, timestamp (Inf negative) = Raise ValueError) /\
  timestamp NaN = Raise ValueError.
Proof.
  split; [exact timestamp_finite_returns|]. split; [|reflexivity].
  intros []; reflexivity.
Qed.

(** X2.  Below [2^53] seconds the text of a non-negative time [t] is
    the clock reading of [t] rounded to the nearest millisecond, ties to
    even: it shows [h] hours, [m] minutes below 60 and [r] milliseconds
    within the minute, at most 60000, and [3600000 h + 60000 m + r] is
    that rounding of [1000 t]. *)
Theorem timestamp_nearest_millisecond (k : Z) :
  0 <= k < 2 ^ 53 * one ->
  exists h m r,
    timestamp (Fin k) = Ok (clock h m r) /\
    0 <= h /\ 0 <= m < 60 /\ 0 <= r <= 60000 /\
    3600000 * h + 60000 * m + r = round_half_even (1000 * k) one.
Proof.
  intros Hk. pose proof pow53_le_max as Hmax. pose proof one_pos as H1.
  destruct (timestamp_clock k ltac:(lia)) as (h & Hh & Eh & E).
  specialize (Eh ltac:(lia)). subst h.
  exists (k / (3600 * one)), (k mod (3600 * one) / (60 * one)), (rounded_millis k).
  split; [exact E|]. split; [exact Hh|].
  pose proof (Z.mod_pos_bound k (3600 * one) ltac:(lia)) as Hm.
  split.
  { split; [apply Z.div_pos; lia|]. apply Z.div_lt_upper_bound; lia. }
  split; [apply rounded_millis_range|].
  unfold rounded_millis.
  set (h := k / (3600 * one)). set (m := k mod (3600 * one) / (60 * one)).
  assert (Ek : k = (60 * h + m) * (60 * one) + k mod (60 * one)).
  { pose proof (Z.div_mod k (3600 * one) ltac:(lia)) as D1.
    pose proof (Z.div_mod (k mod (3600 * one)) (60 * one) ltac:(lia)) as D2.
    assert (D3 : (k mod (3600 * one)) mod (60 * one) = k mod (60 * one)).
    { rewrite D1 at 2. replace (3600 * one * (k / (3600 * one)))
        with (60 * (k / (3600 * one)) * (60 * one)) by lia.
      rewrite Z.add_comm, Z.mod_add by lia. reflexivity. }
    fold h in D1. fold m in D2. lia. }
  rewrite Ek at 2.
  replace (1000 * ((60 * h + m) * (60 * one) + k mod (60 * one)))
    with ((3600000 * h + 60000 * m) * one + 1000 * (k mod (60 * one))) by lia.
  rewrite round_half_even_add_even; [reflexivity|lia|].
  replace (3600000 * h + 60000 * m) with (2 * (1800000 * h + 30000 * m)) by lia.
  apply Z.even_mul.
Qed.

(** X3.  The seconds field can read 60.  On a non-negative finite
    time the text ends in [60,000] exactly when the time is within half
    a millisecond below a whole minute: [t mod 60 >= 59.9995]. *)
Theorem timestamp_seconds_field_sixty (k : Z) :
  0 <= k <= max_finite ->
  exists s,
    timestamp (Fin k) = Ok s /\
    ((exists front, s = front ++ py "60,000")
     <-> 119999 * one <= 2000 * (k mod (60 * one))).
Proof.
  intros Hk. pose proof one_pos as H1.
  destruct (timestamp_clock k Hk) as (h & _ & _ & E).
  eexists. split; [exact E|].
  pose proof (rounded_millis_range k) as Hr.
  pose proof (round_half_even_near (1000 * (k mod (60 * one))) one H1) as Hn.
  fold (rounded_millis k) in Hn.
  set (r := rounded_millis k) in *. rewrite clock_shape.
  split.
  - intros [front Hs].
    change (58%N :: ?a :: ?b :: 58%N :: ?l) with ([58%N; a; b; 58%N] ++ l) in Hs.
    rewrite app_assoc in Hs.
    apply app_inj_2 in Hs as [_ Hs]; [|reflexivity].
    injection Hs as Htens _ _ _ _.
    apply (digit_char_inj (r / 1000 / 10) 6) in Htens.
    assert (r / 1000 <= 60) by (apply Z.div_le_upper_bound; lia).
    assert (0 <= r / 1000) by (apply Z.div_pos; lia).
    assert (r / 1000 / 10 <= 6) by (apply Z.div_le_upper_bound; lia).
    assert (0 <= r / 1000 / 10) by (apply Z.div_pos; lia).
    rewrite Z.mod_small in Htens by lia. change (6 mod 10) with 6 in Htens.
    assert (60 <= r / 1000).
    { pose proof (Z.div_mod (r / 1000) 10 ltac:(lia)).
      pose proof (Z.mod_pos_bound (r / 1000) 10 ltac:(lia)). lia. }
    assert (60000 <= r).
    { pose proof (Z.div_mod r 1000 ltac:(lia)).
      pose proof (Z.mod_pos_bound r 1000 ltac:(lia)). lia. }
    assert (r = 60000) by lia. nia.
  - intros Hge.
    assert (Hr60 : 60000 <= r).
    { apply round_half_even_reaches_even; [lia|reflexivity|lia]. }
    assert (r = 60000) by lia.
    exists (zero_padded 2 h
            ++ [58%N; digit_char (k mod (3600 * one) / (60 * one) / 10 mod 10);
                digit_char (k mod (3600 * one) / (60 * one) mod 10); 58%N]).
    rewrite <- app_assoc. f_equal. cbn [app]. do 4 f_equal.
    replace r with 60000 by lia. reflexivity.
Qed.

(** X4.  Below 100 hours the text of a non-negative time has exactly
    12 characters, [HH:MM:SS,mmm]; from 100 hours on (and below [2^53]
    seconds) it is longer. *)
Theorem timestamp_width (k : Z) :
  0 <= k < 2 ^ 53 * one ->
  exists s,
    timestamp (Fin k) = Ok s /\
    (k < 360000 * one -> length s = 12%nat) /\
    (360000 * one <= k -> (12 < length s)%nat).
Proof.
  intros Hk. pose proof pow53_le_max as Hmax. pose proof one_pos as H1.
  destruct (timestamp_clock k ltac:(lia)) as (h & Hh & Eh & E).
  specialize (Eh ltac:(lia)).
  eexists. split; [exact E|]. rewrite clock_length. split.
  - intros Hlt.
    assert (h < 100) by (subst h; apply Z.div_lt_upper_bound; lia).
    pose proof (ndigits_le h 2 ltac:(cbn; lia)). lia.
  - intros Hge.
    assert (100 <= h).
    { subst h. apply Z.div_le_lower_bound; lia. }
    pose proof (ndigits_spec h ltac:(lia)) as [_ Hu].
    destruct (le_lt_dec (ndigits h) 2) as [Hle|Hgt]; [|lia].
    assert (10 ^ Z.of_nat (ndigits h) <= 10 ^ 2) by (apply Z.pow_le_mono_r; lia).
    change (10 ^ 2) with 100 in *. lia.
Qed.

(** ** Trimming *)

Lemma lstrip_decompose (s : pystr) :
  exists front, s = front ++ lstrip s /\ Forall (fun c => isspace c = true) front.
Proof.
  induction s as [|c s (front & E & F)]; [exists []; split; [reflexivity|constructor]|].
  cbn [lstrip]. destruct (isspace c) eqn:Ec.
  - exists (c :: front). split; [cbn; now rewrite <- E|now constructor].
  - exists []. split; [reflexivity|constructor].
Qed.

Lemma lstrip_head (s : pystr) (c : N) :
  head (lstrip s) = Some c -> isspace c = false.
Proof.
  induction s as [|a s IH]; [discriminate|]. cbn [lstrip].
  destruct (isspace a) eqn:Ea; [exact IH|]. cbn. now intros [= <-].
Qed.

Lemma lstrip_fixed (s : pystr) :
  (forall c, head s = Some c -> isspace c = false) -> lstrip s = s.
Proof.
  destruct s as [|a s]; [reflexivity|]. intros Hc. cbn [lstrip].
  now rewrite (Hc a eq_refl).
Qed.

Lemma lstrip_snoc (s : pystr) (c : N) :
  isspace c = false -> lstrip (s ++ [c]) = lstrip s ++ [c].
Proof.
  intros Hc. induction s as [|a s IH]; cbn [lstrip app]; [now rewrite Hc|].
  destruct (isspace a); [exact IH|reflexivity].
Qed.

Lemma head_rev_last (s : pystr) : head (rev s) = last s.
Proof.
  induction s as [|a s IH] using rev_ind; [reflexivity|].
  rewrite rev_app_distr, last_snoc. reflexivity.
Qed.

Lemma rstrip_decompose (s : pystr) :
  exists back, s = rstrip s ++ back /\ Forall (fun c => isspace c = true) back.
Proof.
  unfold rstrip. destruct (lstrip_decompose (rev s)) as (front & E & F).
  exists (rev front). split.
  - rewrite <- rev_app_distr, <- E. now rewrite rev_involutive.
  - now apply Forall_rev.
Qed.

Lemma rstrip_last (s : pystr) (c : N) :
  last (rstrip s) = Some c -> isspace c = false.
Proof. unfold rstrip. rewrite <- head_rev_last, rev_involutive. apply lstrip_head. Qed.

Lemma rstrip_fixed (s : pystr) :
  (forall c, last s = Some c -> isspace c = false) -> rstrip s = s.
Proof.
  intros Hc. unfold rstrip. rewrite lstrip_fixed; [apply rev_involutive|].
  intros c. rewrite head_rev_last. apply Hc.
Qed.

Lemma rstrip_head (s : pystr) (c : N) :
  isspace c = false -> head s = Some c -> head (rstrip s) = Some c.
Proof.
  intros Hc Hs. destruct s as [|a s]; [discriminate|]. injection Hs as ->.
  unfold rstrip. cbn [rev]. rewrite lstrip_snoc by exact Hc.
  now rewrite rev_app_distr.
Qed.

Lemma strip_head (s : pystr) (c : N) : head (strip s) = Some c -> isspace c = false.
Proof.
  unfold strip. destruct (lstrip s) as [|a t] eqn:E; [discriminate|].
  assert (Ha : isspace a = false) by (apply (lstrip_head s); now rewrite E).
  rewrite (rstrip_head (a :: t) a Ha eq_refl). now intros [= <-].
Qed.

(** X5.  The text line of a caption, [text.strip()], is [text]
    without a run of whitespace at each end: what is removed is
    whitespace only, what remains neither starts nor ends with
    whitespace, and trimming again changes nothing. *)
Theorem strip_trims_both_ends (text : pystr) :
  (exists front back,
     text = front ++ strip text ++ back /\
     Forall (fun c => isspace c = true) front /\
     Forall (fun c => isspace c = true) back) /\
  (forall c, head (strip text) = Some c -> isspace c = false) /\
  (forall c, last (strip text) = Some c -> isspace c = false) /\
  strip (strip text) = strip text.
Proof.
  split; [|split; [|split]].
  - destruct (lstrip_decompose text) as (front & E1 & F1).
    destruct (rstrip_decompose (lstrip text)) as (back & E2 & F2).
    exists front, back. unfold strip. rewrite <- E2. auto.
  - apply strip_head.
  - intros c. apply rstrip_last.
  - unfold strip at 1. rewrite (lstrip_fixed (strip text)) by apply strip_head.
    apply rstrip_fixed. intros c. apply rstrip_last.
Qed.

(** ** Traces and frames of a run *)

Lemma bind_run {A B} (m : M A) (k : A -> M B) (w : world) :
  (m ≫= k) w
  = match (m w).2 with
    | Ok a => k a (m w).1
    | Raise e => ((m w).1, Raise e)
    end.
Proof. unfold mbind, M_bind. destruct (m w) as [w' [a|e]]; reflexivity. Qed.

Lemma traces_weaken {A} (m : M A) (Q Q' : result A -> list event -> Prop) :
  traces m Q -> (forall r evs, Q r evs -> Q' r evs) -> traces m Q'.
Proof. intros Hm HQ w. destruct (Hm w) as (evs & E & Hq). eauto. Qed.

Lemma traces_bind {A B} (m : M A) (k : A -> M B)
    (Q1 : result A -> list event -> Prop) (Q2 : A -> result B -> list event -> Prop)
    (Q : result B -> list event -> Prop) :
  traces m Q1 -> (forall a, traces (k a) (Q2 a)) ->
  (forall e evs, Q1 (Raise e) evs -> Q (Raise e) evs) ->
  (forall a r e1 e2, Q1 (Ok a) e1 -> Q2 a r e2 -> Q r (e1 ++ e2)) ->
  traces (m ≫= k) Q.
Proof.
  intros Hm Hk Hraise Hok w. rewrite bind_run.
  destruct (Hm w) as (e1 & E1 & H1). destruct ((m w).2) as [a|e].
  - destruct (Hk a (m w).1) as (e2 & E2 & H2). exists (e1 ++ e2).
    rewrite E2, E1, <- app_assoc. eauto.
  - exists e1. cbn. eauto.
Qed.

Lemma quiet_bind {A B} (P : event -> Prop) (m : M A) (k : A -> M B) :
  quiet P m -> (forall a, quiet P (k a)) -> quiet P (m ≫= k).
Proof.
  intros Hm Hk.
  apply (traces_bind m k (fun _ evs => Forall P evs) (fun _ _ evs => Forall P evs));
    [exact Hm|exact Hk|auto|].
  intros a r e1 e2 H1 H2. apply Forall_app. auto.
Qed.

Lemma quiet_silent {A} (P : event -> Prop) (m : M A) :
  (forall w, trace (m w).1 = trace w) -> quiet P m.
Proof. intros Hm w. exists []. rewrite app_nil_r. split; [apply Hm|constructor]. Qed.

Lemma quiet_ret {A} (P : event -> Prop) (a : A) : quiet P (mret a).
Proof. now apply quiet_silent. Qed.

Lemma quiet_lift {A} (P : event -> Prop) (r : result A) : quiet P (lift r).
Proof. now apply quiet_silent. Qed.

Lemma quiet_if {A} (P : event -> Prop) (b : bool) (m1 m2 : M A) :
  quiet P m1 -> quiet P m2 -> quiet P (if b then m1 else m2).
Proof. now destruct b. Qed.

Lemma quiet_for_each {A} (P : event -> Prop) (l : list A) (body : A -> M unit) :
  (forall x, x ∈ l -> quiet P (body x)) -> quiet P (for_each l body).
Proof.
  induction l as [|x l IH]; intros Hb; cbn [for_each]; [apply quiet_ret|].
  apply quiet_bind; [apply Hb; left|intros _; apply IH].
  intros y Hy. apply Hb. now right.
Qed.

Section Yields.
Context {B : Type} (proj : event -> option B).

Lemma yields_silent {A} (m : M A) :
  (forall w, trace (m w).1 = trace w) -> yields (omap proj) m [].
Proof.
  intros Hm w. exists []. rewrite app_nil_r. split; [apply Hm|].
  split; [apply prefix_nil|reflexivity].
Qed.

Lemma yields_quiet {A} (m : M A) :
  quiet (fun ev => proj ev = None) m -> yields (omap proj) m [].
Proof.
  intros Hm. eapply traces_weaken; [exact Hm|]. intros r evs Hq. cbn in Hq.
  assert (omap proj evs = []) as ->.
  { induction Hq as [|ev evs E _ IH]; [reflexivity|]. cbn. now rewrite E. }
  split; [apply prefix_nil|reflexivity].
Qed.

Lemma yields_bind {A C} (m : M A) (k : A -> M C) (xs ys : list B) :
  yields (omap proj) m xs -> (forall a, yields (omap proj) (k a) ys) ->
  yields (omap proj) (m ≫= k) (xs ++ ys).
Proof.
  intros Hm Hk.
  apply (traces_bind m k
           (fun r evs => omap proj evs `prefix_of` xs
                         /\ (returned r -> omap proj evs = xs))
           (fun _ r evs => omap proj evs `prefix_of` ys
                           /\ (returned r -> omap proj evs = ys)));
    [exact Hm|exact Hk|..]; cbn.
  - intros e evs [Hp _]. split; [now apply prefix_app_r|].
    intros [a Ha]. discriminate Ha.
  - intros a r e1 e2 [_ H1] [Hp H2]. rewrite omap_app, H1 by (now exists a).
    split; [now apply prefix_app|]. intros Hr. now rewrite H2.
Qed.

(** A computation that raises without a trace fits any expectation. *)
Lemma yields_lift_raise {A C} (e : exn) (k : A -> M C) (xs : list B) :
  yields (omap proj) (lift (Raise e) ≫= k) xs.
Proof.
  intros w. exists []. cbn. rewrite app_nil_r. split; [reflexivity|].
  split; [apply prefix_nil|]. intros [a Ha]. discriminate Ha.
Qed.

Lemma yields_for_each {A} (l : list A) (body : A -> M unit) (g : A -> list B) :
  (forall x, yields (omap proj) (body x) (g x)) ->
  yields (omap proj) (for_each l body) (concat (List.map g l)).
Proof.
  intros Hb. induction l as [|x l IH]; cbn [for_each List.map concat].
  - now apply yields_silent.
  - apply yields_bind; [apply Hb|intros _; exact IH].
Qed.

End Yields.

Lemma preserves_mono {A} (f1 f2 : list pystr) (m : M A) :
  f1 ⊆ f2 -> preserves f1 m -> preserves f2 m.
Proof. intros Hs Hm w p Hp. apply Hm. intros Hin. apply Hp, Hs, Hin. Qed.

Lemma preserves_same {A} (files : list pystr) (m : M A) :
  (forall w, fs (m w).1 = fs w) -> preserves files m.
Proof. intros Hm w p _. now rewrite Hm. Qed.

Lemma ensures_bind {A B} (m : M A) (k : A -> M B) (R : world -> Prop) :
  (forall a, ensures (k a) R) -> ensures (m ≫= k) R.
Proof.
  intros Hk w. rewrite bind_run. destruct ((m w).2) as [a|e].
  - apply Hk.
  - intros [b Hb]. discriminate.
Qed.

Lemma concat_map_omap {A B C} (h : A -> option B) (g : B -> list C) (l : list A) :
  concat (List.map (fun x => match h x with Some b => g b | None => [] end) l)
  = concat (List.map g (omap h l)).
Proof.
  induction l as [|x l IH]; [reflexivity|]. cbn. rewrite IH.
  destruct (h x); reflexivity.
Qed.

Lemma concat_singletons {A B} (f : A -> B) (l : list A) :
  concat (List.map (fun x => [f x]) l) = List.map f l.
Proof. induction l as [|x l IH]; [reflexivity|]. cbn. now rewrite IH. Qed.

Lemma yields_lift_ok {A B C} (proj : event -> option B) (a : A) (k : A -> M C)
    (xs : list B) :
  yields (omap proj) (k a) xs -> yields (omap proj) (lift (Ok a) ≫= k) xs.
Proof. intros Hk w. exact (Hk w). Qed.

Lemma preserves_seq {A B} (files : list pystr) (m : M A) (k : A -> M B) :
  preserves files m -> (forall a, preserves files (k a)) -> preserves files (m ≫= k).
Proof.
  intros Hm Hk w p Hp. rewrite bind_run.
  destruct ((m w).2) as [a|e]; cbn.
  - rewrite Hk by exact Hp. now apply Hm.
  - now apply Hm.
Qed.

Lemma preserves_for_each {A} (files : list pystr) (l : list A) (body : A -> M unit) :
  (forall x, x ∈ l -> preserves files (body x)) -> preserves files (for_each l body).
Proof.
  induction l as [|x l IH]; intros Hb; cbn [for_each]; [now apply preserves_same|].
  apply preserves_seq; [apply Hb, list_elem_of_here|]. intros _. apply IH.
  intros y Hy. apply Hb. now apply list_elem_of_further.
Qed.

Lemma preserves_for_enumerate {A} (files : list pystr) (l : list A)
    (body : Z -> A -> M unit) :
  (forall i x, preserves files (body i x)) ->
  forall i, preserves files (for_enumerate i l body).
Proof.
  intros Hb. induction l as [|x l IH]; intros i; cbn [for_enumerate];
    [now apply preserves_same|].
  apply preserves_seq; [apply Hb|]. intros _. apply IH.
Qed.

Lemma omap_cons {A B} (f : A -> option B) (x : A) (l : list A) :
  omap f (x :: l) = match f x with Some y => y :: omap f l | None => omap f l end.
Proof. reflexivity. Qed.

(** ** Events of the stages *)

Section Stages.
Context `{Collaborators} `{Config}.

Lemma bind_assoc {A B C} (m : M A) (k : A -> M B) (k' : B -> M C) (w : world) :
  ((m ≫= k) ≫= k') w = (m ≫= fun a => k a ≫= k') w.
Proof. rewrite !bind_run. destruct ((m w).2) as [a|e]; [|reflexivity]. now rewrite bind_run. Qed.

Lemma main_phases (w : world) :
  main w = (main_fetch ≫= fun _ => recognize_and_translate_en ≫= main_write) w.
Proof. unfold main_fetch. rewrite bind_assoc. reflexivity. Qed.

(** *** Silent steps *)

Lemma silent_bind {A B} (m : M A) (k : A -> M B) :
  (forall w, trace (m w).1 = trace w) ->
  (forall a w, trace (k a w).1 = trace w) ->
  forall w, trace ((m ≫= k) w).1 = trace w.
Proof.
  intros Hm Hk w. rewrite bind_run. destruct ((m w).2) as [a|e]; cbn.
  - now rewrite Hk.
  - apply Hm.
Qed.

Lemma caption_body_silent (filename : pystr) (get_text : segment -> result pystr)
    (i : Z) (seg : segment) (w : world) :
  trace (caption_body filename get_text i seg w).1 = trace w.
Proof.
  unfold caption_body.
  repeat (apply silent_bind; [reflexivity|intros ?]); reflexivity.
Qed.

Lemma caption_loop_silent (filename : pystr) (get_text : segment -> result pystr)
    (segments : list segment) :
  forall i w, trace (for_enumerate i segments (caption_body filename get_text) w).1
              = trace w.
Proof.
  induction segments as [|seg segments IH]; intros i w; [reflexivity|].
  cbn [for_enumerate]. apply silent_bind; [apply caption_body_silent|].
  intros _. apply IH.
Qed.

Lemma writelines_silent (filename : pystr) (blocks : list pystr) :
  forall w, trace (for_each blocks (write filename) w).1 = trace w.
Proof.
  induction blocks as [|b blocks IH]; intros w; [reflexivity|].
  cbn [for_each]. apply silent_bind; [reflexivity|]. intros _. apply IH.
Qed.

(** *** What each stage appends *)

Lemma quiet_open_w (P : event -> Prop) (path : pystr) :
  P (EvOpen path) -> quiet P (open_w path).
Proof.
  intros HP w. unfold open_w. destruct (can_open (fs w) path); cbn.
  - exists [EvOpen path]. split; [reflexivity|]. now repeat constructor.
  - exists []. rewrite app_nil_r. split; [reflexivity|constructor].
Qed.

Lemma quiet_translate (P : event -> Prop) (text src dst : pystr) :
  P (EvTranslate text src dst) -> quiet P (translate text src dst).
Proof.
  intros HP w. exists [EvTranslate text src dst].
  unfold translate, log, lift. rewrite bind_run. cbn. split; [reflexivity|].
  now repeat constructor.
Qed.

Lemma quiet_caption_writer (P : event -> Prop) (filename : pystr)
    (get_text : segment -> result pystr) (segments : list segment) :
  P (EvOpen filename) ->
  quiet P (open_w filename ;; for_enumerate 1 segments (caption_body filename get_text)).
Proof.
  intros HP. apply quiet_bind; [now apply quiet_open_w|].
  intros _. apply quiet_silent, caption_loop_silent.
Qed.

Lemma quiet_translate_blocks (P : event -> Prop) (src dst : pystr)
    (segments : list segment) :
  (forall text, P (EvTranslate text src dst)) ->
  forall i acc, quiet P (translate_blocks i segments src dst acc).
Proof.
  intros HP. induction segments as [|seg segments IH]; intros i acc;
    cbn [translate_blocks]; [apply quiet_ret|].
  apply quiet_bind; [apply quiet_lift|]. intros en_text.
  apply quiet_bind; [apply quiet_translate, HP|]. intros translated.
  apply quiet_bind; [apply quiet_lift|]. intros range. apply IH.
Qed.

Lemma quiet_translate_and_save (P : event -> Prop) (segments : list segment)
    (src dst filename : pystr) :
  (forall text, P (EvTranslate text src dst)) -> P (EvOpen filename) ->
  quiet P (translate_and_save segments src dst filename).
Proof.
  intros HT HO. unfold translate_and_save.
  apply quiet_bind; [now apply quiet_translate_blocks|]. intros blocks.
  apply quiet_bind; [now apply quiet_open_w|]. intros _.
  apply quiet_silent, writelines_silent.
Qed.

Lemma quiet_remove (P : event -> Prop) (path : pystr) :
  P (EvRemove path) -> quiet P (remove path).
Proof. intros HP w. exists [EvRemove path]. split; [reflexivity|now repeat constructor]. Qed.

Lemma quiet_cleanup (P : event -> Prop) :
  (SAVE_AUDIO = false -> P (EvRemove AUDIO_NAME)) -> quiet P cleanup.
Proof.
  intros HP. unfold cleanup. destruct SAVE_AUDIO; cbn [negb]; [apply quiet_ret|].
  apply quiet_bind; [now apply quiet_silent|]. intros present.
  apply quiet_if; [apply quiet_remove; auto|apply quiet_ret].
Qed.

Lemma quiet_main_translate_all (segments : list segment) :
  quiet late_event (main_translate_all segments).
Proof.
  unfold main_translate_all. apply quiet_for_each. intros [code enabled] Hin.
  destruct enabled; [|apply quiet_ret].
  apply quiet_bind; [apply quiet_lift|]. intros filename.
  apply quiet_translate_and_save; cbn; auto.
Qed.

Lemma quiet_main_write (segments : list segment) :
  quiet late_event (main_write segments).
Proof.
  unfold main_write.
  apply quiet_bind.
  { apply quiet_if; [|apply quiet_ret]. unfold main_save_zh.
    now apply quiet_caption_writer. }
  intros _. apply quiet_bind.
  { apply quiet_if; [|apply quiet_ret]. unfold save_subtitles.
    now apply (quiet_caption_writer late_event EN_SUB
                 (fun seg => v ← getitem seg (py "text"); strip_val v)). }
  intros _. apply quiet_bind; [apply quiet_main_translate_all|].
  intros _. apply quiet_cleanup. cbn. auto.
Qed.

(** *** The fetch stages *)

Lemma run_stage_absent (st : gated_stage) (w : world) :
  fs w !! artifact st = None ->
  run_stage st w = run_checked (stage_argv st) w.
Proof.
  intros E. destruct st; cbn [run_stage artifact stage_argv] in *;
    unfold download_video, extract_audio; rewrite bind_run;
    unfold path_exists; cbn [fst snd];
    rewrite bool_decide_eq_false_2 by (rewrite E; now intros [? ?]);
    reflexivity.
Qed.

Lemma run_stage_shape (st : gated_stage) (w : world) :
  exists runs,
    trace (run_stage st w).1 = trace w ++ List.map EvRun runs /\
    (runs = [] \/ runs = [stage_argv st]) /\
    (is_Some (fs w !! artifact st) -> runs = [] /\ run_stage st w = (w, Ok tt)).
Proof.
  destruct (fs w !! artifact st) as [content|] eqn:E.
  - exists []. assert (D : run_stage st w = (w, Ok tt)).
    { destruct st; [apply download_video_skips | apply extract_audio_skips];
        cbn [artifact] in E; rewrite E; eauto. }
    rewrite D. cbn. rewrite app_nil_r. auto.
  - rewrite (run_stage_absent st w E). unfold run_checked.
    destruct (subprocess_run (stage_argv st) (fs w)) as [[fs' status]|].
    + exists [stage_argv st]. split; [destruct (status =? 0); reflexivity|].
      split; [auto|]. intros [? ?]. discriminate.
    + exists []. cbn. rewrite app_nil_r. split; [reflexivity|]. split; [auto|].
      intros [? ?]. discriminate.
Qed.
End Stages.

(** ** Loops *)

Lemma for_enumerate_ext {A} (l : list A) (body1 body2 : Z -> A -> M unit) :
  (forall i x w, x ∈ l -> body1 i x w = body2 i x w) ->
  forall i w, for_enumerate i l body1 w = for_enumerate i l body2 w.
Proof.
  induction l as [|x l IH]; intros Hb i w; [reflexivity|].
  cbn [for_enumerate]. rewrite !bind_run, Hb by apply list_elem_of_here.
  destruct ((body2 i x w).2); [|reflexivity].
  apply IH. intros j y w' Hy. apply Hb. now apply list_elem_of_further.
Qed.

Lemma for_enumerate_app {A} (l1 l2 : list A) (body : Z -> A -> M unit) :
  forall i w,
  for_enumerate i (l1 ++ l2) body w
  = (for_enumerate i l1 body ;;
     for_enumerate (i + Z.of_nat (length l1)) l2 body) w.
Proof.
  induction l1 as [|x l1 IH]; intros i w.
  - cbn [app for_enumerate length]. rewrite Z.add_0_r. reflexivity.
  - cbn [app for_enumerate length]. rewrite bind_assoc, !bind_run.
    destruct ((body i x w).2); [|reflexivity].
    rewrite IH. replace (i + 1 + Z.of_nat (length l1)) with (i + Z.of_nat (S (length l1))) by lia.
    now rewrite bind_run.
Qed.

Lemma for_each_app {A} (l1 l2 : list A) (body : A -> M unit) (w : world) :
  for_each (l1 ++ l2) body w = (for_each l1 body ;; for_each l2 body) w.
Proof.
  revert w. induction l1 as [|x l1 IH]; intros w; [reflexivity|].
  cbn [app for_each]. rewrite bind_assoc, !bind_run.
  destruct ((body x w).2); [|reflexivity]. rewrite IH. now rewrite bind_run.
Qed.

(** ** The caption writers: partial files, unwritable paths *)

Section Failures.
Context `{Collaborators} `{Config}.

(** X6.  On segments that have a text and no [original_text], step 2
    of [main] does what [save_subtitles] does with the key [text] on the
    file [ZH_SUB]: the Chinese caption file receives the English text. *)
Theorem main_save_zh_without_original (segments : list segment) (w : world) :
  Forall (fun seg => seg !! py "original_text" = None /\ is_Some (seg !! py "text"))
    segments ->
  main_save_zh segments w = save_subtitles segments ZH_SUB (py "text") w.
Proof.
  intros F. unfold main_save_zh, save_subtitles. rewrite !bind_run.
  destruct ((open_w ZH_SUB w).2); [|reflexivity].
  apply for_enumerate_ext. intros i seg w' Hin.
  rewrite Forall_forall in F. destruct (F seg Hin) as [Hno [v Hv]].
  unfold dict_get, getitem. rewrite Hno, Hv. reflexivity.
Qed.

Lemma caption_body_key_error (filename key : pystr) (i : Z) (seg : segment)
    (ta tb content : pystr) (w : world) :
  seg_times seg ta tb -> seg !! key = None ->
  fs w !! filename = Some content ->
  caption_body filename (fun seg => v ← getitem seg key; strip_val v) i seg w
  = (World (<[filename := content ++ str_of_int i ++ nl ++ ta ++ py " --> " ++ tb ++ nl]>
              (fs w)) (trace w),
     Raise (KeyError key)).
Proof.
  intros Ht Hk E. unfold caption_body. rewrite (time_range_ok _ _ _ Ht).
  unfold getitem. rewrite Hk.
  unfold mbind, M_bind, write, lift. cbn [fs trace mbind result_bind].
  rewrite E. cbn [default]. rewrite lookup_insert_eq. cbn [default].
  rewrite insert_insert_eq. unfold id. now rewrite <- !app_assoc.
Qed.

(** X7.  [save_subtitles] writes as it goes.  When a segment lacks the
    key, after segments that have it, [KeyError] is raised and the file
    is left with the blocks of the segments before, followed by the
    index line and the time line of the failing one. *)
Theorem save_subtitles_partial_file (good rest : list segment) (bad : segment)
    (rows : list (pystr * pystr * pystr)) (t_start t_end filename text_key : pystr)
    (w : world) :
  Forall2 (seg_row text_key) good rows ->
  seg_times bad t_start t_end -> bad !! text_key = None ->
  can_open (fs w) filename = true ->
  save_subtitles (good ++ bad :: rest) filename text_key w
  = (World (<[filename := srt_file rows
                          ++ str_of_int (Z.of_nat (length good) + 1) ++ nl
                          ++ t_start ++ py " --> " ++ t_end ++ nl]> (fs w))
       (trace w ++ [EvOpen filename]),
     Raise (KeyError text_key)).
Proof.
  intros F Ht Hk Hopen. unfold save_subtitles.
  unfold mbind at 1. unfold M_bind, open_w. rewrite Hopen.
  set (w1 := World (<[filename:=[]]> (fs w)) (trace w ++ [EvOpen filename])).
  change (for_enumerate 1 (good ++ bad :: rest)
            (caption_body filename (fun seg => v ← getitem seg text_key; strip_val v)) w1
          = (World (<[filename := srt_file rows
                          ++ str_of_int (Z.of_nat (length good) + 1) ++ nl
                          ++ t_start ++ py " --> " ++ t_end ++ nl]> (fs w))
               (trace w ++ [EvOpen filename]), Raise (KeyError text_key))).
  rewrite for_enumerate_app, bind_run.
  rewrite (caption_loop filename _ (seg_row text_key)) with (rows := rows) (content := [])
    by first [exact F | apply lookup_insert_eq
             | intros seg row [Hs (text & Hx & Hr)]; split; [exact Hs|];
               unfold getitem; rewrite Hx; cbn; now rewrite Hr].
  cbn [fst snd for_enumerate]. rewrite bind_run.
  rewrite (caption_body_key_error filename text_key _ bad t_start t_end
             (concat (srt_blocks 1 rows)))
    by first [assumption | cbn; apply lookup_insert_eq].
  cbn [fst snd fs trace app]. subst w1. cbn [fs trace].
  rewrite !insert_insert_eq. rewrite (Z.add_comm 1). reflexivity.
Qed.

(** X8.  On a path that cannot be opened for writing,
    [save_subtitles] raises [OSError] at once and changes nothing;
    [translate_and_save] first makes every engine call and only then
    raises [OSError], with no file changed. *)
Theorem unwritable_path (segments : list segment)
    (rows : list (pystr * pystr * pystr)) (texts : list pystr)
    (src dst filename text_key : pystr) (w : world) :
  can_open (fs w) filename = false ->
  save_subtitles segments filename text_key w = (w, Raise (OSError filename)) /\
  (Forall3 (translated_row src dst) segments rows texts ->
   translate_and_save segments src dst filename w
   = (World (fs w) (trace w ++ List.map (call_of src dst) texts),
      Raise (OSError filename))).
Proof.
  intros Hno. split.
  - unfold save_subtitles. unfold mbind, M_bind, open_w. now rewrite Hno.
  - intros F. unfold translate_and_save. rewrite bind_run.
    rewrite (translate_blocks_ok src dst segments rows texts 0 [] w F).
    cbn [fst snd]. rewrite bind_run. unfold open_w. cbn [fs]. now rewrite Hno.
Qed.
End Failures.

(** ** The orchestrator *)

Section Run.
Context `{Collaborators} `{Config}.

(** *** Files opened *)

Lemma yields_open_w (path : pystr) : yields opened (open_w path) [path].
Proof.
  intros w. unfold open_w. destruct (can_open (fs w) path); cbn.
  - exists [EvOpen path]. split; [reflexivity|]. split; [reflexivity|auto].
  - exists []. rewrite app_nil_r. split; [reflexivity|]. split.
    + apply prefix_nil.
    + intros [a Ha]. discriminate.
Qed.

Lemma yields_caption_writer (filename : pystr)
    (get_text : segment -> result pystr) (segments : list segment) :
  yields opened
    (open_w filename ;; for_enumerate 1 segments (caption_body filename get_text))
    [filename].
Proof.
  apply (yields_bind open_of (open_w filename) _ [filename] []).
  - apply yields_open_w.
  - intros _. apply (yields_silent open_of), caption_loop_silent.
Qed.

Lemma yields_opened_translate_and_save (segments : list segment)
    (src dst filename : pystr) :
  yields opened (translate_and_save segments src dst filename) [filename].
Proof.
  unfold translate_and_save.
  apply (yields_bind open_of _ _ [] [filename]).
  - apply (yields_quiet open_of).
    apply (quiet_translate_blocks _ src dst); reflexivity.
  - intros blocks. apply (yields_bind open_of _ _ [filename] []).
    + apply yields_open_w.
    + intros _. apply (yields_silent open_of), writelines_silent.
Qed.

Lemma yields_opened_translate_all (segments : list segment) :
  yields opened (main_translate_all segments) (List.map snd enabled_languages).
Proof.
  unfold enabled_languages.
  rewrite <- (concat_singletons snd), <- (concat_map_omap language_job).
  unfold main_translate_all. apply (yields_for_each open_of).
  intros [code enabled]. unfold language_job. cbn [fst snd].
  destruct enabled; [|apply (yields_silent open_of); reflexivity].
  destruct (lang_map_getitem code) as [filename|e].
  - apply (yields_lift_ok open_of). apply yields_opened_translate_and_save.
  - apply (yields_lift_raise open_of).
Qed.

Lemma fetch_silent_for {B} (proj : event -> option B) :
  (forall argv, proj (EvRun argv) = None) ->
  yields (omap proj) main_fetch [].
Proof.
  intros Hp. apply yields_quiet. unfold main_fetch.
  assert (Hs : forall st, quiet (fun ev => proj ev = None) (run_stage st)).
  { intros st w. destruct (run_stage_shape st w) as (runs & E & _ & _).
    exists (List.map EvRun runs). split; [exact E|].
    apply Forall_forall. intros ev Hin. apply list_elem_of_In, in_map_iff in Hin.
    destruct Hin as (argv & <- & _). apply Hp. }
  apply quiet_bind; [apply (Hs Download)|]. intros _.
  apply quiet_if; [apply (Hs ExtractAudio)|apply quiet_ret].
Qed.

Lemma recognize_silent_for {B} (proj : event -> option B) :
  (forall model audio, proj (EvTranscribe model audio) = None) ->
  yields (omap proj) recognize_and_translate_en [].
Proof.
  intros Hp. apply yields_quiet. intros w.
  exists [EvTranscribe MODEL AUDIO_NAME]. split; [reflexivity|].
  repeat constructor. apply Hp.
Qed.

Lemma yields_opened_cleanup : yields opened cleanup [].
Proof. apply (yields_quiet open_of), quiet_cleanup. reflexivity. Qed.

(** X12.  The files [main] opens for writing are, in order, a prefix
    of: [ZH_SUB] (with [SAVE_ZH_SUB] on), [EN_SUB] (with [SAVE_EN_SUB]
    on), and the files of the enabled languages in the order of
    [SAVE_LANGS].  When [main] returns they are all of these, each
    opened once. *)
Theorem main_opens_expected_outputs : yields opened main expected_outputs.
Proof.
  intros w. rewrite main_phases. revert w.
  apply (yields_bind open_of _ _ [] expected_outputs);
    [apply (fetch_silent_for open_of); reflexivity|]. intros _.
  apply (yields_bind open_of _ _ [] expected_outputs);
    [apply (recognize_silent_for open_of); reflexivity|]. intros segments.
  unfold main_write, expected_outputs.
  apply (yields_bind open_of).
  { destruct SAVE_ZH_SUB; [apply yields_caption_writer|].
    apply (yields_silent open_of); reflexivity. }
  intros _. apply (yields_bind open_of).
  { destruct SAVE_EN_SUB; [|apply (yields_silent open_of); reflexivity].
    apply (yields_caption_writer EN_SUB
             (fun seg => v ← getitem seg (py "text"); strip_val v)). }
  intros _. rewrite <- (app_nil_r (List.map snd enabled_languages)).
  apply (yields_bind open_of); [apply yields_opened_translate_all|].
  intros _. apply yields_opened_cleanup.
Qed.

(** *** Engine calls *)

Lemma yields_calls_translate (text src dst : pystr) :
  yields engine_calls (translate text src dst) [(text, src, dst)].
Proof.
  intros w. exists [EvTranslate text src dst].
  unfold translate, log, lift. rewrite bind_run. cbn. split; [reflexivity|].
  split; [reflexivity|auto].
Qed.

Lemma yields_calls_translate_blocks (src dst : pystr) (segments : list segment) :
  forall i acc,
  yields engine_calls (translate_blocks i segments src dst acc)
    (fan_out_calls src dst segments).
Proof.
  induction segments as [|seg segments IH]; intros i acc;
    cbn [translate_blocks fan_out_calls List.map].
  - apply (yields_silent call_of_event). reflexivity.
  - unfold seg_text.
    destruct (v ← getitem seg (py "text"); strip_val v) as [en_text|e].
    + apply (yields_lift_ok call_of_event).
      apply (yields_bind call_of_event _ _ [(en_text, src, dst)]);
        [apply yields_calls_translate|]. intros translated.
      destruct (time_range seg) as [range|e].
      * apply (yields_lift_ok call_of_event). apply IH.
      * apply (yields_lift_raise call_of_event).
    + apply (yields_lift_raise call_of_event).
Qed.

Lemma yields_calls_translate_and_save (segments : list segment)
    (src dst filename : pystr) :
  yields engine_calls (translate_and_save segments src dst filename)
    (fan_out_calls src dst segments).
Proof.
  unfold translate_and_save. rewrite <- (app_nil_r (fan_out_calls src dst segments)).
  apply (yields_bind call_of_event); [apply yields_calls_translate_blocks|].
  intros blocks. apply (yields_quiet call_of_event).
  apply quiet_bind; [now apply quiet_open_w|]. intros _.
  apply quiet_silent, writelines_silent.
Qed.

(** X13.  Step 4 calls the engine for each enabled language of
    [SAVE_LANGS] in order: once per segment, in order, from [en] to that
    language, on the trimmed text.  Any run shows a prefix of these
    calls, a run that returns shows them all. *)
Theorem main_translate_all_calls (segments : list segment) :
  yields engine_calls (main_translate_all segments) (expected_calls segments).
Proof.
  unfold expected_calls, enabled_languages.
  rewrite <- (concat_map_omap language_job).
  unfold main_translate_all. apply (yields_for_each call_of_event).
  intros [code enabled]. unfold language_job. cbn [fst snd].
  destruct enabled; [|apply (yields_silent call_of_event); reflexivity].
  destruct (lang_map_getitem code) as [filename|e].
  - apply (yields_lift_ok call_of_event). apply yields_calls_translate_and_save.
  - apply (yields_lift_raise call_of_event).
Qed.

(** *** Tool failures *)

Lemma run_stage_cases (st : gated_stage) (w : world) :
  (is_Some (fs w !! artifact st) /\ run_stage st w = (w, Ok tt)) \/
  (fs w !! artifact st = None /\
   match subprocess_run (stage_argv st) (fs w) with
   | None => run_stage st w = (w, Raise (OSError (stage_program st)))
   | Some (files, status) =>
       run_stage st w
       = (World files (trace w ++ [EvRun (stage_argv st)]),
          if status =? 0 then Ok tt else Raise (CalledProcessError (stage_argv st)))
   end).
Proof.
  destruct (fs w !! artifact st) as [content|] eqn:E.
  - left. split; [eauto|]. destruct (run_stage_shape st w) as (runs & _ & _ & Hs).
    apply Hs. rewrite E. eauto.
  - right. split; [reflexivity|]. rewrite (run_stage_absent st w E).
    unfold run_checked.
    destruct (subprocess_run (stage_argv st) (fs w)) as [[fs' status]|].
    + now destruct (status =? 0).
    + now destruct st.
Qed.

(** How a gated stage can end: it returns; or its command has run and
    failed; or its program could not be started, and nothing changed. *)
Lemma run_stage_outcome (st : gated_stage) (w : world) :
  exists runs,
    trace (run_stage st w).1 = trace w ++ List.map EvRun runs /\
    ((run_stage st w).2 = Ok tt /\ (runs = [] \/ runs = [stage_argv st]) \/
     (run_stage st w).2 = Raise (CalledProcessError (stage_argv st)) /\
     runs = [stage_argv st] \/
     (run_stage st w).2 = Raise (OSError (stage_program st)) /\ runs = []).
Proof.
  destruct (run_stage_cases st w) as [[_ R]|[_ R]].
  - exists []. rewrite R. cbn. rewrite app_nil_r. auto.
  - destruct (subprocess_run (stage_argv st) (fs w)) as [[files status]|];
      rewrite R; cbn [fst snd trace].
    + exists [stage_argv st]. split; [reflexivity|].
      destruct (status =? 0); auto.
    + exists []. cbn. rewrite app_nil_r. auto.
Qed.

(** X9.  A gated stage whose artifact is missing calls its command
    once.  When the program cannot be started the stage raises
    [OSError] on it and nothing has changed.  Otherwise the stage goes by
    the exit status alone: it returns on status 0 and raises
    [CalledProcessError] on any other, without looking at the artifact;
    and whatever the status, if the command left the artifact behind,
    the next run of the stage skips. *)
Theorem stage_trusts_exit_status (st : gated_stage) (w : world) :
  fs w !! artifact st = None ->
  match subprocess_run (stage_argv st) (fs w) with
  | None => run_stage st w = (w, Raise (OSError (stage_program st)))
  | Some (files, status) =>
      let w' := World files (trace w ++ [EvRun (stage_argv st)]) in
      run_stage st w
      = (w', if status =? 0 then Ok tt
             else Raise (CalledProcessError (stage_argv st))) /\
      (is_Some (files !! artifact st) -> run_stage st w' = (w', Ok tt))
  end.
Proof.
  intros E. destruct (run_stage_cases st w) as [[[c Hc] _]|[_ R]];
    [congruence|].
  destruct (subprocess_run (stage_argv st) (fs w)) as [[files status]|];
    [|exact R].
  split; [exact R|]. intros Hs.
  destruct (run_stage_cases st (World files (trace w ++ [EvRun (stage_argv st)])))
    as [[_ R']|[E' _]]; [exact R'|].
  cbn [fs] in E'. rewrite E' in Hs. now destruct Hs.
Qed.

(** X10.  When a fetch stage raises, [main] stops there with the same
    exception and world.  The failing stage is the download or, only
    with [SAVE_AUDIO] on, the audio extraction, the latter preceded at
    most by the download command.  Either its command has run and
    failed: the exception is its [CalledProcessError] and the command is
    the last event; or its program could not be started: the exception
    is [OSError] on the program and the command is no event.  Either
    way there is no recognition and no file is opened. *)
Theorem main_aborts_on_tool_failure (w w1 : world) (e : exn) :
  main_fetch w = (w1, Raise e) ->
  main w = (w1, Raise e) /\
  exists st runs,
    (st = ExtractAudio -> SAVE_AUDIO = true) /\
    (runs = [] \/ (runs = [download_argv] /\ st = ExtractAudio)) /\
    ((e = CalledProcessError (stage_argv st) /\
      trace w1 = trace w ++ List.map EvRun (runs ++ [stage_argv st])) \/
     (e = OSError (stage_program st) /\
      trace w1 = trace w ++ List.map EvRun runs)).
Proof.
  intros Hf. split.
  { rewrite main_phases, bind_run, Hf. reflexivity. }
  unfold main_fetch in Hf. rewrite bind_run in Hf.
  change download_video with (run_stage Download) in Hf.
  change extract_audio with (run_stage ExtractAudio) in Hf.
  destruct (run_stage_outcome Download w) as (r1 & T1 & O1).
  destruct ((run_stage Download w).2) as [[]|e1] eqn:E1.
  - destruct SAVE_AUDIO eqn:Ea; [|discriminate].
    destruct (run_stage_outcome ExtractAudio (run_stage Download w).1)
      as (r2 & T2 & O2).
    rewrite Hf in T2, O2. cbn [fst snd] in T2, O2. rewrite T2, T1, <- app_assoc.
    exists ExtractAudio, r1.
    split; [auto|]. split.
    { destruct O1 as [[_ [->| ->]]|[[? _]|[? _]]]; try discriminate; auto. }
    destruct O2 as [[? _]|[[[= ->] ->]|[[= ->] ->]]]; [discriminate|left|right].
    + split; [reflexivity|]. now rewrite map_app.
    + split; [reflexivity|]. cbn. now rewrite app_nil_r.
  - injection Hf as <- <-. exists Download, [].
    split; [discriminate|]. split; [auto|].
    change (download_video w) with (run_stage Download w). rewrite T1.
    destruct O1 as [[? _]|[[[= ->] ->]|[[= ->] ->]]]; [discriminate|left|right];
      split; reflexivity.
Qed.

End Run.

Section RunOrder.
Context `{Collaborators} `{Config}.

(** *** The order of events *)

Lemma main_fetch_shape (w : world) :
  exists runs,
    trace (main_fetch w).1 = trace w ++ List.map EvRun runs /\
    runs `sublist_of` fetch_plan.
Proof.
  unfold main_fetch, fetch_plan. rewrite bind_run.
  change download_video with (run_stage Download).
  change extract_audio with (run_stage ExtractAudio).
  destruct (run_stage_shape Download w) as (r1 & E1 & C1 & _).
  assert (S1 : r1 `sublist_of` [download_argv]).
  { destruct C1 as [->| ->]; [apply sublist_nil_l|reflexivity]. }
  destruct ((run_stage Download w).2) as [[]|e].
  - destruct SAVE_AUDIO.
    + destruct (run_stage_shape ExtractAudio (run_stage Download w).1)
        as (r2 & E2 & C2 & _).
      exists (r1 ++ r2). rewrite E2, E1, map_app, <- app_assoc. split; [reflexivity|].
      apply (sublist_app r1 [download_argv] r2 [extract_argv] S1).
      destruct C2 as [->| ->]; [apply sublist_nil_l|reflexivity].
    + exists r1. split; [exact E1|]. exact S1.
  - exists r1. split; [exact E1|]. rewrite <- (app_nil_r r1).
    apply (sublist_app r1 [download_argv] [] _ S1), sublist_nil_l.
Qed.

(** X11.  The events of any run of [main] come in this order: tool
    commands, a sublist of the download command followed (with
    [SAVE_AUDIO] on) by the extraction command; then at most one
    recognition, of [AUDIO_NAME] with [MODEL]; then, only after a
    recognition, the events of steps 2 to 5: openings of files, engine
    calls from [en] to a code enabled in [SAVE_LANGS], and the removal
    of [AUDIO_NAME] (with [SAVE_AUDIO] off).  A run without recognition
    raises. *)
Theorem main_event_order (w : world) :
  exists runs heard late,
    trace (main w).1 = trace w ++ List.map EvRun runs ++ heard ++ late /\
    runs `sublist_of` fetch_plan /\
    (heard = [] \/ heard = [EvTranscribe MODEL AUDIO_NAME]) /\
    (heard = [] -> late = [] /\ exists e, (main w).2 = Raise e) /\
    Forall late_event late.
Proof.
  destruct (main_fetch_shape w) as (runs & E & S).
  rewrite main_phases, bind_run.
  destruct ((main_fetch w).2) as [[]|e].
  - rewrite bind_run.
    set (w1 := (main_fetch w).1) in *.
    assert (T : trace (recognize_and_translate_en w1).1
                = trace w1 ++ [EvTranscribe MODEL AUDIO_NAME]) by reflexivity.
    destruct ((recognize_and_translate_en w1).2) as [segments|e].
    + destruct (quiet_main_write segments (recognize_and_translate_en w1).1)
        as (late & L & F).
      exists runs, [EvTranscribe MODEL AUDIO_NAME], late.
      rewrite L, T, E, <- !app_assoc. repeat split; auto; discriminate.
    + exists runs, [EvTranscribe MODEL AUDIO_NAME], [].
      cbn [fst]. rewrite T, E, <- !app_assoc. repeat split; auto; discriminate.
  - exists runs, [], []. cbn [fst snd]. rewrite E, !app_nil_r. repeat split; eauto.
Qed.

(** *** Cleanup *)

Lemma quiet_main_fetch (P : event -> Prop) :
  (forall argv, P (EvRun argv)) -> quiet P main_fetch.
Proof.
  intros HP w. destruct (main_fetch_shape w) as (runs & E & _).
  exists (List.map EvRun runs). split; [exact E|].
  apply Forall_forall. intros ev Hin. apply list_elem_of_In, in_map_iff in Hin.
  destruct Hin as (argv & <- & _). apply HP.
Qed.

Lemma quiet_recognize (P : event -> Prop) :
  P (EvTranscribe MODEL AUDIO_NAME) -> quiet P recognize_and_translate_en.
Proof.
  intros HP w. exists [EvTranscribe MODEL AUDIO_NAME]. split; [reflexivity|].
  now repeat constructor.
Qed.

Lemma quiet_language_steps (P : event -> Prop) (segments : list segment) :
  (forall text code, P (EvTranslate text (py "en") code)) ->
  (forall path, P (EvOpen path)) ->
  quiet P (main_translate_all segments).
Proof.
  intros HT HO. unfold main_translate_all. apply quiet_for_each.
  intros [code enabled] _. destruct enabled; [|apply quiet_ret].
  apply quiet_bind; [apply quiet_lift|]. intros filename.
  apply quiet_translate_and_save; auto.
Qed.

Lemma ensures_main (R : world -> Prop) : ensures cleanup R -> ensures main R.
Proof.
  intros Hc w. rewrite main_phases. revert w.
  apply ensures_bind. intros _. apply ensures_bind. intros segments.
  unfold main_write. do 3 (apply ensures_bind; intros _). exact Hc.
Qed.

Lemma cleanup_removes (w : world) :
  SAVE_AUDIO = false -> fs (cleanup w).1 !! AUDIO_NAME = None.
Proof.
  intros Ea. unfold cleanup. rewrite Ea. cbn [negb]. rewrite bind_run.
  unfold path_exists. cbn [fst snd].
  destruct (bool_decide_reflect (is_Some (fs w !! AUDIO_NAME))) as [Hs|Hn].
  - cbn. apply lookup_delete_eq.
  - cbn. now apply eq_None_not_Some.
Qed.

Lemma removal_last_bind {A} (m : M A) (k : A -> M unit) :
  quiet (fun ev => ~ is_removal ev) m ->
  (forall a, traces (k a) (fun r evs =>
     exists before last, evs = before ++ last /\
       Forall (fun ev => ~ is_removal ev) before /\ last_removal r last)) ->
  traces (m ≫= k) (fun r evs =>
    exists before last, evs = before ++ last /\
      Forall (fun ev => ~ is_removal ev) before /\ last_removal r last).
Proof.
  intros Hm Hk.
  apply (traces_bind m k (fun _ evs => Forall (fun ev => ~ is_removal ev) evs)
           (fun _ r evs =>
              exists before last, evs = before ++ last /\
                Forall (fun ev => ~ is_removal ev) before /\ last_removal r last));
    [exact Hm|exact Hk|..].
  - intros e evs F. exists evs, []. rewrite app_nil_r. repeat split; auto. now left.
  - intros a r e1 e2 F1 (before & last & -> & F2 & L).
    exists (e1 ++ before), last. rewrite app_assoc. repeat split; auto.
    apply Forall_app. auto.
Qed.

Lemma removal_last_cleanup :
  traces cleanup (fun r evs =>
    exists before last, evs = before ++ last /\
      Forall (fun ev => ~ is_removal ev) before /\ last_removal r last).
Proof.
  intros w. unfold cleanup. destruct SAVE_AUDIO eqn:Ea; cbn [negb].
  - exists []. cbn. rewrite app_nil_r. split; [reflexivity|].
    exists [], []. repeat split; auto. now left.
  - rewrite bind_run. unfold path_exists. cbn [fst snd].
    destruct (bool_decide (is_Some (fs w !! AUDIO_NAME))).
    + exists [EvRemove AUDIO_NAME]. cbn. split; [reflexivity|].
      exists [], [EvRemove AUDIO_NAME]. repeat split; auto. right. auto.
    + exists []. cbn. rewrite app_nil_r. split; [reflexivity|].
      exists [], []. repeat split; auto. now left.
Qed.

(** X14.  [main] removes nothing but the audio file, at most once, and
    only as the last event of a run with [SAVE_AUDIO] off that returns:
    the events of a run are events other than removals, followed by
    nothing or, in such a run, by the removal of [AUDIO_NAME]; a run
    that raises removes nothing.  After a run that returns with
    [SAVE_AUDIO] off there is no audio file. *)
Theorem main_cleanup (w : world) :
  exists before last,
    trace (main w).1 = trace w ++ before ++ last /\
    Forall (fun ev => ~ is_removal ev) before /\
    (last = [] \/
     (last = [EvRemove AUDIO_NAME] /\ SAVE_AUDIO = false /\ (main w).2 = Ok tt)) /\
    (SAVE_AUDIO = false -> (main w).2 = Ok tt -> fs (main w).1 !! AUDIO_NAME = None).
Proof.
  assert (Hq : traces main (fun r evs =>
            exists before last, evs = before ++ last /\
              Forall (fun ev => ~ is_removal ev) before /\ last_removal r last)).
  { intros w0. rewrite main_phases. revert w0.
    apply removal_last_bind; [apply quiet_main_fetch; auto|]. intros _.
    apply removal_last_bind; [apply quiet_recognize; auto|]. intros segments.
    unfold main_write.
    apply removal_last_bind.
    { apply quiet_if; [|apply quiet_ret]. apply quiet_caption_writer. auto. }
    intros _. apply removal_last_bind.
    { apply quiet_if; [|apply quiet_ret].
      apply (quiet_caption_writer _ EN_SUB
               (fun seg => v ← getitem seg (py "text"); strip_val v)). auto. }
    intros _. apply removal_last_bind; [apply quiet_language_steps; auto|].
    intros _. apply removal_last_cleanup. }
  destruct (Hq w) as (evs & E & before & last & -> & F & L).
  exists before, last. split; [exact E|]. split; [exact F|]. split; [exact L|].
  intros Ea Hr. apply (ensures_main (fun w' => fs w' !! AUDIO_NAME = None)).
  - intros w0 _. now apply cleanup_removes.
  - exists tt. exact Hr.
Qed.

(** *** A language without a file *)

Lemma main_translate_all_steps (segments : list segment) :
  main_translate_all segments = for_each SAVE_LANGS (language_step segments).
Proof. reflexivity. Qed.

(** X15.  A code enabled in [SAVE_LANGS] that [lang_map] does not have
    makes step 4 raise [KeyError] on that code, once the entries before
    it have been processed; the world is the one they left. *)
Theorem enabled_unknown_language (segments : list segment)
    (before after : list (pystr * bool)) (code : pystr) (w w1 : world) :
  SAVE_LANGS = before ++ (code, true) :: after ->
  code ∉ [py "ru"; py "fr"; py "es"; py "de"] ->
  for_each before (language_step segments) w = (w1, Ok tt) ->
  main_translate_all segments w = (w1, Raise (KeyError code)).
Proof.
  intros Es Hc Hb. rewrite main_translate_all_steps, Es, for_each_app, bind_run, Hb.
  cbn [fst snd for_each]. rewrite bind_run.
  assert (Hg : lang_map_getitem code = Raise (KeyError code)).
  { unfold lang_map_getitem, lang_map. cbn [List.find fst snd].
    rewrite !not_elem_of_cons in Hc. destruct Hc as (H1 & H2 & H3 & H4 & _).
    rewrite !bool_decide_eq_false_2 by congruence. reflexivity. }
  unfold language_step. rewrite bind_run. unfold lift. cbn [fst snd]. now rewrite Hg.
Qed.

(** *** Files left alone *)

Lemma preserves_write (path data : pystr) : preserves [path] (write path data).
Proof.
  intros w p Hp. cbn. apply lookup_insert_ne. intros ->. apply Hp, list_elem_of_here.
Qed.

Lemma preserves_open_w (path : pystr) : preserves [path] (open_w path).
Proof.
  intros w p Hp. unfold open_w. destruct (can_open (fs w) path); [|reflexivity].
  cbn. apply lookup_insert_ne. intros ->. apply Hp, list_elem_of_here.
Qed.

Lemma preserves_caption_writer (filename : pystr)
    (get_text : segment -> result pystr) (segments : list segment) :
  preserves [filename]
    (open_w filename ;; for_enumerate 1 segments (caption_body filename get_text)).
Proof.
  apply preserves_seq; [apply preserves_open_w|]. intros _.
  apply preserves_for_enumerate. intros i seg. unfold caption_body.
  apply preserves_seq; [apply preserves_write|]. intros _.
  apply preserves_seq; [now apply preserves_same|]. intros range.
  apply preserves_seq; [apply preserves_write|]. intros _.
  apply preserves_seq; [now apply preserves_same|]. intros text.
  apply preserves_write.
Qed.

Lemma translate_blocks_fs (src dst : pystr) (segments : list segment) :
  forall i acc w, fs (translate_blocks i segments src dst acc w).1 = fs w.
Proof.
  intros i acc w.
  destruct (translate_blocks_pure src dst segments i acc w) as (evs & r & E & _).
  now rewrite E.
Qed.

Lemma preserves_translate_and_save (segments : list segment)
    (src dst filename : pystr) :
  preserves [filename] (translate_and_save segments src dst filename).
Proof.
  unfold translate_and_save.
  apply preserves_seq; [apply preserves_same, translate_blocks_fs|]. intros blocks.
  apply preserves_seq; [apply preserves_open_w|]. intros _.
  apply preserves_for_each. intros block _. apply preserves_write.
Qed.

Lemma preserves_main_write (segments : list segment) :
  preserves (expected_outputs ++ if SAVE_AUDIO then [] else [AUDIO_NAME])
    (main_write segments).
Proof.
  unfold main_write, expected_outputs.
  apply preserves_seq.
  { destruct SAVE_ZH_SUB; [|now apply preserves_same].
    eapply preserves_mono; [|apply preserves_caption_writer].
    intros p ->%list_elem_of_singleton. cbn. apply list_elem_of_here. }
  intros _. apply preserves_seq.
  { destruct SAVE_EN_SUB; [|now apply preserves_same].
    eapply preserves_mono;
      [|apply (preserves_caption_writer EN_SUB
                 (fun seg => v ← getitem seg (py "text"); strip_val v))].
    intros p ->%list_elem_of_singleton. rewrite !elem_of_app. left. right. left.
    apply list_elem_of_here. }
  intros _. apply preserves_seq.
  { unfold main_translate_all. apply preserves_for_each. intros [code enabled] Hin.
    destruct enabled; [|now apply preserves_same].
    destruct (lang_map_getitem code) as [filename|e] eqn:Eg.
    - intros w p Hp. change (fs (translate_and_save segments (py "en") code filename w).1 !! p
                             = fs w !! p).
      apply preserves_translate_and_save. intros ->%list_elem_of_singleton.
      apply Hp. rewrite !elem_of_app. left. right. right.
      apply list_elem_of_In, in_map_iff. exists (code, filename). split; [reflexivity|].
      apply list_elem_of_In. unfold enabled_languages. apply list_elem_of_omap.
      exists (code, true). split; [exact Hin|]. unfold language_job. cbn [fst snd].
      now rewrite Eg.
    - now apply preserves_same. }
  intros _. unfold cleanup. destruct SAVE_AUDIO; cbn [negb]; [now apply preserves_same|].
  apply preserves_seq; [now apply preserves_same|]. intros present.
  destruct present; [|now apply preserves_same].
  intros w p Hp. cbn. apply lookup_delete_ne. intros <-. apply Hp.
  rewrite !elem_of_app. right. apply list_elem_of_here.
Qed.

(** X16.  After the fetch stages, [main] changes no file but its
    expected caption files and, with [SAVE_AUDIO] off, the audio file:
    any other path (the video, for one) holds at the end what it held
    when the fetch stages were done. *)
Theorem main_leaves_other_files (w : world) (path : pystr) :
  path ∉ expected_outputs ->
  (SAVE_AUDIO = false -> path <> AUDIO_NAME) ->
  fs (main w).1 !! path = fs (main_fetch w).1 !! path.
Proof.
  intros Hp Ha. rewrite main_phases, bind_run.
  destruct ((main_fetch w).2) as [[]|e]; [|reflexivity].
  rewrite bind_run.
  assert (T : fs (recognize_and_translate_en (main_fetch w).1).1 = fs (main_fetch w).1)
    by reflexivity.
  destruct ((recognize_and_translate_en (main_fetch w).1).2) as [segments|e];
    [|cbn [fst]; now rewrite T].
  rewrite <- T. apply preserves_main_write.
  rewrite elem_of_app. intros [Hin|Hin]; [exact (Hp Hin)|].
  destruct SAVE_AUDIO; [now apply elem_of_nil in Hin|].
  apply list_elem_of_singleton in Hin. now apply Ha.
Qed.

End RunOrder.

(** ** A complete run *)

Section Complete.
Context `{Collaborators} `{Config}.

Lemma save_subtitles_ok (segments : list segment)
    (rows : list (pystr * pystr * pystr)) (filename text_key : pystr) (w : world) :
  Forall2 (seg_row text_key) segments rows ->
  can_open (fs w) filename = true ->
  save_subtitles segments filename text_key w
  = (World (<[filename := srt_file rows]> (fs w)) (trace w ++ [EvOpen filename]),
     Ok tt).
Proof.
  intros F Hopen. unfold save_subtitles. apply open_then_loop; [exact Hopen|].
  intros w1 E1.
  apply (caption_loop filename _ (seg_row text_key)); [|exact F|exact E1].
  intros seg row [Ht (text & Ek & Er)]. split; [exact Ht|].
  unfold getitem. rewrite Ek. cbn. now rewrite Er.
Qed.

Lemma main_save_zh_ok (segments : list segment)
    (rows : list (pystr * pystr * pystr)) (w : world) :
  Forall2 (fun seg row => seg_times seg row.1.1 row.1.2 /\ native_text seg row.2)
    segments rows ->
  can_open (fs w) ZH_SUB = true ->
  main_save_zh segments w
  = (World (<[ZH_SUB := srt_file rows]> (fs w)) (trace w ++ [EvOpen ZH_SUB]), Ok tt).
Proof.
  intros F Hopen. unfold main_save_zh. apply open_then_loop; [exact Hopen|].
  intros w1 E1.
  eapply (caption_loop ZH_SUB
            (fun seg => strip_val (dict_get seg (py "original_text")
                                     (dict_get seg (py "text") (PyStr [])))));
    [|exact F|exact E1].
  intros seg row [Ht Hn]. split; [exact Ht|]. unfold dict_get.
  destruct Hn as [text E|text E0 E|E0 E]; rewrite ?E0, ?E; reflexivity.
Qed.

Lemma translate_and_save_ok (segments : list segment)
    (rows : list (pystr * pystr * pystr)) (texts : list pystr)
    (src dst filename : pystr) (w : world) :
  Forall3 (translated_row src dst) segments rows texts ->
  can_open (fs w) filename = true ->
  translate_and_save segments src dst filename w
  = (World (<[filename := srt_file rows]> (fs w))
       ((trace w ++ List.map (call_of src dst) texts) ++ [EvOpen filename]),
     Ok tt).
Proof.
  intros F Hopen. unfold translate_and_save.
  rewrite (bind_ok _ _ _ _ _ (translate_blocks_ok src dst segments rows texts 0 [] w F)).
  apply (open_then_loop filename _ (srt_file rows)
           (World (fs w) (trace w ++ List.map (call_of src dst) texts)));
    [exact Hopen|].
  intros w1 E1. apply writelines, E1.
Qed.

Lemma lang_map_known (code : pystr) :
  code ∈ [py "ru"; py "fr"; py "es"; py "de"] ->
  exists filename, lang_map_getitem code = Ok filename.
Proof.
  rewrite !elem_of_cons. unfold lang_map_getitem, lang_map. cbn [List.find fst snd].
  intros Hc. repeat (case_bool_decide; [eauto|]).
  destruct Hc as [?|[?|[?|[?|Hc]]]]; try congruence. now apply elem_of_nil in Hc.
Qed.

Lemma language_steps_ok (segments : list segment) (texts : list pystr)
    (captions : pystr -> list (pystr * pystr * pystr)) (langs : list (pystr * bool)) :
  (forall files path, can_open files path = true) ->
  (forall code, (code, true) ∈ langs ->
     code ∈ [py "ru"; py "fr"; py "es"; py "de"] /\
     Forall3 (translated_row (py "en") code) segments (captions code) texts) ->
  forall w,
    (for_each langs (language_step segments) w).2 = Ok tt /\
    fs (for_each langs (language_step segments) w).1
    = foldl (fun files job => <[job.2 := srt_file (captions job.1)]> files) (fs w)
        (omap language_job langs).
Proof.
  intros Hopen. induction langs as [|[code enabled] langs IH]; intros Hl w;
    [split; reflexivity|].
  assert (Hrest : forall c, (c, true) ∈ langs ->
            c ∈ [py "ru"; py "fr"; py "es"; py "de"] /\
            Forall3 (translated_row (py "en") c) segments (captions c) texts).
  { intros c Hc. apply Hl. now apply list_elem_of_further. }
  assert (Hstep : exists w',
            language_step segments (code, enabled) w = (w', Ok tt) /\
            fs w' = foldl (fun files job => <[job.2 := srt_file (captions job.1)]> files)
                      (fs w) (option_list (language_job (code, enabled)))).
  { unfold language_step, language_job. cbn [fst snd].
    destruct enabled; [|now exists w].
    destruct (Hl code (list_elem_of_here _ _)) as [Hk F].
    destruct (lang_map_known code Hk) as [filename Eg]. rewrite Eg.
    exists (World (<[filename := srt_file (captions code)]> (fs w))
              ((trace w ++ List.map (call_of (py "en") code) texts)
               ++ [EvOpen filename])).
    split; [|reflexivity].
    exact (translate_and_save_ok segments (captions code) texts (py "en") code filename w
             F (Hopen _ _)). }
  destruct Hstep as (w' & Estep & Efs).
  cbn [for_each]. rewrite (bind_ok _ _ _ _ _ Estep).
  destruct (IH Hrest w') as [IH1 IH2]. split; [exact IH1|]. rewrite IH2, Efs.
  rewrite omap_cons.
  destruct (language_job (code, enabled)); reflexivity.
Qed.

(** X17.  A complete run.  When the fetch stages return, recognition
    returns segments, every file can be opened, the segments have what
    the enabled writers read, every enabled code is one of [lang_map]
    and the engine answers for it, then [main] returns, and the files
    are those the fetch stages left with each caption file set to its
    blocks (Chinese, English, then the enabled languages in order) and
    the audio file removed when [SAVE_AUDIO] is off. *)
Theorem main_writes_every_caption_file (w w1 : world) (segments : list segment)
    (rows_zh rows_en : list (pystr * pystr * pystr)) (texts : list pystr)
    (captions : pystr -> list (pystr * pystr * pystr)) :
  main_fetch w = (w1, Ok tt) ->
  whisper_transcribe MODEL AUDIO_NAME (py "translate") (py "zh") (fs w1) = Ok segments ->
  (forall files path, can_open files path = true) ->
  (SAVE_ZH_SUB = true ->
   Forall2 (fun seg row => seg_times seg row.1.1 row.1.2 /\ native_text seg row.2)
     segments rows_zh) ->
  (SAVE_EN_SUB = true -> Forall2 (seg_row (py "text")) segments rows_en) ->
  (forall code, (code, true) ∈ SAVE_LANGS ->
     code ∈ [py "ru"; py "fr"; py "es"; py "de"] /\
     Forall3 (translated_row (py "en") code) segments (captions code) texts) ->
  let files1 := if SAVE_ZH_SUB then <[ZH_SUB := srt_file rows_zh]> (fs w1) else fs w1 in
  let files2 := if SAVE_EN_SUB then <[EN_SUB := srt_file rows_en]> files1 else files1 in
  let files3 := foldl (fun files job => <[job.2 := srt_file (captions job.1)]> files)
                  files2 enabled_languages in
  (main w).2 = Ok tt /\
  fs (main w).1 = if SAVE_AUDIO then files3 else delete AUDIO_NAME files3.
Proof.
  intros Hf Hw Hopen Hzh Hen Hl. cbn zeta.
  rewrite main_phases, bind_run, Hf. cbn [fst snd]. rewrite bind_run.
  assert (Hr : recognize_and_translate_en w1
               = (World (fs w1) (trace w1 ++ [EvTranscribe MODEL AUDIO_NAME]),
                  Ok segments)).
  { unfold recognize_and_translate_en, transcribe. now rewrite Hw. }
  rewrite Hr. cbn [fst snd]. unfold main_write.
  set (w2 := World (fs w1) (trace w1 ++ [EvTranscribe MODEL AUDIO_NAME])).
  change (fs w1) with (fs w2). clearbody w2. clear Hr Hw Hf.
  rewrite bind_run.
  assert (Hz : exists w3,
            (if SAVE_ZH_SUB then main_save_zh segments else mret tt) w2 = (w3, Ok tt) /\
            fs w3 = if SAVE_ZH_SUB then <[ZH_SUB := srt_file rows_zh]> (fs w2) else fs w2).
  { destruct SAVE_ZH_SUB; [|now exists w2].
    eexists. rewrite (main_save_zh_ok segments rows_zh w2 (Hzh eq_refl) (Hopen _ _)).
    split; reflexivity. }
  destruct Hz as (w3 & -> & <-). cbn [fst snd]. rewrite bind_run.
  assert (He : exists w4,
            (if SAVE_EN_SUB then save_subtitles segments EN_SUB (py "text") else mret tt) w3
            = (w4, Ok tt) /\
            fs w4 = if SAVE_EN_SUB then <[EN_SUB := srt_file rows_en]> (fs w3) else fs w3).
  { destruct SAVE_EN_SUB; [|now exists w3].
    eexists. rewrite (save_subtitles_ok segments rows_en EN_SUB (py "text") w3
                        (Hen eq_refl) (Hopen _ _)).
    split; reflexivity. }
  destruct He as (w4 & -> & <-). cbn [fst snd]. rewrite bind_run.
  destruct (language_steps_ok segments texts captions SAVE_LANGS Hopen Hl w4) as [Ok4 Fs4].
  change (main_translate_all segments w4)
    with (for_each SAVE_LANGS (language_step segments) w4).
  rewrite Ok4. unfold enabled_languages. rewrite <- Fs4.
  set (w5 := (for_each SAVE_LANGS (language_step segments) w4).1). clearbody w5.
  unfold cleanup. destruct SAVE_AUDIO; cbn [negb]; [split; reflexivity|].
  rewrite bind_run. unfold path_exists. cbn [fst snd].
  destruct (bool_decide_reflect (is_Some (fs w5 !! AUDIO_NAME))) as [Hs|Hn].
  - split; reflexivity.
  - split; [reflexivity|]. cbn. symmetry. apply delete_id.
    now apply eq_None_not_Some.
Qed.
End Complete.

(** ** The further properties on sample data *)

Lemma timestamp_1_25 : timestamp (dyadic 5 2) = Ok (py "00:00:01,250").
Proof. vm_compute. reflexivity. Qed.

Lemma timestamp_3_4 :
  timestamp (dyadic 7656119366529843 51) = Ok (py "00:00:03,400").
Proof. vm_compute. reflexivity. Qed.

Lemma timestamp_5 : timestamp (of_int 5) = Ok (py "00:00:05,000").
Proof. vm_compute. reflexivity. Qed.

Lemma spec_segments_rows : Forall2 (seg_row (py "text")) spec_segments spec_rows.
Proof.
  repeat constructor; cbn [fst snd].
  - exists (dyadic 5 2), (dyadic 7656119366529843 51).
    split; [reflexivity|]. split; [exact timestamp_1_25|].
    split; [reflexivity|exact timestamp_3_4].
  - exists (py " Hello world"). split; [reflexivity|]. vm_compute. reflexivity.
  - exists (dyadic 7656119366529843 51), (of_int 5).
    split; [reflexivity|]. split; [exact timestamp_3_4|].
    split; [reflexivity|exact timestamp_5].
  - exists (py " Next line"). split; [reflexivity|]. vm_compute. reflexivity.
Qed.

Lemma seg_row_native (seg : segment) (row : pystr * pystr * pystr) :
  seg_row (py "text") seg row -> seg !! py "original_text" = None ->
  seg_times seg row.1.1 row.1.2 /\ native_text seg row.2.
Proof.
  intros [Ht (text & Ex & Er)] Hno. split; [exact Ht|]. rewrite Er.
  now apply native_primary.
Qed.

Lemma spec_segments_native :
  Forall2 (fun seg row => seg_times seg row.1.1 row.1.2 /\ native_text seg row.2)
    spec_segments spec_rows.
Proof.
  pose proof spec_segments_rows as F.
  apply Forall2_cons_1 in F as [R1 F]. apply Forall2_cons_1 in F as [R2 _].
  constructor; [now apply seg_row_native|].
  constructor; [now apply seg_row_native|constructor].
Qed.

Lemma spec_segments_translated (code : pystr) :
  Forall3 (@translated_row mock_recognizing (py "en") code) spec_segments
    (spec_rows_in code) [py " Hello world"; py " Next line"].
Proof.
  pose proof spec_segments_rows as F.
  apply Forall2_cons_1 in F as [[T1 _] F]. apply Forall2_cons_1 in F as [[T2 _] _].
  repeat constructor; cbn [fst snd]; first [exact T1 | exact T2 | reflexivity].
Qed.

Lemma timestamp_raises_iff_not_finite_witness :
  exists s, timestamp (Fin sample_time) = Ok s.
Proof. exact (proj1 timestamp_raises_iff_not_finite sample_time eq_refl). Defined.

Lemma timestamp_nearest_millisecond_witness :
  0 <= sample_time < 2 ^ 53 * one /\
  exists h m r,
    timestamp (Fin sample_time) = Ok (clock h m r) /\
    0 <= h /\ 0 <= m < 60 /\ 0 <= r <= 60000 /\
    3600000 * h + 60000 * m + r = round_half_even (1000 * sample_time) one.
Proof.
  assert (R : 0 <= sample_time < 2 ^ 53 * one) by (vm_compute; split; [discriminate|reflexivity]).
  exact (conj R (timestamp_nearest_millisecond sample_time R)).
Defined.

Lemma timestamp_seconds_field_sixty_witness :
  0 <= (60 * 2048 - 1) * 2 ^ 1063 <= max_finite /\
  exists s,
    timestamp (Fin ((60 * 2048 - 1) * 2 ^ 1063)) = Ok s /\
    ((exists front, s = front ++ py "60,000")
     <-> 119999 * one <= 2000 * (((60 * 2048 - 1) * 2 ^ 1063) mod (60 * one))).
Proof.
  assert (R : 0 <= (60 * 2048 - 1) * 2 ^ 1063 <= max_finite)
    by (vm_compute; split; discriminate).
  exact (conj R (timestamp_seconds_field_sixty _ R)).
Defined.

Lemma timestamp_width_witness :
  0 <= sample_time < 2 ^ 53 * one /\
  exists s,
    timestamp (Fin sample_time) = Ok s /\
    (sample_time < 360000 * one -> length s = 12%nat) /\
    (360000 * one <= sample_time -> (12 < length s)%nat).
Proof.
  assert (R : 0 <= sample_time < 2 ^ 53 * one) by (vm_compute; split; [discriminate|reflexivity]).
  exact (conj R (timestamp_width sample_time R)).
Defined.

Lemma main_writes_every_caption_file_witness :
  let w1 := (@main_fetch mock_recognizing shipped_config empty_world).1 in
  let files1 := <[py "my_video_zh.srt" := srt_file spec_rows]> (fs w1) in
  let files2 := <[py "my_video_en.srt" := srt_file spec_rows]> files1 in
  let files3 := <[py "my_video_ru.srt" := srt_file (spec_rows_in (py "ru"))]> files2 in
  (@main mock_recognizing shipped_config empty_world).2 = Ok tt /\
  fs (@main mock_recognizing shipped_config empty_world).1 = files3.
Proof.
  intros w1 files1 files2 files3.
  apply (@main_writes_every_caption_file mock_recognizing shipped_config empty_world w1
           spec_segments spec_rows spec_rows [py " Hello world"; py " Next line"]
           spec_rows_in).
  - reflexivity.
  - reflexivity.
  - reflexivity.
  - intros _. apply spec_segments_native.
  - intros _. apply spec_segments_rows.
  - intros code Hin. split; [|apply spec_segments_translated].
    apply elem_of_cons in Hin as [[= ->]|Hin]; [apply list_elem_of_here|].
    repeat (apply elem_of_cons in Hin as [[=]|Hin]). now apply elem_of_nil in Hin.
Defined.

Lemma hello_segment_plain :
  Forall (fun seg => seg !! py "original_text" = None /\ is_Some (seg !! py "text"))
    [hello_segment].
Proof.
  constructor; [|constructor]. split; [reflexivity|].
  exists (PyStr (py " Hello world ")). reflexivity.
Qed.

Lemma main_save_zh_without_original_witness :
  @main_save_zh mock shipped_config [hello_segment] empty_world
  = @save_subtitles mock [hello_segment] (@ZH_SUB shipped_config) (py "text")
      empty_world.
Proof.
  exact (@main_save_zh_without_original mock shipped_config [hello_segment]
           empty_world hello_segment_plain).
Defined.

Lemma untexted_segment_times :
  seg_times untexted_segment (py "00:00:00,000") (py "00:00:01,500").
Proof.
  exists (of_int 0), (dyadic 3 1).
  split; [reflexivity|]. split; [vm_compute; reflexivity|].
  split; [reflexivity|vm_compute; reflexivity].
Qed.

Lemma save_subtitles_partial_file_witness :
  @save_subtitles mock ([hello_segment] ++ untexted_segment :: [hello_segment])
    (py "out.srt") (py "text") empty_world
  = (World (<[py "out.srt" := srt_file [hello_row]
                              ++ str_of_int (Z.of_nat (length [hello_segment]) + 1) ++ nl
                              ++ py "00:00:00,000" ++ py " --> " ++ py "00:00:01,500"
                              ++ nl]> (fs empty_world))
       (trace empty_world ++ [EvOpen (py "out.srt")]),
     Raise (KeyError (py "text"))).
Proof.
  exact (@save_subtitles_partial_file mock [hello_segment] [hello_segment]
           untexted_segment [hello_row] (py "00:00:00,000") (py "00:00:01,500")
           (py "out.srt") (py "text") empty_world
           hello_segment_rows untexted_segment_times eq_refl eq_refl).
Defined.

Lemma hello_segment_translated :
  Forall3 (@translated_row mock_readonly (py "en") (py "ru")) [hello_segment]
    [hello_row] [py " Hello world "].
Proof.
  constructor; [|constructor]. split; [apply hello_segment_row|].
  split; vm_compute; reflexivity.
Qed.

Lemma unwritable_path_witness :
  @save_subtitles mock_readonly [hello_segment] (py "out.srt") (py "text") empty_world
  = (empty_world, Raise (OSError (py "out.srt"))) /\
  @translate_and_save mock_readonly [hello_segment] (py "en") (py "ru") (py "out.srt")
    empty_world
  = (World (fs empty_world)
       (trace empty_world ++ List.map (call_of (py "en") (py "ru")) [py " Hello world "]),
     Raise (OSError (py "out.srt"))).
Proof.
  destruct (@unwritable_path mock_readonly [hello_segment] [hello_row]
              [py " Hello world "] (py "en") (py "ru") (py "out.srt") (py "text")
              empty_world eq_refl) as [Hs Ht].
  exact (conj Hs (Ht hello_segment_translated)).
Defined.

Lemma stage_trusts_exit_status_witness :
  let argv := @stage_argv shipped_config Download in
  let w' := World (<[py "my_video.mp4" := py "(partial)"]> ∅) [EvRun argv] in
  @run_stage mock_failing_tools shipped_config Download empty_world
  = (w', Raise (CalledProcessError argv)) /\
  @run_stage mock_failing_tools shipped_config Download w' = (w', Ok tt).
Proof.
  intros argv w'.
  destruct (@stage_trusts_exit_status mock_failing_tools shipped_config Download
              empty_world eq_refl) as [Hrun Hnext].
  split; [exact Hrun|]. apply Hnext. exists (py "(partial)"). vm_compute. reflexivity.
Defined.

Lemma main_aborts_on_tool_failure_witness :
  let w1 := (@main_fetch mock_failing_tools shipped_config empty_world).1 in
  @main mock_failing_tools shipped_config empty_world
  = (w1, Raise (CalledProcessError (@download_argv shipped_config))) /\
  trace w1 = [EvRun (@download_argv shipped_config)].
Proof.
  intros w1.
  destruct (@main_aborts_on_tool_failure mock_failing_tools shipped_config
              empty_world w1 (CalledProcessError (@download_argv shipped_config)))
    as [Hmain _]; [vm_compute; reflexivity|].
  split; [exact Hmain|reflexivity].
Defined.

(** The shipped settings where a tool is missing: without [yt-dlp]
    the run ends at once; with the video at hand and no program at the
    path [FFMPEG], it ends at the audio extraction.  Nothing has
    happened in either run. *)
Example main_tool_missing :
  @main mock_missing_tools shipped_config empty_world
  = (empty_world, Raise (OSError (py "yt-dlp"))) /\
  @main mock_missing_tools shipped_config video_world
  = (video_world, Raise (OSError (py "/opt/homebrew/bin/ffmpeg"))).
Proof. split; vm_compute; reflexivity. Qed.

Lemma italian_is_unknown : py "it" ∉ [py "ru"; py "fr"; py "es"; py "de"].
Proof.
  rewrite !not_elem_of_cons.
  repeat split; try (intros E; vm_compute in E; discriminate E).
  apply not_elem_of_nil.
Qed.

Lemma enabled_unknown_language_witness :
  let w1 := (@translate_and_save mock [hello_segment] (py "en") (py "ru")
               (py "my_video_ru.srt") empty_world).1 in
  @main_translate_all mock config_with_italian [hello_segment] empty_world
  = (w1, Raise (KeyError (py "it"))) /\
  fs w1 !! py "my_video_ru.srt" = Some (srt_file [hello_row]).
Proof.
  intros w1. split; [|vm_compute; reflexivity].
  apply (@enabled_unknown_language mock config_with_italian [hello_segment]
           [(py "ru", true)] [] (py "it") empty_world w1);
    [reflexivity | exact italian_is_unknown | vm_compute; reflexivity].
Defined.

Lemma video_is_no_output : py "my_video.mp4" ∉ @expected_outputs shipped_config.
Proof.
  change (@expected_outputs shipped_config)
    with [py "my_video_zh.srt"; py "my_video_en.srt"; py "my_video_ru.srt"].
  rewrite !not_elem_of_cons.
  repeat split; try (intros E; vm_compute in E; discriminate E).
  apply not_elem_of_nil.
Qed.

Lemma main_leaves_other_files_witness :
  fs (@main mock_recognizing shipped_config empty_world).1 !! py "my_video.mp4"
  = fs (@main_fetch mock_recognizing shipped_config empty_world).1 !! py "my_video.mp4".
Proof.
  apply (@main_leaves_other_files mock_recognizing shipped_config empty_world
           (py "my_video.mp4") video_is_no_output).
  discriminate.
Defined.
